(** * translate_citizen: the INI extractor, the encoding detector (findSC)
      and the translation processor, embedded and verified.

    Go strings and byte slices are sequences of bytes; a byte is a [Z] in
    [0, 256).  The functions below are total on [Z], and every theorem
    holds for all lists, so no range side condition is carried around.
    Go's [map[string]string] is a [gmap] keyed by byte strings.  Loops
    over a scanner are folds over the lines it delivers, and the
    functions that read a file are also given on the bytes of the file,
    with the scanner's error; what a function prints or writes is
    returned as data.

    The Go standard library calls the programs make ([strings.TrimSpace],
    [strings.Index], [strings.HasPrefix], [utf8.Valid], the [[]rune]
    conversion, [bufio.ScanLines]) and the decoders of
    [golang.org/x/text] are modelled in the modules [utf8], [unicode],
    [strings], [bufio] and [xtext]; the three programs follow in
    [Extractor] (init/main.go), [FindSC] (the detector) and [Processor]
    (process/main.go).  The properties come after all definitions. *)

From Stdlib Require Import ZArith List Bool Lia.
From Stdlib Require Import Strings.String Strings.Ascii.
From stdpp Require Import base option list gmap.
Import ListNotations.

Local Open Scope Z_scope.

(** A string literal as the bytes Go stores for it (ASCII text only). *)
Definition bytes (s : string) : list Z :=
  map (fun a => Z.of_N (N_of_ascii a)) (list_ascii_of_string s).

(* ===================================================================== *)
(** ** Package [unicode/utf8] *)
(* ===================================================================== *)
Module utf8.

Definition RuneError : Z := 0xFFFD.
Definition RuneSelf : Z := 0x80.
Definition MaxRune : Z := 0x10FFFF.
Definition UTFMax : Z := 4.

Definition surrogateMin : Z := 0xD800.
Definition surrogateMax : Z := 0xDFFF.

Definition maskx : Z := 0x3F.
Definition mask2 : Z := 0x1F.
Definition mask3 : Z := 0x0F.
Definition mask4 : Z := 0x07.

(** Lowest and highest continuation byte. *)
Definition locb : Z := 0x80.
Definition hicb : Z := 0xBF.

(** An entry of the [first] table: ASCII ([as]), an invalid lead byte
    ([xx]), or the size of the sequence with the accepted range of its
    second byte ([s1] .. [s7] together with [acceptRanges]). *)
Inductive firstInfo : Type :=
| AS : firstInfo
| XX : firstInfo
| Seq : nat -> Z -> Z -> firstInfo.

Definition first (b : Z) : firstInfo :=
  if b <? 0x80 then AS
  else if b <? 0xC2 then XX
  else if b <? 0xE0 then Seq 2 locb hicb
  else if b =? 0xE0 then Seq 3 0xA0 hicb
  else if b <? 0xED then Seq 3 locb hicb
  else if b =? 0xED then Seq 3 locb 0x9F
  else if b <? 0xF0 then Seq 3 locb hicb
  else if b =? 0xF0 then Seq 4 0x90 hicb
  else if b <? 0xF4 then Seq 4 locb hicb
  else if b =? 0xF4 then Seq 4 locb 0x8F
  else XX.

(** [DecodeRuneInString]: the first rune of [s] and its width in bytes;
    [(RuneError, 0)] on the empty string and [(RuneError, 1)] on an
    invalid encoding. *)
Definition DecodeRune (s : list Z) : Z * nat :=
  match s with
  | [] => (RuneError, 0%nat)
  | s0 :: t0 =>
    match first s0 with
    | AS => (s0, 1%nat)
    | XX => (RuneError, 1%nat)
    | Seq sz lo hi =>
      if (length s <? sz)%nat then (RuneError, 1%nat) else
      match t0 with
      | [] => (RuneError, 1%nat)
      | s1 :: t1 =>
        if (s1 <? lo) || (hi <? s1) then (RuneError, 1%nat) else
        if (sz <=? 2)%nat then
          (Z.lor (Z.shiftl (Z.land s0 mask2) 6) (Z.land s1 maskx), 2%nat)
        else
        match t1 with
        | [] => (RuneError, 1%nat)
        | s2 :: t2 =>
          if (s2 <? locb) || (hicb <? s2) then (RuneError, 1%nat) else
          if (sz <=? 3)%nat then
            (Z.lor (Z.lor (Z.shiftl (Z.land s0 mask3) 12)
                          (Z.shiftl (Z.land s1 maskx) 6))
                   (Z.land s2 maskx), 3%nat)
          else
          match t2 with
          | [] => (RuneError, 1%nat)
          | s3 :: _ =>
            if (s3 <? locb) || (hicb <? s3) then (RuneError, 1%nat) else
            (Z.lor (Z.lor (Z.lor (Z.shiftl (Z.land s0 mask4) 18)
                                 (Z.shiftl (Z.land s1 maskx) 12))
                          (Z.shiftl (Z.land s2 maskx) 6))
                   (Z.land s3 maskx), 4%nat)
          end
        end
      end
    end
  end.

(** [RuneStart]: the byte is not a continuation byte. *)
Definition RuneStart (b : Z) : bool := negb (Z.land b 0xC0 =? 0x80).

(** The backwards search of [DecodeLastRuneInString]:
    [for start--; start >= lim; start-- { if RuneStart(s[start]) { break } }],
    entered with [start] already decremented. *)
Fixpoint lastRuneStart (fuel : nat) (s : list Z) (start lim : Z) : Z :=
  match fuel with
  | O => start
  | S f =>
    if start <? lim then start
    else if RuneStart (nth (Z.to_nat start) s 0) then start
    else lastRuneStart f s (start - 1) lim
  end.

(** [DecodeLastRuneInString]: the last rune of [s] and its width. *)
Definition DecodeLastRune (s : list Z) : Z * nat :=
  let end_ := Z.of_nat (length s) in
  if end_ =? 0 then (RuneError, 0%nat) else
  let start := end_ - 1 in
  let r := nth (Z.to_nat start) s 0 in
  if r <? RuneSelf then (r, 1%nat) else
  let lim := Z.max 0 (end_ - UTFMax) in
  let start := lastRuneStart (Z.to_nat UTFMax) s (start - 1) lim in
  let start := if start <? 0 then 0 else start in
  let '(r, size) := DecodeRune (drop (Z.to_nat start) s) in
  if negb (start + Z.of_nat size =? end_) then (RuneError, 1%nat)
  else (r, size).

(** [Valid]: the bytes are entirely valid UTF-8. *)
Fixpoint validLoop (fuel : nat) (p : list Z) : bool :=
  match fuel with
  | O => match p with [] => true | _ => false end
  | S f =>
    match p with
    | [] => true
    | pi :: rest =>
      if pi <? RuneSelf then validLoop f rest
      else
        match first pi with
        | AS => validLoop f rest
        | XX => false
        | Seq size lo hi =>
          if (length p <? size)%nat then false else
          let c1 := nth 1 p 0 in
          if (c1 <? lo) || (hi <? c1) then false else
          if (size =? 2)%nat then validLoop f (drop size p) else
          let c2 := nth 2 p 0 in
          if (c2 <? locb) || (hicb <? c2) then false else
          if (size =? 3)%nat then validLoop f (drop size p) else
          let c3 := nth 3 p 0 in
          if (c3 <? locb) || (hicb <? c3) then false else
          validLoop f (drop size p)
        end
    end
  end.

Definition Valid (p : list Z) : bool := validLoop (length p) p.

(** [RuneLen]: bytes needed to encode the rune, [-1] when it is not a
    valid value to encode. *)
Definition RuneLen (r : Z) : Z :=
  if r <? 0 then -1
  else if r <=? 0x7F then 1
  else if r <=? 0x7FF then 2
  else if (surrogateMin <=? r) && (r <=? surrogateMax) then -1
  else if r <=? 0xFFFF then 3
  else if r <=? MaxRune then 4
  else -1.

(** Number of bytes [EncodeRune] writes: an invalid rune is written as
    [RuneError], three bytes. *)
Definition EncodeRuneLen (r : Z) : Z :=
  if (0 <=? r) && (r <=? 0x7F) then 1
  else if (0 <=? r) && (r <=? 0x7FF) then 2
  else if (r <? 0) || (MaxRune <? r)
          || ((surrogateMin <=? r) && (r <=? surrogateMax)) then 3
  else if r <=? 0xFFFF then 3
  else 4.

(** The conversion [[]rune(s)]: the runes of [s] in order, each invalid
    byte giving [RuneError]. *)
Fixpoint runesLoop (fuel : nat) (s : list Z) : list Z :=
  match fuel with
  | O => []
  | S f =>
    match s with
    | [] => []
    | _ => let '(r, size) := DecodeRune s in r :: runesLoop f (drop size s)
    end
  end.

Definition runes (s : list Z) : list Z := runesLoop (length s) s.

End utf8.

(* ===================================================================== *)
(** ** Package [unicode] *)
(* ===================================================================== *)
Module unicode.

Definition MaxLatin1 : Z := 0xFF.

(** [IsSpace]: the Latin-1 spaces listed in the source of the function,
    and the [White_Space] range table above Latin-1. *)
Definition IsSpace (r : Z) : bool :=
  if (0 <=? r) && (r <=? MaxLatin1) then
    (r =? 0x09) || (r =? 0x0A) || (r =? 0x0B) || (r =? 0x0C) || (r =? 0x0D)
    || (r =? 0x20) || (r =? 0x85) || (r =? 0xA0)
  else
    (r =? 0x1680) || ((0x2000 <=? r) && (r <=? 0x200A))
    || ((0x2028 <=? r) && (r <=? 0x2029)) || (r =? 0x202F)
    || (r =? 0x205F) || (r =? 0x3000).

End unicode.

(* ===================================================================== *)
(** ** Package [strings] *)
(* ===================================================================== *)
Module strings.

(** [HasPrefix s prefix]. *)
Fixpoint HasPrefix (s prefix : list Z) {struct prefix} : bool :=
  match prefix with
  | [] => true
  | p :: ps =>
    match s with
    | [] => false
    | b :: t => (b =? p) && HasPrefix t ps
    end
  end.

(** [TrimPrefix s prefix]. *)
Definition TrimPrefix (s prefix : list Z) : list Z :=
  if HasPrefix s prefix then drop (length prefix) s else s.

(** [Index s substr]: index of the first instance of [substr] in [s],
    [-1] when there is none. *)
Fixpoint Index (s substr : list Z) : Z :=
  if HasPrefix s substr then 0
  else
    match s with
    | [] => -1
    | _ :: t => let i := Index t substr in if i <? 0 then -1 else i + 1
    end.

(** Width of the white space rune [s] starts with, [0] when [s] does not
    start with one. *)
Definition spaceLen (s : list Z) : nat :=
  let '(r, size) := utf8.DecodeRune s in
  if unicode.IsSpace r then size else 0%nat.

(** Width of the white space rune [s] ends with, [0] when there is none. *)
Definition lastSpaceLen (s : list Z) : nat :=
  let '(r, size) := utf8.DecodeLastRune s in
  if unicode.IsSpace r then size else 0%nat.

(** [TrimLeftFunc s unicode.IsSpace]: runes are decoded from the front
    and dropped while they are white space. *)
Fixpoint trimLeftLoop (fuel : nat) (s : list Z) : list Z :=
  match fuel with
  | O => s
  | S f =>
    match spaceLen s with
    | O => s
    | n => trimLeftLoop f (drop n s)
    end
  end.

Definition TrimLeftSpace (s : list Z) : list Z := trimLeftLoop (length s) s.

(** [TrimRightFunc s unicode.IsSpace]: runes are decoded from the back
    ([DecodeLastRuneInString]) and dropped while they are white space. *)
Fixpoint trimRightLoop (fuel : nat) (s : list Z) : list Z :=
  match fuel with
  | O => s
  | S f =>
    match lastSpaceLen s with
    | O => s
    | n => trimRightLoop f (take (length s - n) s)
    end
  end.

Definition TrimRightSpace (s : list Z) : list Z := trimRightLoop (length s) s.

(** [TrimSpace]: all leading and trailing white space removed, as
    defined by Unicode.  (The ASCII fast path of the library function
    computes the same slice.) *)
Definition TrimSpace (s : list Z) : list Z := TrimRightSpace (TrimLeftSpace s).

(** A run of white space runes, each decoded alike whatever follows:
    what [TrimLeftSpace] takes off the front of a string. *)
Inductive SpaceRun : list Z -> Prop :=
| SpaceRun_nil : SpaceRun []
| SpaceRun_cons w rest :
    (0 < length w)%nat -> (forall t, spaceLen (w ++ t) = length w) ->
    SpaceRun rest -> SpaceRun (w ++ rest).

End strings.

(** The string holds ASCII bytes only. *)
Abbreviation AllAscii := (Forall (fun b : Z => 0 <= b < 0x80)).

(** The string holds no byte ["="]. *)
Abbreviation NoSep := (Forall (fun b : Z => b <> 0x3D)).

(* ===================================================================== *)
(** ** Package [bufio]: the line scanner *)
(* ===================================================================== *)
Module bufio.

(** [dropCR]: a terminal carriage return is dropped from the line. *)
Definition dropCR (data : list Z) : list Z :=
  if (0 <? Z.of_nat (length data))
     && (nth (length data - 1) data 0 =? 0x0D)
  then take (length data - 1) data
  else data.

(** [MaxScanTokenSize]: the size the buffer of a [Scanner] grows to, and
    no further. *)
Definition MaxScanTokenSize : Z := 64 * 1024.

(** The error of a scanner whose input is a file or a string that is
    read without error. *)
Inductive ScanError : Type := ErrTooLong.

(** A [Scanner] with the split function [ScanLines] on the input
    [data]: the tokens the successive calls of [Scan] deliver until
    [Scan] returns false, and the error [Err] reports then.  A line is
    delivered without its end-of-line marker, and a last non-empty line
    even when no newline ends it.  [Scan] stops with [ErrTooLong] when
    the buffer is full and holds no complete line, that is when
    [MaxScanTokenSize] bytes or more stand before the next newline or
    the end of the input; the tokens delivered before stay delivered. *)
Fixpoint scanLoop (fuel : nat) (data : list Z)
    : list (list Z) * option ScanError :=
  match fuel with
  | O => ([], None)
  | S f =>
    match data with
    | [] => ([], None)
    | _ =>
      let i := strings.Index data [0x0A] in
      if 0 <=? i then
        if MaxScanTokenSize <=? i then ([], Some ErrTooLong)
        else
          let '(tokens, err) := scanLoop f (drop (Z.to_nat (i + 1)) data) in
          (dropCR (take (Z.to_nat i) data) :: tokens, err)
      else if MaxScanTokenSize <=? Z.of_nat (length data)
      then ([], Some ErrTooLong)
      else ([dropCR data], None)
    end
  end.

(** The lines the loop [for scanner.Scan() { ... scanner.Text() ... }]
    sees. *)
Definition ScanLines (data : list Z) : list (list Z) :=
  fst (scanLoop (length data) data).

(** [scanner.Err()] after the loop. *)
Definition ScanErr (data : list Z) : option ScanError :=
  snd (scanLoop (length data) data).

End bufio.

(* ===================================================================== *)
(** ** Package [golang.org/x/text]: the Big5 and GBK decoders *)
(* ===================================================================== *)
(** The decoders belong to a library the programs import, not to the
    repository.  The library documents that a decoder does not fail on
    bytes that are not of its encoding: each byte that cannot be
    transcoded is written as U+FFFD.  [Transform] is modelled on the
    decoding loop: ASCII bytes are copied, a lead byte with a trail byte
    is looked up in the decoding table, every other byte gives U+FFFD;
    the loop stops with an error only when the destination is full
    ([ErrShortDst]) or, when [atEOF] is false, when the source ends
    inside a character ([ErrShortSrc]).  The decoding tables are
    parameters: no result below depends on their content.  Only the
    counts [nDst], [nSrc] and the error are modelled, which is all the
    detector reads. *)
Module xtext.

Inductive TransformError : Type := ErrShortDst | ErrShortSrc.

(** What one turn of the loop decides: to stop for lack of source, to
    write one rune, or to write a two-rune string of the given length;
    [size] is the number of source bytes consumed. *)
Inductive stepResult : Type :=
| ShortSrc : stepResult
| WriteRune : Z -> nat -> stepResult
| WriteStr : Z -> nat -> stepResult.

Fixpoint transformLoop (step : list Z -> stepResult) (fuel : nat)
    (dstLen nDst nSrc : Z) (src : list Z) : Z * Z * option TransformError :=
  match fuel with
  | O => (nDst, nSrc, None)
  | S f =>
    match src with
    | [] => (nDst, nSrc, None)
    | _ =>
      match step src with
      | ShortSrc => (nDst, nSrc, Some ErrShortSrc)
      | WriteRune r size =>
        if dstLen <? nDst + utf8.RuneLen r then (nDst, nSrc, Some ErrShortDst)
        else transformLoop step f dstLen (nDst + utf8.EncodeRuneLen r)
               (nSrc + Z.of_nat size) (drop size src)
      | WriteStr len size =>
        if dstLen <? nDst + len then (nDst, nSrc, Some ErrShortDst)
        else transformLoop step f dstLen (nDst + len)
               (nSrc + Z.of_nat size) (drop size src)
      end
    end
  end.

(** The rune of a table entry: a zero entry stands for an unmapped
    code. *)
Definition tableRune (decode : list Z) (i : Z) : Z :=
  let r := nth (Z.to_nat i) decode 0 in
  if r =? 0 then utf8.RuneError else r.

(** Big5: the lookup of a lead byte and an adjusted trail byte. *)
Definition big5Pair (decode : list Z) (c0 c1 : Z) : stepResult :=
  let i := (c0 - 0x81) * 157 + c1 in
  if i <? Z.of_nat (length decode) then
    if (i =? 1133) || (i =? 1135) || (i =? 1164) || (i =? 1166)
    then WriteStr 4 2%nat
    else WriteRune (tableRune decode i) 2%nat
  else WriteRune utf8.RuneError 2%nat.

Definition big5Step (decode : list Z) (atEOF : bool) (src : list Z)
    : stepResult :=
  match src with
  | [] => WriteRune utf8.RuneError 0%nat
  | c0 :: rest =>
    if c0 <? utf8.RuneSelf then WriteRune c0 1%nat
    else if (0x81 <=? c0) && (c0 <? 0xFF) then
      match rest with
      | [] => if atEOF then WriteRune utf8.RuneError 1%nat else ShortSrc
      | c1 :: _ =>
        if (0x40 <=? c1) && (c1 <? 0x7F) then big5Pair decode c0 (c1 - 0x40)
        else if (0xA1 <=? c1) && (c1 <? 0xFF) then big5Pair decode c0 (c1 - 0x62)
        else if c1 <? 0x40 then WriteRune utf8.RuneError 1%nat
        else WriteRune utf8.RuneError 2%nat
      end
    else WriteRune utf8.RuneError 1%nat
  end.

(** GBK: the lookup of a lead byte and an adjusted trail byte. *)
Definition gbkPair (decode : list Z) (c0 c1 : Z) : stepResult :=
  let i := (c0 - 0x81) * 190 + c1 in
  if i <? Z.of_nat (length decode)
  then WriteRune (tableRune decode i) 2%nat
  else WriteRune utf8.RuneError 2%nat.

Definition gbkStep (decode : list Z) (atEOF : bool) (src : list Z)
    : stepResult :=
  match src with
  | [] => WriteRune utf8.RuneError 0%nat
  | c0 :: rest =>
    if c0 <? utf8.RuneSelf then WriteRune c0 1%nat
    else if c0 =? 0x80 then WriteRune 0x20AC 1%nat
    else if c0 <? 0xFF then
      match rest with
      | [] => if atEOF then WriteRune utf8.RuneError 1%nat else ShortSrc
      | c1 :: _ =>
        if (0x40 <=? c1) && (c1 <? 0x7F) then gbkPair decode c0 (c1 - 0x40)
        else if (0x80 <=? c1) && (c1 <? 0xFF) then gbkPair decode c0 (c1 - 0x41)
        else WriteRune utf8.RuneError 1%nat
      end
    else WriteRune utf8.RuneError 1%nat
  end.

(** The bounds a turn of a decoding loop keeps to on a non-empty
    source: it never lacks source, it consumes at least one byte and no
    more than there are, and it writes at least one byte and at most
    three for each byte consumed. *)
Definition stepBounded (step : list Z -> stepResult) : Prop :=
  forall src, src <> [] ->
    match step src with
    | ShortSrc => False
    | WriteRune r size =>
      (1 <= size <= length src)%nat
      /\ utf8.RuneLen r <= 3 * Z.of_nat size
      /\ 1 <= utf8.EncodeRuneLen r <= 3 * Z.of_nat size
    | WriteStr len size =>
      (1 <= size <= length src)%nat /\ 1 <= len <= 3 * Z.of_nat size
    end.

(** [decoder.Transform(dst, src, atEOF)] for a destination of [dstLen]
    bytes: the triple [(nDst, nSrc, err)]. *)
Definition Big5Transform (decode : list Z) (dstLen : Z) (src : list Z)
    (atEOF : bool) : Z * Z * option TransformError :=
  transformLoop (big5Step decode atEOF) (length src) dstLen 0 0 src.

Definition GBKTransform (decode : list Z) (dstLen : Z) (src : list Z)
    (atEOF : bool) : Z * Z * option TransformError :=
  transformLoop (gbkStep decode atEOF) (length src) dstLen 0 0 src.

End xtext.

(** The UTF-8 encoding of U+FEFF, the byte-order-mark. *)
Definition BOM : list Z := [0xEF; 0xBB; 0xBF].

(** The one-byte strings ["="], ["#"] and [";"]. *)
Definition sepEq : list Z := [0x3D].
Definition hash : list Z := [0x23].
Definition semicolon : list Z := [0x3B].

(** [s == ""]. *)
Definition isEmpty (s : list Z) : bool :=
  match s with [] => true | _ => false end.

(** The content the body of a scanning loop works on: on line 1 a
    leading byte-order-mark is taken off ([strings.TrimPrefix]); both
    [parseINIFile] and [translateFile] start with this test. *)
Definition lineBody (lineNumber : Z) (line : list Z) : list Z :=
  if (lineNumber =? 1) && strings.HasPrefix line BOM
  then strings.TrimPrefix line BOM else line.

(** The ways the two parsers leave a line: the early exits of their
    code, in order, and the line with a key. *)
Inductive LineClass : Type :=
| ClassBlank : LineClass
| ClassComment : LineClass
| ClassNoSeparator : LineClass
| ClassEmptyKey : LineClass
| ClassValid : list Z -> LineClass.

(* ===================================================================== *)
(** ** init/main.go: the key-value extractor *)
(* ===================================================================== *)
Module Extractor.

(** The warnings [parseINIFile] prints, with the line number. *)
Inductive Warning : Type :=
| NoSeparator : Z -> list Z -> Warning
| EmptyKey : Z -> Warning.

(** The variables of the scanning loop of [parseINIFile]. *)
Record ParseState : Type := mkParse {
  lineNumber : Z;
  entries : gmap (list Z) (list Z);
  warnings : list Warning
}.

(** The body of [for scanner.Scan() { ... }] for the line [line]. *)
Definition parseStep (st : ParseState) (line : list Z) : ParseState :=
  let lineNumber := lineNumber st + 1 in
  let line :=
    if (lineNumber =? 1) && strings.HasPrefix line BOM
    then strings.TrimPrefix line BOM else line in
  let line := strings.TrimSpace line in
  if isEmpty line || strings.HasPrefix line hash
     || strings.HasPrefix line semicolon
  then mkParse lineNumber (entries st) (warnings st)
  else
    let index := strings.Index line sepEq in
    if index =? -1 then
      mkParse lineNumber (entries st)
        (warnings st ++ [NoSeparator lineNumber line])
    else
      let key := strings.TrimSpace (take (Z.to_nat index) line) in
      let value := strings.TrimSpace (drop (Z.to_nat (index + 1)) line) in
      if isEmpty key then
        mkParse lineNumber (entries st) (warnings st ++ [EmptyKey lineNumber])
      else mkParse lineNumber (<[key := value]> (entries st)) (warnings st).

Definition parseInit : ParseState := mkParse 0 ∅ [].

(** [parseINIFile] on the lines the scanner delivers: the map it
    returns (the warnings are what it prints on the way). *)
Definition parseLoop (lines : list (list Z)) : ParseState :=
  fold_left parseStep lines parseInit.

Definition parseINIFile (lines : list (list Z)) : gmap (list Z) (list Z) :=
  entries (parseLoop lines).

(** [parseINIFile] on the bytes of the file: when the scanner stopped
    with an error the function returns the error and no map
    ([if err := scanner.Err(); err != nil]). *)
Definition parseINIFileOn (content : list Z)
    : option (gmap (list Z) (list Z)) :=
  match bufio.ScanErr content with
  | Some _ => None
  | None => Some (parseINIFile (bufio.ScanLines content))
  end.

(** The exit the body of the loop of [parseINIFile] takes on the content
    [line] (after the byte-order-mark test): the separator is searched
    in the trimmed line. *)
Definition classify (line : list Z) : LineClass :=
  let line := strings.TrimSpace line in
  if isEmpty line then ClassBlank
  else if strings.HasPrefix line hash || strings.HasPrefix line semicolon
  then ClassComment
  else
    let index := strings.Index line sepEq in
    if index =? -1 then ClassNoSeparator
    else
      let key := strings.TrimSpace (take (Z.to_nat index) line) in
      if isEmpty key then ClassEmptyKey else ClassValid key.

(** The entry the body of the loop stores for the line read as line
    number [lineNumber], if it stores one. *)
Definition lineEntry (lineNumber : Z) (line : list Z)
    : option (list Z * list Z) :=
  let line := strings.TrimSpace (lineBody lineNumber line) in
  if isEmpty line || strings.HasPrefix line hash
     || strings.HasPrefix line semicolon
  then None
  else
    let index := strings.Index line sepEq in
    if index =? -1 then None
    else
      let key := strings.TrimSpace (take (Z.to_nat index) line) in
      let value := strings.TrimSpace (drop (Z.to_nat (index + 1)) line) in
      if isEmpty key then None else Some (key, value).

(** The verb [%d] of [fmt] on an [int]: the decimal digits, most
    significant first, after a minus sign for a negative number. *)
Fixpoint digits (fuel : nat) (n : Z) (acc : list Z) : list Z :=
  match fuel with
  | O => acc
  | S f =>
    let acc := (0x30 + n mod 10) :: acc in
    if n / 10 =? 0 then acc else digits f (n / 10) acc
  end.

Definition formatInt (n : Z) : list Z :=
  if n <? 0 then 0x2D :: digits (Z.to_nat (- n)) (- n) []
  else digits (S (Z.to_nat n)) n [].

(** [len(entries)] is an [int], 64 bits wide: the value an [int] holds
    for the mathematical integer [n]. *)
Definition intOf (n : Z) : Z := (n + 2 ^ 63) mod 2 ^ 64 - 2 ^ 63.

(** [writePlainText]: the bytes written to the file.  The loop
    [for key, value := range entries] visits the entries in an order
    the language leaves open: [order] is the order of one run, a
    permutation of the entries of the map. *)
Definition writePlainText (entries : gmap (list Z) (list Z))
    (order : list (list Z * list Z)) : list Z :=
  bytes "# Translation Map - Plain Text Format" ++ [0x0A]
  ++ bytes "# Total entries: " ++ formatInt (intOf (Z.of_nat (size entries)))
  ++ [0x0A]
  ++ bytes "# Format: KEY=VALUE" ++ [0x0A; 0x0A]
  ++ concat (map (fun '(key, value) => key ++ sepEq ++ value ++ [0x0A]) order).

(** The same file by its lines: three comment lines, an empty line, and
    one line for each entry. *)
Definition plainTextRecords (entries : gmap (list Z) (list Z))
    (order : list (list Z * list Z)) : list (list Z) :=
  [ bytes "# Translation Map - Plain Text Format";
    bytes "# Total entries: " ++ formatInt (intOf (Z.of_nat (size entries)));
    bytes "# Format: KEY=VALUE";
    [] ]
  ++ map (fun '(key, value) => key ++ sepEq ++ value) order.

(** A byte [%d] writes: a digit or the minus sign. *)
Definition isNumeral (b : Z) : Prop := 0x30 <= b <= 0x39 \/ b = 0x2D.

(** What an entry of the map [parseINIFile] builds from scanner lines is
    like: the key is not empty, trimmed, without ["="] and does not
    start a comment; the value is trimmed; neither holds a newline. *)
Definition extractedEntry (key value : list Z) : Prop :=
  key <> [] /\ strings.TrimSpace key = key /\ NoSep key
  /\ strings.HasPrefix key hash = false
  /\ strings.HasPrefix key semicolon = false
  /\ strings.TrimSpace value = value
  /\ Forall (fun b => b <> 0x0A) key /\ Forall (fun b => b <> 0x0A) value.

End Extractor.

(* ===================================================================== *)
(** ** The detector of Simplified Chinese (findSC) *)
(* ===================================================================== *)
Module FindSC.

Definition encUTF8 : list Z := bytes "UTF-8".
Definition encBIG5 : list Z := bytes "BIG5".
Definition encGBK : list Z := bytes "GB2312/GBK".

Section Tables.

(** The decoding tables of the two library decoders. *)
Variable big5Table : list Z.
Variable gbkTable : list Z.

(** The loop of [isBIG5Encoded] over [i < len(content)-1], returning
    [n > 0] at the first lead byte followed by a trail byte. *)
Fixpoint big5Scan (n : Z) (content : list Z) : bool :=
  match content with
  | c :: rest =>
    match rest with
    | [] => false
    | c' :: _ =>
      if (0xA1 <=? c) && (c <=? 0xF9) then
        if ((0x40 <=? c') && (c' <=? 0x7E)) || ((0xA1 <=? c') && (c' <=? 0xFE))
        then 0 <? n
        else big5Scan n rest
      else big5Scan n rest
    end
  | [] => false
  end.

Definition isBIG5Encoded (content : list Z) : bool :=
  let decodedLen := Z.of_nat (length content) * 3 in
  let '(n, _, err) := xtext.Big5Transform big5Table decodedLen content true in
  match err with
  | Some _ => false
  | None => big5Scan n content
  end.

(** The loop of [isGBKEncoded]. *)
Fixpoint gbkScan (n : Z) (content : list Z) : bool :=
  match content with
  | c :: rest =>
    match rest with
    | [] => false
    | c' :: _ =>
      if (0x81 <=? c) && (c <=? 0xFE) then
        if (0x40 <=? c') && (c' <=? 0xFE)
        then 0 <? n
        else gbkScan n rest
      else gbkScan n rest
    end
  | [] => false
  end.

Definition isGBKEncoded (content : list Z) : bool :=
  let decodedLen := Z.of_nat (length content) * 3 in
  let '(n, _, err) := xtext.GBKTransform gbkTable decodedLen content true in
  match err with
  | Some _ => false
  | None => gbkScan n content
  end.

(** [len(content) >= 3 && content[0] == 0xEF && content[1] == 0xBB
    && content[2] == 0xBF]. *)
Definition hasBOM (content : list Z) : bool :=
  (3 <=? Z.of_nat (length content))
  && (nth 0 content 0 =? 0xEF) && (nth 1 content 0 =? 0xBB)
  && (nth 2 content 0 =? 0xBF).

(** The loop over the bytes of a valid UTF-8 buffer: the pair
    [(hasGBKRange, hasBIG5Range)]. *)
Definition highRanges (content : list Z) : bool * bool :=
  fold_left
    (fun (acc : bool * bool) (b : Z) =>
       let hasGBKRange :=
         if (0x81 <=? b) && (b <=? 0xFE) then true else fst acc in
       let hasBIG5Range :=
         if (0xA1 <=? b) && (b <=? 0xF9) then true else snd acc in
       (hasGBKRange, hasBIG5Range))
    content (false, false).

(** The first two tests of [detectFileEncoding] answer ["UTF-8"]. *)
Definition utf8Rule (content : list Z) : bool :=
  utf8.Valid content
  && (let '(hasGBKRange, hasBIG5Range) := highRanges content in
      negb hasGBKRange && negb hasBIG5Range).

Definition detectFileEncoding (content : list Z) : list Z :=
  if hasBOM content then encUTF8
  else if utf8Rule content then encUTF8
  else if isBIG5Encoded content then encBIG5
  else if isGBKEncoded content then encGBK
  else encUTF8.

End Tables.

(** The spec's [EncodingVerdict]. *)
Inductive EncodingVerdict : Type :=
| UTF8 | TraditionalByteEncoding | SimplifiedByteEncoding | Unknown.

(** How [main] reads the string [detectFileEncoding] returned: the
    branch it takes for each value, the last [else] being the one that
    announces an unknown encoding. *)
Definition verdict (encoding : list Z) : EncodingVerdict :=
  if decide (encoding = encGBK) then SimplifiedByteEncoding
  else if decide (encoding = encUTF8) then UTF8
  else if decide (encoding = encBIG5) then TraditionalByteEncoding
  else Unknown.

(** The keys of the map [simplifiedOnly], as code points. *)
Definition simplifiedOnly : gmap Z bool :=
  list_to_map
    [ (0x56FD, true); (0x95E8, true); (0x957F, true); (0x5F00, true);
      (0x8F66, true); (0x8D1D, true); (0x89C1, true); (0x6C14, true);
      (0x65E0, true); (0x4E13, true) ].

(** One row of the table [scanUTF8ForSimplified] prints. *)
Record Finding : Type := mkFinding {
  lineNum : Z;
  char : Z;
  context : list Z
}.

(** The loop [for i, r := range runes] of [scanUTF8ForSimplified] on one
    line, from index [i] on. *)
Fixpoint scanRunes (lineNum : Z) (runes : list Z) (i : Z) (rest : list Z)
    : list Finding :=
  match rest with
  | [] => []
  | r :: rest' =>
    let more := scanRunes lineNum runes (i + 1) rest' in
    if default false (simplifiedOnly !! r) then
      let start := if i - 15 <? 0 then 0 else i - 15 in
      let end_ :=
        if Z.of_nat (length runes) <? i + 15
        then Z.of_nat (length runes) else i + 15 in
      mkFinding lineNum r
        (take (Z.to_nat (end_ - start)) (drop (Z.to_nat start) runes))
      :: more
    else more
  end.

(** The lines of the scanner, numbered from [lineNum + 1] on. *)
Fixpoint scanLinesFrom (lineNum : Z) (lines : list (list Z)) : list Finding :=
  match lines with
  | [] => []
  | line :: rest =>
    let lineNum := lineNum + 1 in
    let runes := utf8.runes line in
    scanRunes lineNum runes 0 runes ++ scanLinesFrom lineNum rest
  end.

(** [scanUTF8ForSimplified]: the rows printed; [foundCount] is their
    number.  The loop runs over the lines the scanner delivers; the
    function never reads [scanner.Err()], so a scanner that stopped at
    a line filling its buffer ends the report without a message. *)
Definition scanUTF8ForSimplified (content : list Z) : list Finding :=
  scanLinesFrom 0 (bufio.ScanLines content).

(** [simplifiedOnly[r]]: a missing key reads as [false]. *)
Definition flagged (r : Z) : bool := default false (simplifiedOnly !! r).

(** One row of the table [scanMixedEncodingFile] prints: line, byte
    position and the two bytes. *)
Record Issue : Type := mkIssue {
  issueLine : Z;
  issuePos : Z;
  issueLead : Z;
  issueTrail : Z
}.

(** The loop of [scanMixedEncodingFile] from byte position [pos] on,
    [content] being what is left of the buffer there: a newline counts
    a line, a byte in 0x81-0xFE followed by a byte in 0x40-0xFE is
    reported and both bytes are passed over, any other byte is passed
    over alone. *)
Fixpoint mixedScan (lineNum pos : Z) (content : list Z) : list Issue :=
  match content with
  | [] => []
  | c :: rest =>
    if c =? 0x0A then mixedScan (lineNum + 1) (pos + 1) rest
    else
      match rest with
      | [] => []
      | c' :: rest' =>
        if ((0x81 <=? c) && (c <=? 0xFE)) && ((0x40 <=? c') && (c' <=? 0xFE))
        then mkIssue lineNum pos c c' :: mixedScan lineNum (pos + 2) rest'
        else mixedScan lineNum (pos + 1) rest
      end
  end.

(** [scanMixedEncodingFile]: the rows printed; [foundIssues] is their
    number. *)
Definition scanMixedEncodingFile (content : list Z) : list Issue :=
  mixedScan 1 0 content.

(** Number of newline bytes in a buffer. *)
Definition newlines (l : list Z) : Z :=
  Z.of_nat (length (filter (fun b => b = 0x0A) l)).

(** The row [i] shows the two bytes at the positions [k] and [k + 1] of
    the buffer, a lead byte and a trail byte by the ranges of
    [scanMixedEncodingFile]. *)
Definition gbkPairAt (content : list Z) (k : nat) (i : Issue) : Prop :=
  content !! k = Some (issueLead i) /\ content !! S k = Some (issueTrail i)
  /\ 0x81 <= issueLead i <= 0xFE /\ 0x40 <= issueTrail i <= 0xFE.

(** No byte of the range of a GBK lead byte is followed by a byte of
    the range of a GBK trail byte. *)
Definition NoPair (l : list Z) : Prop :=
  forall a c c' rest, l = a ++ c :: c' :: rest ->
    ~ (0x81 <= c <= 0xFE /\ 0x40 <= c' <= 0xFE).

(** The buffer ["ASD_Country=" + U+56FD U+5BB6 + "\n"] in UTF-8, without
    byte-order-mark. *)
Definition countryBuffer : list Z :=
  bytes "ASD_Country=" ++ [0xE5; 0x9B; 0xBD; 0xE5; 0xAE; 0xB6; 0x0A].

(** The text ["caf" + U+00E9] in Latin-1. *)
Definition latin1Buffer : list Z := bytes "caf" ++ [0xE9].

(** Follows the spec's words (4.4), for comparison with [isBIG5Encoded]:
    decoding under the Traditional-Chinese rule set.  A byte below 0x80
    stands for itself; a lead byte in 0xA1-0xF9 followed by a trail byte
    in 0x40-0x7E or 0xA1-0xFE is a valid two-byte sequence; anything
    else is a decoding error ([None]).  The result counts the two-byte
    sequences decoded. *)
Fixpoint specBig5Decode (content : list Z) : option nat :=
  match content with
  | [] => Some 0%nat
  | c :: rest =>
    if c <? 0x80 then specBig5Decode rest
    else if (0xA1 <=? c) && (c <=? 0xF9) then
      match rest with
      | [] => None
      | c' :: rest' =>
        if ((0x40 <=? c') && (c' <=? 0x7E)) || ((0xA1 <=? c') && (c' <=? 0xFE))
        then S <$> specBig5Decode rest'
        else None
      end
    else None
  end.

(** Follows the spec's words (4.4): the whole buffer decodes without
    error under the rule set and at least one two-byte sequence is
    found. *)
Definition specIsTraditional (content : list Z) : bool :=
  match specBig5Decode content with
  | Some k => (0 <? k)%nat
  | None => false
  end.

End FindSC.

(* ===================================================================== *)
(** ** process/main.go: the translation processor *)
(* ===================================================================== *)
Module Processor.

(** The counters are Go [int]s; each is incremented at most once per
    line (see [stats_bounded]), so they stay far below [2^63] and are
    kept as unbounded integers. *)
Record TranslationStats : Type := mkStats {
  TotalLines : Z;
  Translated : Z;
  Unchanged : Z;
  Skipped : Z;
  NotFound : Z
}.

Definition incTotalLines (s : TranslationStats) : TranslationStats :=
  mkStats (TotalLines s + 1) (Translated s) (Unchanged s) (Skipped s) (NotFound s).
Definition incTranslated (s : TranslationStats) : TranslationStats :=
  mkStats (TotalLines s) (Translated s + 1) (Unchanged s) (Skipped s) (NotFound s).
Definition incUnchanged (s : TranslationStats) : TranslationStats :=
  mkStats (TotalLines s) (Translated s) (Unchanged s + 1) (Skipped s) (NotFound s).
Definition incSkipped (s : TranslationStats) : TranslationStats :=
  mkStats (TotalLines s) (Translated s) (Unchanged s) (Skipped s + 1) (NotFound s).
Definition incNotFound (s : TranslationStats) : TranslationStats :=
  mkStats (TotalLines s) (Translated s) (Unchanged s) (Skipped s) (NotFound s + 1).

(** [isEmptyOrComment]. *)
Definition isEmptyOrComment (line : list Z) : bool :=
  let trimmed := strings.TrimSpace line in
  isEmpty trimmed || strings.HasPrefix trimmed hash
  || strings.HasPrefix trimmed semicolon.

(** [processLine]: the line to write, and the statistics after the
    update the function makes through its pointer argument. *)
Definition processLine (line : list Z) (translationMap : gmap (list Z) (list Z))
    (stats : TranslationStats) : list Z * TranslationStats :=
  let trimmed := strings.TrimSpace line in
  if isEmpty trimmed || strings.HasPrefix trimmed hash
     || strings.HasPrefix trimmed semicolon
  then (line, incSkipped stats)
  else
    let index := strings.Index line sepEq in
    if index =? -1 then (line, incUnchanged stats)
    else
      let key := strings.TrimSpace (take (Z.to_nat index) line) in
      if isEmpty key then (line, incUnchanged stats)
      else
        match translationMap !! key with
        | Some translatedValue =>
          (key ++ sepEq ++ translatedValue, incTranslated stats)
        | None => (line, incUnchanged (incNotFound stats))
        end.

(** The variables of the loop of [translateFile]; [written] holds what
    each [Fprintf] wrote before its newline, one record per call. *)
Record LoopState : Type := mkLoop {
  lineNumber : Z;
  stats : TranslationStats;
  written : list (list Z)
}.

(** The body of [for scanner.Scan() { ... }] for the line [line]. *)
Definition translateStep (translationMap : gmap (list Z) (list Z))
    (st : LoopState) (line : list Z) : LoopState :=
  let lineNumber := lineNumber st + 1 in
  let stats := incTotalLines (stats st) in
  if (lineNumber =? 1) && strings.HasPrefix line BOM then
    let bomPrefix := BOM in
    let line := strings.TrimPrefix line bomPrefix in
    let '(processedLine, stats) := processLine line translationMap stats in
    mkLoop lineNumber stats (written st ++ [bomPrefix ++ processedLine])
  else
    let '(processedLine, stats) := processLine line translationMap stats in
    mkLoop lineNumber stats (written st ++ [processedLine]).

Definition translateInit : LoopState := mkLoop 0 (mkStats 0 0 0 0 0) [].

(** [translateFile] on the lines the scanner delivers. *)
Definition translateLoop (lines : list (list Z))
    (translationMap : gmap (list Z) (list Z)) : LoopState :=
  fold_left (translateStep translationMap) lines translateInit.

(** The records the loop of [translateFile] writes, in order, for the
    lines the scanner delivered; [translateFileOn] below gives what
    becomes of the file. *)
Definition translateFile (lines : list (list Z))
    (translationMap : gmap (list Z) (list Z)) : list (list Z) :=
  written (translateLoop lines translationMap).

(** The statistics [translateFile] returns. *)
Definition translateStats (lines : list (list Z))
    (translationMap : gmap (list Z) (list Z)) : TranslationStats :=
  stats (translateLoop lines translationMap).

(** The exit [processLine] takes on [line]: blank and comment are
    decided on the trimmed line, the separator is searched in the raw
    line. *)
Definition classify (line : list Z) : LineClass :=
  let trimmed := strings.TrimSpace line in
  if isEmpty trimmed then ClassBlank
  else if strings.HasPrefix trimmed hash || strings.HasPrefix trimmed semicolon
  then ClassComment
  else
    let index := strings.Index line sepEq in
    if index =? -1 then ClassNoSeparator
    else
      let key := strings.TrimSpace (take (Z.to_nat index) line) in
      if isEmpty key then ClassEmptyKey else ClassValid key.

(** The line [processLine] returns (it does not depend on the
    statistics). *)
Definition processed (translationMap : gmap (list Z) (list Z)) (line : list Z)
    : list Z :=
  fst (processLine line translationMap (mkStats 0 0 0 0 0)).

(** The record written for line 1. *)
Definition firstRecord (translationMap : gmap (list Z) (list Z))
    (line : list Z) : list Z :=
  if strings.HasPrefix line BOM
  then BOM ++ processed translationMap (strings.TrimPrefix line BOM)
  else processed translationMap line.

(** The invariant of the statistics. *)
Definition statsInvariant (s : TranslationStats) : Prop :=
  TotalLines s = Translated s + Unchanged s + Skipped s
  /\ 0 <= NotFound s <= Unchanged s.

(** All counters lie between 0 and the number [n] of lines read. *)
Definition statsWithin (n : Z) (s : TranslationStats) : Prop :=
  TotalLines s = n /\ 0 <= Translated s <= n /\ 0 <= Unchanged s <= n
  /\ 0 <= Skipped s <= n /\ 0 <= NotFound s <= n.

(** The first pass leaves line 1 with a byte-order-mark only if the
    input had one there. *)
Definition firstLineStable (lines : list (list Z))
    (translationMap : gmap (list Z) (list Z)) : bool :=
  match lines with
  | [] => true
  | line :: _ =>
    strings.HasPrefix line BOM
    || negb (strings.HasPrefix (processed translationMap line) BOM)
  end.

(** The part of a line up to and including its first ["="]: what stands
    before the value. *)
Definition beforeValue (line : list Z) : list Z :=
  take (Z.to_nat (strings.Index line sepEq + 1)) line.

(** What [processLine] does with a line and how it counts it. *)
Inductive Outcome : Type :=
| OutSkipped | OutMalformed | OutTranslated | OutNotFound.

Definition outcome (translationMap : gmap (list Z) (list Z)) (line : list Z)
    : Outcome :=
  match classify line with
  | ClassBlank | ClassComment => OutSkipped
  | ClassNoSeparator | ClassEmptyKey => OutMalformed
  | ClassValid key =>
    match translationMap !! key with
    | Some _ => OutTranslated
    | None => OutNotFound
    end
  end.

Definition isTranslated (o : Outcome) : bool :=
  match o with OutTranslated => true | _ => false end.
Definition isNotFound (o : Outcome) : bool :=
  match o with OutNotFound => true | _ => false end.
Definition isMalformed (o : Outcome) : bool :=
  match o with OutMalformed => true | _ => false end.
Definition isSkipped (o : Outcome) : bool :=
  match o with OutSkipped => true | _ => false end.

(** The outcomes of the lines of a file, in order: line 1 is judged
    without its byte-order-mark. *)
Definition outcomes (translationMap : gmap (list Z) (list Z))
    (lines : list (list Z)) : list Outcome :=
  match lines with
  | [] => []
  | line :: rest =>
    outcome translationMap (lineBody 1 line)
    :: map (outcome translationMap) rest
  end.

(** How many outcomes satisfy [f]. *)
Definition countOf (f : Outcome -> bool) (os : list Outcome) : Z :=
  Z.of_nat (length (filter (fun o => f o = true) os)).

(** What one line of outcome [o] adds to the counters. *)
Definition count (o : Outcome) (s : TranslationStats) : TranslationStats :=
  mkStats (TotalLines s + 1)
    (Translated s + (if isTranslated o then 1 else 0))
    (Unchanged s + (if isMalformed o then 1 else 0)
                 + (if isNotFound o then 1 else 0))
    (Skipped s + (if isSkipped o then 1 else 0))
    (NotFound s + (if isNotFound o then 1 else 0)).

(** The counters [s] after lines of the outcomes [os]. *)
Definition tally (s : TranslationStats) (os : list Outcome) : TranslationStats :=
  mkStats (TotalLines s + Z.of_nat (length os))
    (Translated s + countOf isTranslated os)
    (Unchanged s + countOf isMalformed os + countOf isNotFound os)
    (Skipped s + countOf isSkipped os)
    (NotFound s + countOf isNotFound os).

(** Inputs used in the examples. *)
Definition mapK1 : gmap (list Z) (list Z) := {[ bytes "K1" := bytes "X1" ]}.

Definition paddedLine : list Z := bytes " K1 = V1".

(** A file whose line 1 is [" " + U+FEFF + "K=V"] and whose line 2 is
    ["K=W"], and the map the extractor builds from that file: its keys
    are [U+FEFF + "K"] and ["K"]. *)
Definition markedLines : list (list Z) :=
  [ [0x20] ++ BOM ++ bytes "K=V"; bytes "K=W" ].

Definition markedMap : gmap (list Z) (list Z) :=
  Extractor.parseINIFile markedLines.

(** The bytes of the output file: every record followed by a newline. *)
Definition fileContent (records : list (list Z)) : list Z :=
  concat (map (fun r => r ++ [0x0A]) records).

(** A string the scanner can deliver as a line and read back unchanged:
    it holds no newline and does not end with a carriage return. *)
Definition scannerLine (l : list Z) : Prop :=
  Forall (fun b => b <> 0x0A) l /\ bufio.dropCR l = l.

(** [translateFile] on the bytes of the file at [filepath]: the bytes
    the file holds when the function returns, and the statistics it
    returns, [None] standing for the error.  The records go to a
    temporary file; when the scanner stopped with an error the function
    returns before the [os.Rename] and the file stays as it was,
    otherwise the temporary file replaces it.  (The calls of the file
    system are taken to succeed.) *)
Definition translateFileOn (content : list Z)
    (translationMap : gmap (list Z) (list Z))
    : list Z * option TranslationStats :=
  match bufio.ScanErr content with
  | Some _ => (content, None)
  | None =>
    (fileContent (translateFile (bufio.ScanLines content) translationMap),
     Some (translateStats (bufio.ScanLines content) translationMap))
  end.

End Processor.

(* ===================================================================== *)
(** * Properties of the library models *)
(* ===================================================================== *)

(** ** The models on concrete inputs *)

Example DecodeRune_three_bytes :
  utf8.DecodeRune [0xE5; 0x9B; 0xBD; 0x3D] = (0x56FD, 3%nat)
  /\ utf8.DecodeRune [0xE5; 0x9B] = (utf8.RuneError, 1%nat)
  /\ utf8.DecodeRune [0xC0; 0x80] = (utf8.RuneError, 1%nat)
  /\ utf8.DecodeLastRune [0x3D; 0xE3; 0x80; 0x80] = (0x3000, 3%nat)
  /\ utf8.DecodeLastRune [0xC2; 0xA0; 0x80] = (utf8.RuneError, 1%nat).
Proof. repeat split. Qed.

Example Valid_examples :
  utf8.Valid (bytes "key=value") = true
  /\ utf8.Valid [0xE5; 0x9B; 0xBD; 0xE5; 0xAE; 0xB6] = true
  /\ utf8.Valid [0x63; 0x61; 0x66; 0xE9] = false
  /\ utf8.Valid [0xED; 0xA0; 0x80] = false.
Proof. repeat split. Qed.

(** White space is trimmed as Unicode defines it: the ideographic space
    U+3000, the no-break space U+00A0 and U+200A go, U+FEFF stays. *)
Example TrimSpace_examples :
  strings.TrimSpace (bytes "  K1 = V1 ") = bytes "K1 = V1"
  /\ strings.TrimSpace
       ([0xE3; 0x80; 0x80] ++ bytes " K1" ++ [0xC2; 0xA0; 0xE2; 0x80; 0x8A])
     = bytes "K1"
  /\ strings.TrimSpace ([0x20] ++ BOM ++ bytes "K ") = BOM ++ bytes "K"
  /\ strings.TrimSpace (bytes "K" ++ [0x80; 0x20]) = bytes "K" ++ [0x80]
  /\ strings.TrimSpace [0x09; 0x0D; 0x20] = [].
Proof. repeat split. Qed.

Example Index_examples :
  strings.Index (bytes "a=b=c") sepEq = 1
  /\ strings.Index (bytes "no_equals_here") sepEq = -1
  /\ strings.Index [] sepEq = -1
  /\ strings.Index (bytes "abcabc") (bytes "ca") = 2.
Proof. repeat split. Qed.

Example ScanLines_examples :
  bufio.ScanLines (bytes "ab" ++ [0x0D; 0x0A] ++ bytes "cd" ++ [0x0A; 0x0A] ++ bytes "e")
  = [bytes "ab"; bytes "cd"; []; bytes "e"]
  /\ bufio.ScanLines [] = []
  /\ bufio.ScanLines [0x0A] = [[]].
Proof. repeat split. Qed.

Example parseINIFile_example :
  Extractor.parseINIFile
    [BOM ++ bytes "a=1"; bytes "# c"; bytes " a = 2 "; bytes "b=3=4"; bytes "=5"]
  = <[bytes "b" := bytes "3=4"]> {[ bytes "a" := bytes "2" ]}.
Proof. vm_compute. reflexivity. Qed.

Module utf8_facts.
Import utf8.

Lemma first_AS_inv b : first b = AS -> b < 0x80.
Proof.
  unfold first.
  repeat match goal with
         | |- context [if ?c then _ else _] => destruct c eqn:?
         end; try discriminate; lia.
Qed.

Lemma first_Seq_inv b sz lo hi :
  first b = Seq sz lo hi ->
  (sz = 2 \/ sz = 3 \/ sz = 4)%nat /\ 0x80 <= lo /\ 0xC2 <= b.
Proof.
  unfold first, locb.
  repeat match goal with
         | |- context [if ?c then _ else _] => destruct c eqn:?
         end; intros H; inversion H; subst; repeat split; auto; lia.
Qed.

Lemma IsSpace_RuneError : unicode.IsSpace RuneError = false.
Proof. reflexivity. Qed.

Lemma IsSpace_not_sep r : unicode.IsSpace r = true -> r <> 0x3D.
Proof. intros H ->. discriminate H. Qed.

Lemma DecodeRune_space s r size :
  DecodeRune s = (r, size) -> unicode.IsSpace r = true ->
  (1 <= size <= length s)%nat
  /\ Forall (fun b => b <> 0x3D) (take size s)
  /\ forall t, DecodeRune (take size s ++ t) = (r, size).
Proof.
  intros HD HS.
  assert (HE : r <> RuneError) by (intros ->; discriminate HS).
  destruct s as [|s0 t0]; [inversion HD; subst; discriminate|].
  unfold DecodeRune in HD.
  destruct (first s0) eqn:F.
  - inversion HD; subst. split; [simpl; lia|]. split.
    + simpl. rewrite take_0. repeat constructor. now apply IsSpace_not_sep.
    + intros t. simpl. now rewrite F.
  - inversion HD; subst. congruence.
  - apply first_Seq_inv in F as F'. destruct F' as (Hsz & Hlo & Hs0).
    destruct ((length (s0 :: t0) <? n)%nat) eqn:HL; [inversion HD; congruence|].
    destruct t0 as [|s1 t1]; [inversion HD; congruence|].
    destruct ((s1 <? z) || (z0 <? s1)) eqn:H1; [inversion HD; congruence|].
    apply orb_false_iff in H1 as [H1a H1b].
    destruct Hsz as [-> | [-> | ->]]; simpl in HD.
    + inversion HD; subst. split; [simpl; lia|]. split.
      * simpl. rewrite take_0. repeat constructor; lia.
      * intros t. simpl. rewrite F. simpl. rewrite H1a, H1b. reflexivity.
    + destruct t1 as [|s2 t2]; [inversion HD; congruence|].
      destruct ((s2 <? locb) || (hicb <? s2)) eqn:H2; [inversion HD; congruence|].
      apply orb_false_iff in H2 as [H2a H2b]. unfold locb in *.
      inversion HD; subst. split; [simpl; lia|]. split.
      * simpl. rewrite take_0. repeat constructor; lia.
      * intros t. simpl. rewrite F. simpl. rewrite H1a, H1b. simpl.
        unfold locb. rewrite H2a, H2b. reflexivity.
    + destruct t1 as [|s2 t2]; [inversion HD; congruence|].
      destruct ((s2 <? locb) || (hicb <? s2)) eqn:H2; [inversion HD; congruence|].
      apply orb_false_iff in H2 as [H2a H2b]. unfold locb in *.
      destruct t2 as [|s3 t3]; [inversion HD; congruence|].
      destruct ((s3 <? 128) || (hicb <? s3)) eqn:H3; [inversion HD; congruence|].
      apply orb_false_iff in H3 as [H3a H3b].
      inversion HD; subst. split; [simpl; lia|]. split.
      * simpl. rewrite take_0. repeat constructor; lia.
      * intros t. simpl. rewrite F. simpl. rewrite H1a, H1b. simpl.
        unfold locb. rewrite H2a, H2b, H3a, H3b. reflexivity.
Qed.


Lemma drop_last_nth (s : list Z) :
  s <> [] -> drop (length s - 1) s = [nth (length s - 1) s 0].
Proof.
  destruct s as [|x l _] using rev_ind; [congruence|]. intros _.
  rewrite length_app. simpl length.
  replace (length l + 1 - 1)%nat with (length l) by lia.
  rewrite drop_app_length, nth_middle. reflexivity.
Qed.

Lemma DecodeLastRune_space s r size :
  DecodeLastRune s = (r, size) -> unicode.IsSpace r = true ->
  (1 <= size <= length s)%nat
  /\ Forall (fun b => b <> 0x3D) (drop (length s - size) s).
Proof.
  intros HD HS.
  assert (HE : r <> RuneError) by (intros ->; discriminate HS).
  unfold DecodeLastRune in HD.
  destruct (Z.of_nat (length s) =? 0) eqn:H0; [inversion HD; congruence|].
  apply Z.eqb_neq in H0.
  assert (Hne : s <> []) by (intros ->; simpl in H0; lia).
  destruct (nth (Z.to_nat (Z.of_nat (length s) - 1)) s 0 <? RuneSelf) eqn:HA.
  - inversion HD; subst. split; [lia|].
    rewrite drop_last_nth by assumption.
    replace (Z.to_nat (Z.of_nat (length s) - 1)) with (length s - 1)%nat in HS by lia.
    repeat constructor. now apply IsSpace_not_sep.
  - set (st0 := lastRuneStart _ _ _ _) in HD.
    set (st := if st0 <? 0 then 0 else st0) in HD.
    assert (Hst : 0 <= st) by (subst st; destruct (st0 <? 0) eqn:E; lia).
    destruct (DecodeRune (drop (Z.to_nat st) s)) as [r' size'] eqn:HR.
    destruct (negb (st + Z.of_nat size' =? Z.of_nat (length s))) eqn:HN;
      [inversion HD; congruence|].
    apply negb_false_iff, Z.eqb_eq in HN. inversion HD; subst r' size'.
    destruct (DecodeRune_space _ _ _ HR HS) as (Hsz & Hall & _).
    rewrite length_drop in Hsz.
    replace (length s - size)%nat with (Z.to_nat st) by lia.
    split; [lia|].
    rewrite take_ge in Hall by (rewrite length_drop; lia). exact Hall.
Qed.

End utf8_facts.

Module strings_facts.
Import strings utf8_facts.

Lemma spaceLen_inv s n :
  spaceLen s = n -> (0 < n)%nat ->
  (n <= length s)%nat /\ Forall (fun b => b <> 0x3D) (take n s)
  /\ forall t, spaceLen (take n s ++ t) = n.
Proof.
  unfold spaceLen. destruct (utf8.DecodeRune s) as [r size] eqn:HD.
  destruct (unicode.IsSpace r) eqn:HS; [|lia]. intros <- Hn.
  destruct (DecodeRune_space _ _ _ HD HS) as (H1 & H2 & H3).
  split; [lia|]. split; [exact H2|]. intros t. rewrite H3, HS. reflexivity.
Qed.

Lemma lastSpaceLen_inv s n :
  lastSpaceLen s = n -> (0 < n)%nat ->
  (n <= length s)%nat /\ Forall (fun b => b <> 0x3D) (drop (length s - n) s).
Proof.
  unfold lastSpaceLen. destruct (utf8.DecodeLastRune s) as [r size] eqn:HD.
  destruct (unicode.IsSpace r) eqn:HS; [|lia]. intros <- Hn.
  destruct (DecodeLastRune_space _ _ _ HD HS) as (H1 & H2).
  split; [lia|exact H2].
Qed.

Lemma SpaceRun_app a b : SpaceRun a -> SpaceRun b -> SpaceRun (a ++ b).
Proof.
  induction 1 as [|w rest Hw Hs Hr IH]; intros Hb; [exact Hb|].
  rewrite <- app_assoc. constructor; auto.
Qed.

Lemma SpaceRun_no_sep pre : SpaceRun pre -> Forall (fun b => b <> 0x3D) pre.
Proof.
  induction 1 as [|w rest Hw Hs Hr IH]; [constructor|].
  apply Forall_app. split; [|exact IH].
  destruct (spaceLen_inv (w ++ []) (length w) (Hs []) Hw) as (_ & H & _).
  rewrite app_nil_r in H. rewrite take_ge in H by lia. exact H.
Qed.

(** A prefix of a string that starts with no white space starts with
    none either. *)
Lemma spaceLen_prefix x rest : spaceLen (x ++ rest) = 0%nat -> spaceLen x = 0%nat.
Proof.
  intros H. destruct (spaceLen x) as [|n] eqn:E; [reflexivity|].
  destruct (spaceLen_inv x (S n) E ltac:(lia)) as (Hn & _ & Hall).
  specialize (Hall (drop (S n) x ++ rest)).
  rewrite app_assoc, take_drop in Hall. congruence.
Qed.

(** Appending ["="] and more never creates a leading white space. *)
Lemma spaceLen_app_sep k v : spaceLen k = 0%nat -> spaceLen (k ++ 0x3D :: v) = 0%nat.
Proof.
  intros H. destruct (spaceLen (k ++ 0x3D :: v)) as [|n] eqn:E; [reflexivity|].
  destruct (spaceLen_inv _ (S n) E ltac:(lia)) as (Hn & Hsep & Hall).
  assert (Hk : (S n <= length k)%nat).
  { destruct (le_lt_dec (S n) (length k)) as [|Hlt]; [assumption|exfalso].
    rewrite take_app_ge in Hsep by lia.
    apply Forall_app in Hsep as [_ Hsep].
    destruct (S n - length k)%nat as [|j] eqn:Ej; [lia|].
    simpl in Hsep. inversion Hsep; subst. congruence. }
  rewrite take_app_le in Hall by lia.
  specialize (Hall (drop (S n) k)). rewrite take_drop in Hall. congruence.
Qed.

Lemma trimLeftLoop_spec fuel s :
  exists pre, s = pre ++ trimLeftLoop fuel s /\ SpaceRun pre
              /\ ((length s <= fuel)%nat -> spaceLen (trimLeftLoop fuel s) = 0%nat).
Proof.
  revert s. induction fuel as [|f IH]; intros s.
  - exists []. simpl. split; [reflexivity|]. split; [constructor|].
    intros H. destruct s; [reflexivity|simpl in H; lia].
  - simpl. destruct (spaceLen s) as [|n] eqn:E.
    + exists []. split; [reflexivity|]. split; [constructor|]. intros _. exact E.
    + destruct (spaceLen_inv s (S n) E ltac:(lia)) as (Hn & _ & Hall).
      destruct (IH (drop (S n) s)) as (pre & Heq & Hrun & Hzero).
      exists (take (S n) s ++ pre). split; [|split].
      * rewrite <- app_assoc, <- Heq, take_drop. reflexivity.
      * constructor; [rewrite length_take; lia| |exact Hrun].
        intros t. rewrite Hall, length_take. lia.
      * intros Hf. apply Hzero. rewrite length_drop. lia.
Qed.

Lemma trimLeftLoop_run fuel pre x :
  SpaceRun pre -> spaceLen x = 0%nat -> (length (pre ++ x) <= fuel)%nat ->
  trimLeftLoop fuel (pre ++ x) = x.
Proof.
  intros Hrun. revert fuel. induction Hrun as [|w rest Hw Hs Hr IH]; intros fuel Hx Hf.
  - simpl. destruct fuel; simpl; [reflexivity|]. now rewrite Hx.
  - destruct fuel as [|f]; [rewrite !length_app in Hf; lia|].
    simpl. rewrite <- app_assoc, Hs.
    destruct (length w) as [|n] eqn:En; [lia|].
    rewrite <- En, drop_app_length. apply IH; [exact Hx|].
    rewrite !length_app in *. lia.
Qed.

(** [TrimLeftSpace] characterised: it drops a run of white space and
    leaves a string that starts with none. *)
Lemma TrimLeftSpace_spec s :
  exists pre, s = pre ++ TrimLeftSpace s /\ SpaceRun pre
              /\ spaceLen (TrimLeftSpace s) = 0%nat.
Proof.
  destruct (trimLeftLoop_spec (length s) s) as (pre & H1 & H2 & H3).
  exists pre. unfold TrimLeftSpace. auto.
Qed.

Lemma TrimLeftSpace_run pre x :
  SpaceRun pre -> spaceLen x = 0%nat -> TrimLeftSpace (pre ++ x) = x.
Proof. intros. unfold TrimLeftSpace. now apply trimLeftLoop_run. Qed.

Lemma TrimLeftSpace_fix x : spaceLen x = 0%nat -> TrimLeftSpace x = x.
Proof. intros H. apply (TrimLeftSpace_run [] x); [constructor|exact H]. Qed.

Lemma TrimLeftSpace_app_run pre y :
  SpaceRun pre -> TrimLeftSpace (pre ++ y) = TrimLeftSpace y.
Proof.
  intros Hrun. destruct (TrimLeftSpace_spec y) as (pre' & Heq & Hrun' & Hz).
  rewrite Heq at 1. rewrite app_assoc.
  apply TrimLeftSpace_run; [now apply SpaceRun_app|exact Hz].
Qed.

Lemma trimRightLoop_spec fuel s :
  exists post, s = trimRightLoop fuel s ++ post
               /\ Forall (fun b => b <> 0x3D) post
               /\ ((length s <= fuel)%nat -> lastSpaceLen (trimRightLoop fuel s) = 0%nat).
Proof.
  revert s. induction fuel as [|f IH]; intros s.
  - exists []. simpl. rewrite app_nil_r. split; [reflexivity|]. split; [constructor|].
    intros H. destruct s; [reflexivity|simpl in H; lia].
  - simpl. destruct (lastSpaceLen s) as [|n] eqn:E.
    + exists []. rewrite app_nil_r. split; [reflexivity|]. split; [constructor|].
      intros _. exact E.
    + destruct (lastSpaceLen_inv s (S n) E ltac:(lia)) as (Hn & Hsep).
      destruct (IH (take (length s - S n) s)) as (post & Heq & Hpost & Hzero).
      exists (post ++ drop (length s - S n) s). split; [|split].
      * rewrite app_assoc, <- Heq, take_drop. reflexivity.
      * apply Forall_app. split; assumption.
      * intros Hf. apply Hzero. rewrite length_take. lia.
Qed.

Lemma TrimRightSpace_spec s :
  exists post, s = TrimRightSpace s ++ post
               /\ Forall (fun b => b <> 0x3D) post
               /\ lastSpaceLen (TrimRightSpace s) = 0%nat.
Proof.
  destruct (trimRightLoop_spec (length s) s) as (post & H1 & H2 & H3).
  exists post. unfold TrimRightSpace. auto.
Qed.

Lemma TrimRightSpace_fix s : lastSpaceLen s = 0%nat -> TrimRightSpace s = s.
Proof.
  intros H. unfold TrimRightSpace. destruct (length s); simpl; [reflexivity|].
  now rewrite H.
Qed.

Lemma HasPrefix_spec s p : HasPrefix s p = true <-> exists t, s = p ++ t.
Proof.
  revert s. induction p as [|c p IH]; intros s; simpl.
  - split; [intros _; now exists s|reflexivity].
  - destruct s as [|b t]; simpl.
    + split; [discriminate|intros [t H]; discriminate].
    + rewrite andb_true_iff, Z.eqb_eq, IH. split.
      * intros [-> [u ->]]. now exists u.
      * intros [u H]. inversion H; subst. split; [reflexivity|now exists u].
Qed.

Lemma HasPrefix_app s t : HasPrefix (s ++ t) s = true.
Proof. apply HasPrefix_spec. now exists t. Qed.

Lemma TrimPrefix_app s t : TrimPrefix (s ++ t) s = t.
Proof. unfold TrimPrefix. now rewrite HasPrefix_app, drop_app_length. Qed.

Lemma TrimPrefix_spec s p : HasPrefix s p = true -> s = p ++ TrimPrefix s p.
Proof.
  intros H. apply HasPrefix_spec in H as [t ->]. now rewrite TrimPrefix_app.
Qed.

Lemma HasPrefix_one_app a b c : a <> [] -> HasPrefix (a ++ b) [c] = HasPrefix a [c].
Proof. destruct a; [congruence|reflexivity]. Qed.

Lemma Index_one_cons b t c :
  Index (b :: t) [c] =
  if b =? c then 0 else let i := Index t [c] in if i <? 0 then -1 else i + 1.
Proof. simpl. rewrite andb_true_r. reflexivity. Qed.

Lemma Index_one_nil c : Index [] [c] = -1.
Proof. reflexivity. Qed.

Lemma Index_one_range s c :
  Index s [c] = -1 \/ 0 <= Index s [c] < Z.of_nat (length s).
Proof.
  induction s as [|b t IH]; [now left|].
  rewrite Index_one_cons. destruct (b =? c); [right; simpl; lia|].
  cbv zeta. destruct (Index t [c] <? 0) eqn:E; [now left|].
  apply Z.ltb_ge in E. right. simpl length. lia.
Qed.

Lemma Index_one_none s c : Forall (fun b => b <> c) s -> Index s [c] = -1.
Proof.
  induction 1 as [|b t Hb Ht IH]; [reflexivity|].
  rewrite Index_one_cons. apply Z.eqb_neq in Hb. rewrite Hb. cbv zeta.
  now rewrite IH.
Qed.

Lemma Index_one_app s c t :
  Forall (fun b => b <> c) s -> Index (s ++ c :: t) [c] = Z.of_nat (length s).
Proof.
  induction 1 as [|b u Hb Hu IH].
  - simpl app. rewrite Index_one_cons, Z.eqb_refl. reflexivity.
  - simpl app. rewrite Index_one_cons. apply Z.eqb_neq in Hb. rewrite Hb.
    cbv zeta. rewrite IH.
    destruct (Z.of_nat (length u) <? 0) eqn:E; [lia|]. simpl length. lia.
Qed.

Lemma Index_one_split s c :
  Index s [c] <> -1 ->
  exists a b, s = a ++ c :: b /\ Forall (fun x => x <> c) a
              /\ Index s [c] = Z.of_nat (length a).
Proof.
  induction s as [|x t IH]; [intros H; now contradiction H|].
  rewrite Index_one_cons. destruct (x =? c) eqn:E.
  - intros _. apply Z.eqb_eq in E as ->. exists [], t. repeat split. constructor.
  - cbv zeta. destruct (Index t [c] <? 0) eqn:E2; [congruence|]. intros _.
    destruct IH as (a & b & -> & Ha & Hi).
    { destruct (Index_one_range t c); lia. }
    exists (x :: a), b. split; [reflexivity|]. split.
    + constructor; [now apply Z.eqb_neq|exact Ha].
    + simpl length. lia.
Qed.

Lemma Index_one_neg s c : Index s [c] = -1 -> Forall (fun b => b <> c) s.
Proof.
  induction s as [|x t IH]; [constructor|].
  rewrite Index_one_cons. destruct (x =? c) eqn:E; [discriminate|].
  cbv zeta. destruct (Index t [c] <? 0) eqn:E2.
  - intros _. constructor; [now apply Z.eqb_neq|]. apply IH.
    destruct (Index_one_range t c); lia.
  - destruct (Index_one_range t c); lia.
Qed.

(** White space stripped on either side holds no separator, so the
    first ["="] of a line is the first ["="] of what is between. *)
Lemma Index_sep_frame pre x post :
  NoSep pre -> NoSep post ->
  Index (pre ++ x ++ post) sepEq =
  if Index x sepEq =? -1 then -1 else Z.of_nat (length pre) + Index x sepEq.
Proof.
  intros Hpre Hpost. unfold sepEq. destruct (Index x [61] =? -1) eqn:E.
  - apply Z.eqb_eq, Index_one_neg in E. apply Index_one_none.
    repeat (apply Forall_app; split); assumption.
  - apply Z.eqb_neq in E. destruct (Index_one_split _ _ E) as (a & b & -> & Ha & ->).
    replace (pre ++ (a ++ 61 :: b) ++ post) with ((pre ++ a) ++ 61 :: (b ++ post))
      by (now rewrite <- !app_assoc).
    rewrite Index_one_app by (apply Forall_app; split; assumption).
    rewrite length_app. lia.
Qed.

(** [TrimSpace] takes a run of white space off the front and bytes other
    than ["="] off the back, and what is left starts and ends with no
    white space. *)
Lemma TrimSpace_spec s :
  exists pre post,
    s = pre ++ TrimSpace s ++ post /\ SpaceRun pre /\ NoSep post
    /\ spaceLen (TrimSpace s) = 0%nat /\ lastSpaceLen (TrimSpace s) = 0%nat.
Proof.
  destruct (TrimLeftSpace_spec s) as (pre & Hs & Hrun & Hz).
  destruct (TrimRightSpace_spec (TrimLeftSpace s)) as (post & Ht & Hpost & Hl).
  exists pre, post. unfold TrimSpace. split; [|split; [exact Hrun|]].
  - rewrite <- Ht. exact Hs.
  - split; [exact Hpost|]. split; [|exact Hl].
    rewrite Ht in Hz. now apply spaceLen_prefix in Hz.
Qed.

Lemma TrimSpace_fix s :
  spaceLen s = 0%nat -> lastSpaceLen s = 0%nat -> TrimSpace s = s.
Proof.
  intros H1 H2. unfold TrimSpace. rewrite TrimLeftSpace_fix by exact H1.
  now apply TrimRightSpace_fix.
Qed.

Lemma TrimSpace_idem s : TrimSpace (TrimSpace s) = TrimSpace s.
Proof.
  destruct (TrimSpace_spec s) as (pre & post & _ & _ & _ & H1 & H2).
  now apply TrimSpace_fix.
Qed.

Lemma TrimSpace_app_run pre y : SpaceRun pre -> TrimSpace (pre ++ y) = TrimSpace y.
Proof. intros H. unfold TrimSpace. now rewrite TrimLeftSpace_app_run. Qed.

Lemma TrimSpace_Forall (P : Z -> Prop) s : Forall P s -> Forall P (TrimSpace s).
Proof.
  destruct (TrimSpace_spec s) as (pre & post & Hs & _).
  intros H. rewrite Hs in H. apply Forall_app in H as [_ H].
  now apply Forall_app in H as [H _].
Qed.

(** Trimming on the right never reaches back over a separator. *)
Lemma TrimRightSpace_sep a b :
  exists b', TrimRightSpace (a ++ 0x3D :: b) = a ++ 0x3D :: b'.
Proof.
  destruct (TrimRightSpace_spec (a ++ 0x3D :: b)) as (post & Ht & Hpost & _).
  set (t := TrimRightSpace (a ++ 0x3D :: b)) in *.
  assert (Hlen : (length a < length t)%nat).
  { destruct (le_lt_dec (length t) (length a)) as [Hle|]; [exfalso|assumption].
    assert (Hd : drop (length t) (a ++ 61 :: b) = post)
      by (rewrite Ht; now rewrite drop_app_length).
    rewrite drop_app_le in Hd by lia. rewrite <- Hd in Hpost.
    apply Forall_app in Hpost as [_ Hpost]. inversion Hpost; congruence. }
  assert (Htk : take (length t) (a ++ 61 :: b) = t)
    by (rewrite Ht; now rewrite take_app_length).
  rewrite take_app_ge in Htk by lia.
  destruct (length t - length a)%nat as [|j] eqn:Ej; [lia|].
  simpl in Htk. exists (take j b). now rewrite <- Htk.
Qed.

(** A trimmed line with its first ["="] at a non-empty key starts with
    the key. *)
Lemma TrimSpace_key_prefix x y :
  TrimSpace x <> [] ->
  exists rest, TrimSpace (x ++ 0x3D :: y) = TrimSpace x ++ rest /\ rest <> [].
Proof.
  intros Hne.
  destruct (TrimLeftSpace_spec x) as (pre & Hx & Hrun & Hz).
  destruct (TrimRightSpace_spec (TrimLeftSpace x)) as (post & Ht & Hpost & _).
  fold (TrimSpace x) in Ht.
  assert (HL : TrimLeftSpace (x ++ 61 :: y) = TrimLeftSpace x ++ 61 :: y).
  { rewrite Hx at 1. rewrite <- app_assoc.
    apply TrimLeftSpace_run; [exact Hrun|]. now apply spaceLen_app_sep. }
  unfold TrimSpace at 1. rewrite HL.
  destruct (TrimRightSpace_sep (TrimLeftSpace x) y) as (b' & ->).
  exists (post ++ 61 :: b'). split; [|destruct post; discriminate].
  rewrite app_assoc. now rewrite <- Ht.
Qed.

End strings_facts.

Module bufio_facts.
Import strings strings_facts.

(** One turn of the scanner on an input that is not empty. *)
Lemma scanLoop_step f data :
  data <> [] ->
  bufio.scanLoop (S f) data =
  let i := Index data [0x0A] in
  if 0 <=? i then
    if bufio.MaxScanTokenSize <=? i then ([], Some bufio.ErrTooLong)
    else
      (bufio.dropCR (take (Z.to_nat i) data)
         :: fst (bufio.scanLoop f (drop (Z.to_nat (i + 1)) data)),
       snd (bufio.scanLoop f (drop (Z.to_nat (i + 1)) data)))
  else if bufio.MaxScanTokenSize <=? Z.of_nat (length data)
  then ([], Some bufio.ErrTooLong)
  else ([bufio.dropCR data], None).
Proof.
  intros H. destruct data as [|b rest]; [congruence|].
  cbn [bufio.scanLoop]. cbv zeta.
  destruct (0 <=? _); [|reflexivity]. destruct (_ <=? _); [reflexivity|].
  destruct (bufio.scanLoop f _). reflexivity.
Qed.

Lemma scanLoop_nil fuel : bufio.scanLoop fuel [] = ([], None).
Proof. destruct fuel; reflexivity. Qed.

Lemma Index_one_take s c :
  0 <= Index s [c] -> Forall (fun b => b <> c) (take (Z.to_nat (Index s [c])) s).
Proof.
  intros H. destruct (Index_one_split s c) as (x & y & Hs & Hx & Hi); [lia|].
  rewrite Hi, Nat2Z.id, Hs, take_app_length. exact Hx.
Qed.

Lemma dropCR_Forall (P : Z -> Prop) l : Forall P l -> Forall P (bufio.dropCR l).
Proof.
  intros H. unfold bufio.dropCR. destruct (_ && _); [|exact H].
  now apply Forall_take.
Qed.

Lemma dropCR_length l : (length (bufio.dropCR l) <= length l)%nat.
Proof.
  unfold bufio.dropCR. destruct (_ && _); [|lia]. rewrite length_take. lia.
Qed.

(** What holds of the input and of its parts holds of every token. *)
Lemma scanLoop_tokens (P : list Z -> Prop) fuel data :
  (forall l n, P l -> P (take n l)) -> (forall l n, P l -> P (drop n l)) ->
  (forall l, P l -> P (bufio.dropCR l)) ->
  P data -> Forall P (fst (bufio.scanLoop fuel data)).
Proof.
  intros Ht Hd Hc. revert data.
  induction fuel as [|f IH]; intros data H; [constructor|].
  destruct data as [|b rest] eqn:E; [constructor|]. rewrite <- E in *.
  rewrite scanLoop_step by (rewrite E; discriminate). cbv zeta.
  destruct (0 <=? _).
  - destruct (_ <=? _); [constructor|]. cbn [fst]. constructor; auto.
  - destruct (_ <=? _); [constructor|]. cbn [fst]. constructor; auto.
Qed.

(** No token holds a newline. *)
Lemma scanLoop_no_newline fuel data :
  Forall (Forall (fun b => b <> 0x0A)) (fst (bufio.scanLoop fuel data)).
Proof.
  revert data. induction fuel as [|f IH]; intros data; [constructor|].
  destruct data as [|b rest] eqn:E; [constructor|]. rewrite <- E in *.
  rewrite scanLoop_step by (rewrite E; discriminate). cbv zeta.
  destruct (Z.leb_spec 0 (Index data [10])) as [Hi|Hi].
  - destruct (_ <=? _); [constructor|]. cbn [fst].
    constructor; [|apply IH]. now apply dropCR_Forall, Index_one_take.
  - destruct (_ <=? _); [constructor|]. cbn [fst].
    constructor; [|constructor]. apply dropCR_Forall, Index_one_neg.
    destruct (Index_one_range data 10); lia.
Qed.

(** Every token is shorter than the buffer. *)
Lemma scanLoop_short fuel data :
  Forall (fun t => Z.of_nat (length t) < bufio.MaxScanTokenSize)
    (fst (bufio.scanLoop fuel data)).
Proof.
  revert data. induction fuel as [|f IH]; intros data; [constructor|].
  destruct data as [|b rest] eqn:E; [constructor|]. rewrite <- E in *.
  rewrite scanLoop_step by (rewrite E; discriminate). cbv zeta.
  destruct (Z.leb_spec 0 (Index data [10])) as [Hi|Hi].
  - destruct (Z.leb_spec bufio.MaxScanTokenSize (Index data [10]));
      [constructor|]. cbn [fst]. constructor; [|apply IH].
    pose proof (dropCR_length (take (Z.to_nat (Index data [10])) data)).
    rewrite length_take in H0. lia.
  - destruct (Z.leb_spec bufio.MaxScanTokenSize (Z.of_nat (length data)));
      [constructor|]. cbn [fst]. constructor; [|constructor].
    pose proof (dropCR_length data). lia.
Qed.

Lemma Index_one_app_ge s c t :
  Forall (fun b => b <> c) s ->
  Index (s ++ t) [c] = -1 \/ Z.of_nat (length s) <= Index (s ++ t) [c].
Proof.
  induction 1 as [|b u Hb Hu IH].
  - simpl app. destruct (Index_one_range t c); [now left|right; simpl; lia].
  - simpl app. rewrite Index_one_cons. apply Z.eqb_neq in Hb. rewrite Hb.
    cbv zeta. destruct (Z.ltb_spec (Index (u ++ t) [c]) 0); [now left|].
    right. simpl length. lia.
Qed.

(** A line that fills the buffer stops the scanner, whatever follows. *)
Lemma scanLoop_overlong long rest f :
  Forall (fun b => b <> 0x0A) long ->
  bufio.MaxScanTokenSize <= Z.of_nat (length long) ->
  bufio.scanLoop (S f) (long ++ rest) = ([], Some bufio.ErrTooLong).
Proof.
  intros Hn Hl.
  assert (Hne : long ++ rest <> []).
  { destruct long; [simpl in Hl; unfold bufio.MaxScanTokenSize in Hl; lia|].
    discriminate. }
  rewrite scanLoop_step by exact Hne. cbv zeta.
  destruct (Index_one_app_ge long 10 rest Hn) as [Hi|Hi].
  - rewrite Hi. change (0 <=? -1) with false. cbv iota.
    destruct (Z.leb_spec bufio.MaxScanTokenSize (Z.of_nat (length (long ++ rest))));
      [reflexivity|]. rewrite length_app in *. lia.
  - destruct (Z.leb_spec 0 (Index (long ++ rest) [10]));
      [|unfold bufio.MaxScanTokenSize in *; lia].
    destruct (Z.leb_spec bufio.MaxScanTokenSize (Index (long ++ rest) [10]));
      [reflexivity|lia].
Qed.

End bufio_facts.

(* ===================================================================== *)
(** * The translation processor *)
(* ===================================================================== *)

Module Processor_facts.
Import strings strings_facts Processor.

Lemma isEmpty_true s : isEmpty s = true <-> s = [].
Proof. destruct s; simpl; split; congruence. Qed.

Lemma isEmpty_false s : isEmpty s = false <-> s <> [].
Proof. destruct s; simpl; split; congruence. Qed.

(** [processLine] by the exit it takes. *)
Lemma processLine_classify line m st :
  processLine line m st =
  match classify line with
  | ClassBlank | ClassComment => (line, incSkipped st)
  | ClassNoSeparator | ClassEmptyKey => (line, incUnchanged st)
  | ClassValid key =>
    match m !! key with
    | Some translatedValue => (key ++ sepEq ++ translatedValue, incTranslated st)
    | None => (line, incUnchanged (incNotFound st))
    end
  end.
Proof.
  unfold processLine, classify.
  destruct (isEmpty (TrimSpace line)); cbn [orb]; [reflexivity|].
  destruct (HasPrefix (TrimSpace line) hash || HasPrefix (TrimSpace line) semicolon);
    [reflexivity|].
  destruct (Index line sepEq =? -1); [reflexivity|].
  destruct (isEmpty (TrimSpace (take (Z.to_nat (Index line sepEq)) line)));
    reflexivity.
Qed.

Lemma processLine_fst line m st : fst (processLine line m st) = processed m line.
Proof.
  unfold processed. rewrite !processLine_classify.
  destruct (classify line); try reflexivity. destruct (m !! l); reflexivity.
Qed.

Lemma isEmptyOrComment_classify line :
  isEmptyOrComment line =
  match classify line with ClassBlank | ClassComment => true | _ => false end.
Proof.
  unfold isEmptyOrComment, classify.
  destruct (isEmpty (TrimSpace line)); cbn [orb]; [reflexivity|].
  destruct (HasPrefix (TrimSpace line) hash || HasPrefix (TrimSpace line) semicolon);
    [reflexivity|].
  destruct (Index line sepEq =? -1); [reflexivity|].
  destruct (isEmpty (TrimSpace (take (Z.to_nat (Index line sepEq)) line)));
    reflexivity.
Qed.

(** What a line with a key looks like. *)
Lemma classify_valid_inv line key :
  classify line = ClassValid key ->
  exists x y, line = x ++ 0x3D :: y /\ NoSep x /\ key = TrimSpace x /\ key <> []
    /\ HasPrefix (TrimSpace line) hash = false
    /\ HasPrefix (TrimSpace line) semicolon = false.
Proof.
  unfold classify.
  destruct (isEmpty (TrimSpace line)); [discriminate|].
  destruct (HasPrefix (TrimSpace line) hash) eqn:Hh; [discriminate|].
  destruct (HasPrefix (TrimSpace line) semicolon) eqn:Hs; [discriminate|]. cbn [orb].
  destruct (Index line sepEq =? -1) eqn:Hi; [discriminate|].
  apply Z.eqb_neq in Hi. unfold sepEq in *.
  destruct (Index_one_split _ _ Hi) as (x & y & Hl & Hx & Hidx).
  rewrite Hidx, Nat2Z.id.
  assert (Htk : take (length x) line = x) by (rewrite Hl; apply take_app_length).
  rewrite Htk.
  destruct (isEmpty (TrimSpace x)) eqn:He; [discriminate|].
  intros H. inversion H; subst key. exists x, y.
  apply isEmpty_false in He. repeat split; auto.
Qed.

(** The line written for a matched key is read again as the same key. *)
Lemma classify_output line key v :
  classify line = ClassValid key ->
  classify (key ++ sepEq ++ v) = ClassValid key.
Proof.
  intros H. destruct (classify_valid_inv _ _ H) as (x & y & Hl & Hx & Hk & Hne & Hh & Hs).
  destruct (TrimSpace_key_prefix x y) as (rest & Ht & Hrest); [congruence|].
  rewrite <- Hl, <- Hk in Ht. unfold hash, semicolon in *.
  rewrite Ht in Hh, Hs. rewrite HasPrefix_one_app in Hh, Hs by assumption.
  assert (Hkk : TrimSpace key = key) by (subst key; apply TrimSpace_idem).
  assert (Hsep : NoSep key) by (subst key; now apply TrimSpace_Forall).
  destruct (TrimSpace_key_prefix key v) as (rest' & Ht' & Hrest'); [congruence|].
  rewrite Hkk in Ht'.
  unfold classify, hash, semicolon. simpl app. unfold sepEq. rewrite Ht'.
  destruct (key ++ rest') eqn:E; [apply app_nil in E as [? _]; congruence|].
  rewrite <- E.
  simpl isEmpty. rewrite !HasPrefix_one_app by assumption.
  rewrite Hh, Hs. cbn [orb].
  rewrite Index_one_app by assumption.
  destruct (Z.of_nat (length key) =? -1) eqn:E2; [apply Z.eqb_eq in E2; lia|].
  rewrite Nat2Z.id, take_app_length, Hkk.
  destruct key; [congruence|reflexivity].
Qed.

Lemma processed_classify m line :
  processed m line =
  match classify line with
  | ClassValid key =>
    match m !! key with
    | Some translatedValue => key ++ sepEq ++ translatedValue
    | None => line
    end
  | _ => line
  end.
Proof.
  unfold processed. rewrite processLine_classify.
  destruct (classify line); try reflexivity. destruct (m !! l); reflexivity.
Qed.

(** [processLine] maps its own result to itself. *)
Lemma processed_idem m line : processed m (processed m line) = processed m line.
Proof.
  rewrite (processed_classify m line).
  destruct (classify line) eqn:C; try (rewrite processed_classify, C; reflexivity).
  destruct (m !! l) eqn:L; [|rewrite processed_classify, C, L; reflexivity].
  rewrite processed_classify, (classify_output _ _ _ C), L. reflexivity.
Qed.

(** The loop after line 1: every line goes through [processLine]. *)
Lemma translate_fold_later m lines st :
  1 <= lineNumber st ->
  written (fold_left (translateStep m) lines st)
  = written st ++ map (processed m) lines.
Proof.
  revert st. induction lines as [|l ls IH]; intros st Hn; simpl.
  - now rewrite app_nil_r.
  - assert (Hs : translateStep m st l =
                 mkLoop (lineNumber st + 1)
                   (snd (processLine l m (incTotalLines (stats st))))
                   (written st ++ [processed m l])).
    { unfold translateStep. destruct (lineNumber st + 1 =? 1) eqn:E; [lia|].
      simpl. rewrite <- (processLine_fst l m (incTotalLines (stats st))).
      destruct (processLine l m (incTotalLines (stats st))); reflexivity. }
    rewrite Hs, IH by (simpl; lia). simpl. now rewrite <- app_assoc.
Qed.

Lemma translateFile_cons m l ls :
  translateFile (l :: ls) m = firstRecord m l :: map (processed m) ls.
Proof.
  unfold translateFile, translateLoop. simpl fold_left.
  assert (Hs : translateStep m translateInit l =
               mkLoop 1 (snd (processLine (lineBody 1 l) m
                                (incTotalLines (mkStats 0 0 0 0 0))))
                        [firstRecord m l]).
  { unfold translateStep, firstRecord, lineBody, translateInit.
    cbn [lineNumber stats written]. change (0 + 1 =? 1) with true.
    change (1 =? 1) with true. cbn [andb app].
    destruct (HasPrefix l BOM).
    - rewrite <- (processLine_fst _ m (incTotalLines (mkStats 0 0 0 0 0))).
      destruct (processLine _ m _); reflexivity.
    - rewrite <- (processLine_fst _ m (incTotalLines (mkStats 0 0 0 0 0))).
      destruct (processLine _ m _); reflexivity. }
  rewrite Hs, translate_fold_later by (simpl; lia). reflexivity.
Qed.

Lemma translateFile_nil m : translateFile [] m = [].
Proof. reflexivity. Qed.


Lemma translateFile_length lines m :
  length (translateFile lines m) = length lines.
Proof.
  destruct lines as [|l ls]; [reflexivity|].
  rewrite translateFile_cons. simpl. now rewrite length_map.
Qed.

(** One turn of the loop: the statistics after it are those
    [processLine] leaves for the content of the line. *)
Lemma translateStep_stats m st line :
  stats (translateStep m st line)
  = snd (processLine (lineBody (lineNumber st + 1) line) m
           (incTotalLines (stats st))).
Proof.
  unfold translateStep, lineBody.
  destruct ((lineNumber st + 1 =? 1) && HasPrefix line BOM);
    destruct (processLine _ m _); reflexivity.
Qed.

Lemma processLine_invariant line m s :
  statsInvariant s -> statsInvariant (snd (processLine line m (incTotalLines s))).
Proof.
  unfold statsInvariant. intros [H1 H2]. rewrite processLine_classify.
  destruct (classify line); try destruct (m !! l); simpl; lia.
Qed.

Lemma translate_fold_invariant m lines st :
  statsInvariant (stats st) ->
  statsInvariant (stats (fold_left (translateStep m) lines st)).
Proof.
  revert st. induction lines as [|l ls IH]; intros st H; [exact H|].
  simpl. apply IH. rewrite translateStep_stats. now apply processLine_invariant.
Qed.

Lemma translate_fold_within m lines st n :
  statsWithin n (stats st) ->
  statsWithin (n + Z.of_nat (length lines))
    (stats (fold_left (translateStep m) lines st)).
Proof.
  revert st n. induction lines as [|l ls IH]; intros st n H.
  - simpl. now rewrite Z.add_0_r.
  - simpl fold_left. replace (n + Z.of_nat (length (l :: ls)))
      with ((n + 1) + Z.of_nat (length ls)) by (simpl length; lia).
    apply IH. rewrite translateStep_stats, processLine_classify.
    unfold statsWithin in *.
    destruct (classify _); try destruct (m !! l0); simpl; lia.
Qed.

(** The counters never leave [0, number of lines]: the Go [int]s
    cannot overflow on a file of fewer than [2^63] lines. *)
Lemma stats_bounded lines m :
  statsWithin (Z.of_nat (length lines)) (translateStats lines m).
Proof.
  unfold translateStats, translateLoop.
  apply (translate_fold_within m lines translateInit 0).
  unfold statsWithin. simpl. lia.
Qed.

(** C4: after every per-line update of the substitution pass, that is
    after any number [k] of lines of any input and for any map, the
    statistics satisfy [total = translated + unchanged + skipped], and
    the not-found count is a sub-count of the unchanged count. *)
Theorem stats_identity (m : gmap (list Z) (list Z)) (lines : list (list Z))
    (k : nat) :
  let s := translateStats (take k lines) m in
  TotalLines s = Translated s + Unchanged s + Skipped s
  /\ 0 <= NotFound s <= Unchanged s.
Proof.
  cbv zeta. unfold translateStats, translateLoop.
  apply (translate_fold_invariant m (take k lines) translateInit).
  unfold statsInvariant. simpl. lia.
Qed.

(** The loop on a prefix of the input is the loop interrupted there. *)
Lemma translateLoop_prefix m lines k :
  fold_left (translateStep m) lines translateInit
  = fold_left (translateStep m) (drop k lines) (translateLoop (take k lines) m).
Proof.
  unfold translateLoop. rewrite <- fold_left_app, take_drop. reflexivity.
Qed.

(** C5: on the line [" K1 = V1"] with the map [{K1: X1}] the pass
    writes ["K1=X1"]: the text before the value, [" K1 ="], is rewritten
    to ["K1="] along with the value. *)
Theorem spacing_rewritten :
  translateFile [paddedLine] mapK1 = [bytes "K1=X1"]
  /\ beforeValue paddedLine = bytes " K1 ="
  /\ beforeValue (bytes "K1=X1") = bytes "K1="
  /\ beforeValue paddedLine <> beforeValue (bytes "K1=X1").
Proof. vm_compute. repeat split; discriminate. Qed.

(** The record written for the line at index [i] of the input. *)
Lemma translateFile_lookup lines m (i : nat) line :
  lines !! i = Some line ->
  translateFile lines m !! i
  = Some (if (i =? 0)%nat then firstRecord m line else processed m line).
Proof.
  destruct lines as [|l ls]; [discriminate|]. rewrite translateFile_cons.
  destruct i as [|j]; simpl.
  - intros H. now inversion H.
  - intros H. rewrite list_lookup_fmap, H. reflexivity.
Qed.

Lemma firstRecord_body m line :
  firstRecord m line
  = (if HasPrefix line BOM then BOM else []) ++ processed m (lineBody 1 line).
Proof.
  unfold firstRecord, lineBody. change (1 =? 1) with true. cbn [andb].
  destruct (HasPrefix line BOM); reflexivity.
Qed.

(** Lines whose content is not a key of the map are written back as
    they were read, byte-order-mark included. *)
Lemma translateFile_unchanged lines m (i : nat) line :
  lines !! i = Some line ->
  (forall key, classify (lineBody (Z.of_nat i + 1) line) = ClassValid key ->
               m !! key = None) ->
  translateFile lines m !! i = Some line.
Proof.
  intros Hl Hc. rewrite (translateFile_lookup _ _ _ _ Hl). f_equal.
  destruct i as [|j]; cbn [Nat.eqb].
  - rewrite firstRecord_body. change (Z.of_nat 0 + 1) with 1 in Hc.
    assert (Hp : processed m (lineBody 1 line) = lineBody 1 line).
    { rewrite processed_classify. destruct (classify _) eqn:C; try reflexivity.
      now rewrite (Hc _ eq_refl). }
    rewrite Hp. unfold lineBody. change (1 =? 1) with true. cbn [andb].
    destruct (HasPrefix line BOM) eqn:E; [|reflexivity].
    symmetry. now apply TrimPrefix_spec.
  - assert (Hb : lineBody (Z.of_nat (S j) + 1) line = line).
    { unfold lineBody. destruct (Z.of_nat (S j) + 1 =? 1) eqn:E;
        [apply Z.eqb_eq in E; lia|reflexivity]. }
    rewrite Hb in Hc. rewrite processed_classify.
    destruct (classify line) eqn:C; try reflexivity. now rewrite (Hc _ eq_refl).
Qed.

(** A second pass over the records of a first pass writes them again,
    when line 1 came out of the first pass with a byte-order-mark only
    if it went in with one. *)
Lemma translate_twice lines m :
  firstLineStable lines m = true ->
  translateFile (translateFile lines m) m = translateFile lines m.
Proof.
  destruct lines as [|l ls]; [reflexivity|]. intros Hst.
  rewrite !translateFile_cons. f_equal.
  - unfold firstLineStable in Hst. unfold firstRecord at 2 3.
    destruct (HasPrefix l BOM) eqn:E.
    + unfold firstRecord. rewrite HasPrefix_app, TrimPrefix_app.
      now rewrite processed_idem.
    + cbn [orb] in Hst. apply negb_true_iff in Hst.
      unfold firstRecord. rewrite Hst. apply processed_idem.
  - rewrite map_map. apply map_ext. intros a. apply processed_idem.
Qed.

(** When no key of the map starts with the byte-order-mark, the first
    pass cannot bring one to the start of line 1. *)
Lemma firstLineStable_keys lines m :
  (forall key v, m !! key = Some v -> HasPrefix key BOM = false) ->
  firstLineStable lines m = true.
Proof.
  intros Hk. destruct lines as [|l ls]; [reflexivity|]. unfold firstLineStable.
  destruct (HasPrefix l BOM) eqn:E; [reflexivity|]. cbn [orb].
  apply negb_true_iff. rewrite processed_classify.
  destruct (classify l) eqn:C; try exact E.
  destruct (m !! l0) eqn:L; [|exact E].
  destruct (classify_valid_inv _ _ C) as (_ & _ & _ & _ & _ & Hne & _).
  specialize (Hk _ _ L).
  destruct (HasPrefix (l0 ++ sepEq ++ l1) BOM) eqn:E2; [|reflexivity].
  apply HasPrefix_spec in E2 as [t Ht].
  assert (Hn : HasPrefix l0 BOM = true); [|congruence].
  unfold BOM, sepEq in *.
  destruct l0 as [|a [|b [|c k]]]; simpl in Ht; inversion Ht; subst;
    try congruence.
  apply HasPrefix_spec. now exists k.
Qed.

(** C7: when line 1 begins with the byte-order-mark, the record written
    for line 1 is the mark followed by what [processLine] returns for
    the rest of the line, whatever that line is. *)
Theorem bom_reprepended (m : gmap (list Z) (list Z)) (line : list Z)
    (rest : list (list Z)) :
  HasPrefix line BOM = true ->
  translateFile (line :: rest) m !! 0%nat
  = Some (BOM ++ processed m (TrimPrefix line BOM)).
Proof.
  intros H. rewrite translateFile_cons. unfold firstRecord. now rewrite H.
Qed.

(** An instance: the translated first line keeps its mark. *)
Lemma bom_reprepended_witness :
  translateFile ((BOM ++ bytes "K1=V1") :: [bytes "K2=V2"]) mapK1 !! 0%nat
  = Some (BOM ++ bytes "K1=X1").
Proof.
  change (BOM ++ bytes "K1=X1")
    with (BOM ++ processed mapK1 (TrimPrefix (BOM ++ bytes "K1=V1") BOM)).
  apply bom_reprepended. vm_compute. reflexivity.
Defined.

(** C8: a line whose content is neither blank nor a comment and holds
    no ["="] is written back as it was read, and the turn of the loop
    adds one to the total and one to the unchanged counter and leaves
    the other counters, the skipped one included, as they were. *)
Theorem malformed_unchanged (m : gmap (list Z) (list Z)) (st : LoopState)
    (line : list Z) :
  isEmptyOrComment (lineBody (lineNumber st + 1) line) = false ->
  Index (lineBody (lineNumber st + 1) line) sepEq = -1 ->
  translateStep m st line
  = mkLoop (lineNumber st + 1)
      (mkStats (TotalLines (stats st) + 1) (Translated (stats st))
         (Unchanged (stats st) + 1) (Skipped (stats st)) (NotFound (stats st)))
      (written st ++ [line]).
Proof.
  intros Hc Hi.
  assert (Hp : forall s, processLine (lineBody (lineNumber st + 1) line) m s
                         = (lineBody (lineNumber st + 1) line, incUnchanged s)).
  { intros s. rewrite processLine_classify.
    rewrite isEmptyOrComment_classify in Hc. unfold classify in *.
    rewrite Hi in *. change (-1 =? -1) with true in *. cbv iota in *.
    destruct (isEmpty _); [discriminate|].
    destruct (_ || _); [discriminate|reflexivity]. }
  unfold translateStep. unfold lineBody in Hp.
  destruct ((lineNumber st + 1 =? 1) && HasPrefix line BOM) eqn:E.
  - rewrite Hp. apply andb_true_iff in E as [_ E].
    rewrite <- (TrimPrefix_spec _ _ E). reflexivity.
  - rewrite Hp. reflexivity.
Qed.

(** An instance: the line ["no_equals_here"] as line 1. *)
Lemma malformed_unchanged_witness :
  translateStep mapK1 translateInit (bytes "no_equals_here")
  = mkLoop 1 (mkStats 1 0 1 0 0) [bytes "no_equals_here"].
Proof.
  apply (malformed_unchanged mapK1 translateInit (bytes "no_equals_here"));
    vm_compute; reflexivity.
Defined.

End Processor_facts.

(* ===================================================================== *)
(** * The extractor, and its agreement with the processor *)
(* ===================================================================== *)

Module Extractor_facts.
Import strings strings_facts Extractor.

(** The body of the loop of [parseINIFile] by the exit it takes. *)
Lemma parseStep_classify st line :
  parseStep st line =
  let n := lineNumber st + 1 in
  let trimmed := TrimSpace (lineBody n line) in
  match classify (lineBody n line) with
  | ClassBlank | ClassComment => mkParse n (entries st) (warnings st)
  | ClassNoSeparator =>
    mkParse n (entries st) (warnings st ++ [NoSeparator n trimmed])
  | ClassEmptyKey => mkParse n (entries st) (warnings st ++ [EmptyKey n])
  | ClassValid key =>
    let value :=
      TrimSpace (drop (Z.to_nat (Index trimmed sepEq + 1)) trimmed) in
    mkParse n (<[key := value]> (entries st)) (warnings st)
  end.
Proof.
  unfold parseStep, classify. fold (lineBody (lineNumber st + 1) line).
  cbv zeta.
  destruct (isEmpty (TrimSpace (lineBody (lineNumber st + 1) line)));
    cbn [orb]; [reflexivity|].
  destruct (HasPrefix _ hash || HasPrefix _ semicolon); [reflexivity|].
  destruct (Index _ sepEq =? -1); [reflexivity|].
  destruct (isEmpty (TrimSpace (take _ _))); reflexivity.
Qed.

(** The map after one more line: the entry of the line, if it has one,
    is stored over what the map held. *)
Lemma parseStep_entries st line :
  entries (parseStep st line) =
  match lineEntry (lineNumber st + 1) line with
  | Some (key, value) => <[key := value]> (entries st)
  | None => entries st
  end.
Proof.
  unfold parseStep, lineEntry. fold (lineBody (lineNumber st + 1) line).
  cbv zeta.
  destruct (isEmpty (TrimSpace (lineBody (lineNumber st + 1) line))
            || HasPrefix _ hash || HasPrefix _ semicolon); [reflexivity|].
  destruct (Index _ sepEq =? -1); [reflexivity|].
  destruct (isEmpty (TrimSpace (take _ _))); reflexivity.
Qed.

Lemma parseStep_lineNumber st line :
  lineNumber (parseStep st line) = lineNumber st + 1.
Proof.
  rewrite parseStep_classify. cbv zeta.
  destruct (classify _); reflexivity.
Qed.

Lemma parse_fold_lineNumber lines st :
  lineNumber (fold_left parseStep lines st)
  = lineNumber st + Z.of_nat (length lines).
Proof.
  revert st. induction lines as [|l ls IH]; intros st; simpl fold_left.
  - simpl. lia.
  - rewrite IH, parseStep_lineNumber. simpl length. lia.
Qed.

(** Lines that store no entry for [key] leave its binding alone. *)
Lemma parse_fold_other lines st key :
  (forall (j : nat) l, lines !! j = Some l ->
     fst <$> lineEntry (lineNumber st + 1 + Z.of_nat j) l <> Some key) ->
  entries (fold_left parseStep lines st) !! key = entries st !! key.
Proof.
  revert st. induction lines as [|l ls IH]; intros st H; [reflexivity|].
  simpl fold_left. rewrite IH.
  - rewrite parseStep_entries. specialize (H 0%nat l eq_refl).
    rewrite Z.add_0_r in H.
    destruct (lineEntry (lineNumber st + 1) l) as [[k v]|]; [|reflexivity].
    simpl in H. apply lookup_insert_ne. congruence.
  - intros j l' Hj. rewrite parseStep_lineNumber.
    specialize (H (S j) l' Hj).
    replace (lineNumber st + 1 + 1 + Z.of_nat j)
      with (lineNumber st + 1 + Z.of_nat (S j)) by lia.
    exact H.
Qed.

(** C9: the map built from a sequence of lines binds a key to the value
    of its last occurrence: if a line stores [(key, value)] and no
    later line stores an entry for [key], the map returned holds
    [value] for [key], whatever the earlier lines stored. *)
Theorem last_write_wins (before after : list (list Z)) (line key value : list Z) :
  lineEntry (Z.of_nat (length before) + 1) line = Some (key, value) ->
  (forall (j : nat) l, after !! j = Some l ->
     fst <$> lineEntry (Z.of_nat (length before) + 2 + Z.of_nat j) l
     <> Some key) ->
  parseINIFile (before ++ line :: after) !! key = Some value.
Proof.
  intros Hline Hafter. unfold parseINIFile, parseLoop.
  rewrite fold_left_app. simpl fold_left.
  set (st := fold_left parseStep before parseInit).
  assert (Hn : lineNumber st = Z.of_nat (length before)).
  { subst st. rewrite parse_fold_lineNumber. reflexivity. }
  rewrite parse_fold_other.
  - rewrite parseStep_entries, Hn, Hline. apply lookup_insert_eq.
  - intros j l Hj. rewrite parseStep_lineNumber, Hn.
    replace (Z.of_nat (length before) + 1 + 1 + Z.of_nat j)
      with (Z.of_nat (length before) + 2 + Z.of_nat j) by lia.
    now apply Hafter.
Qed.

(** An instance: the key ["a"] occurs on lines 1 and 3, and in a comment
    on line 5. *)
Lemma last_write_wins_witness :
  parseINIFile ([bytes "a=1"; bytes "b=2"] ++ bytes " a = 3 " :: [bytes "b=4"; bytes "# a=5"])
    !! bytes "a" = Some (bytes "3").
Proof.
  apply last_write_wins.
  - vm_compute. reflexivity.
  - intros [|[|[|j]]] l H; simpl in H; inversion H; subst; vm_compute; discriminate.
Defined.

(** The exits of the two loop bodies are the same on every line,
    although one searches the ["="] in the trimmed line and the other
    in the raw line: [TrimSpace] takes off white space only, and no
    white space rune holds the byte ["="]. *)
Lemma classify_agree (line : list Z) :
  Extractor.classify line = Processor.classify line.
Proof.
  unfold classify, Processor.classify.
  destruct (TrimSpace_spec line) as (pre & post & Hl & Hrun & Hpost & _).
  remember (TrimSpace line) as t eqn:Ht.
  destruct (isEmpty t); [reflexivity|].
  destruct (HasPrefix t hash || HasPrefix t semicolon); [reflexivity|].
  assert (Hpre := SpaceRun_no_sep _ Hrun).
  rewrite Hl. rewrite Index_sep_frame by assumption.
  destruct (Index t sepEq =? -1) eqn:Ei; [reflexivity|].
  apply Z.eqb_neq in Ei. unfold sepEq in *.
  destruct (Index_one_range t 61) as [|Hr]; [contradiction|].
  destruct (_ + _ =? -1) eqn:E2; [apply Z.eqb_eq in E2; lia|].
  replace (Z.to_nat (Z.of_nat (length pre) + Index t [61]))
    with (length pre + Z.to_nat (Index t [61%Z]))%nat by lia.
  rewrite take_app_add', take_app_le by lia.
  rewrite TrimSpace_app_run by assumption. reflexivity.
Qed.

(** What each exit of [processLine] says of the line. *)
Lemma classify_cases line :
  match Processor.classify line with
  | ClassBlank => TrimSpace line = []
  | ClassComment =>
    TrimSpace line <> []
    /\ (HasPrefix (TrimSpace line) hash || HasPrefix (TrimSpace line) semicolon)
       = true
  | ClassNoSeparator =>
    TrimSpace line <> [] /\ Index line sepEq = -1
  | ClassEmptyKey =>
    Index line sepEq <> -1
    /\ TrimSpace (take (Z.to_nat (Index line sepEq)) line) = []
  | ClassValid key =>
    key = TrimSpace (take (Z.to_nat (Index line sepEq)) line) /\ key <> []
  end.
Proof.
  unfold Processor.classify.
  destruct (isEmpty (TrimSpace line)) eqn:E1.
  { now apply Processor_facts.isEmpty_true. }
  apply Processor_facts.isEmpty_false in E1.
  destruct (HasPrefix _ hash || HasPrefix _ semicolon) eqn:E2; [now split|].
  destruct (Z.eqb_spec (Index line sepEq) (-1)) as [E3|E3]; [now split|].
  destruct (isEmpty (TrimSpace (take _ _))) eqn:E4.
  - split; [exact E3|]. now apply Processor_facts.isEmpty_true.
  - split; [reflexivity|]. now apply Processor_facts.isEmpty_false.
Qed.

(** C10: on every line the body of the loop of [parseINIFile]
    ([parseStep]) and [processLine] take the same one of five exits.
    [body] is the line after the byte-order-mark test of line 1, which
    both programs make before they parse.  Blank line and comment:
    [parseStep] goes on to the next line without a warning and stores
    nothing, [processLine] returns the line and counts it as skipped.
    No separator and empty key: [parseStep] prints its warning and
    stores nothing, [processLine] returns the line and counts it as
    unchanged.  Line with a key: [parseStep] stores an entry for the
    key [processLine] looks up in the map; this key is the trimmed
    text before the first ["="] of the raw line, as [processLine]
    computes it, and of the trimmed line, as [parseINIFile] does. *)
Theorem parsers_agree (line : list Z) (st : ParseState)
    (m : gmap (list Z) (list Z)) (s : Processor.TranslationStats) :
  let n := lineNumber st + 1 in
  let body := lineBody n line in
  let trimmed := TrimSpace body in
  (trimmed = []
   /\ parseStep st line = mkParse n (entries st) (warnings st)
   /\ Processor.processLine body m s = (body, Processor.incSkipped s))
  \/ (trimmed <> []
      /\ (HasPrefix trimmed hash || HasPrefix trimmed semicolon) = true
      /\ parseStep st line = mkParse n (entries st) (warnings st)
      /\ Processor.processLine body m s = (body, Processor.incSkipped s))
  \/ (Index body sepEq = -1
      /\ parseStep st line
         = mkParse n (entries st) (warnings st ++ [NoSeparator n trimmed])
      /\ Processor.processLine body m s = (body, Processor.incUnchanged s))
  \/ (Index body sepEq <> -1
      /\ parseStep st line
         = mkParse n (entries st) (warnings st ++ [EmptyKey n])
      /\ Processor.processLine body m s = (body, Processor.incUnchanged s))
  \/ (exists key value,
        key <> []
        /\ key = TrimSpace (take (Z.to_nat (Index body sepEq)) body)
        /\ key = TrimSpace (take (Z.to_nat (Index trimmed sepEq)) trimmed)
        /\ parseStep st line
           = mkParse n (<[key := value]> (entries st)) (warnings st)
        /\ Processor.processLine body m s
           = match m !! key with
             | Some translatedValue =>
               (key ++ sepEq ++ translatedValue, Processor.incTranslated s)
             | None =>
               (body, Processor.incUnchanged (Processor.incNotFound s))
             end).
Proof.
  cbv zeta. set (n := lineNumber st + 1). set (body := lineBody n line).
  pose proof (classify_cases body) as Hc.
  pose proof (classify_agree body) as Ha.
  rewrite parseStep_classify, Processor_facts.processLine_classify. cbv zeta.
  fold n. fold body. rewrite Ha.
  destruct (Processor.classify body) as [| | | |key] eqn:C.
  - left. auto.
  - right; left. destruct Hc. auto.
  - right; right; left. destruct Hc. auto.
  - right; right; right; left. destruct Hc. auto.
  - right; right; right; right. destruct Hc as [Hk Hne].
    eexists key, _. split; [exact Hne|]. split; [exact Hk|].
    split; [|split; reflexivity].
    unfold classify in Ha.
    destruct (isEmpty (TrimSpace body)); [discriminate|].
    destruct (HasPrefix _ hash || HasPrefix _ semicolon); [discriminate|].
    destruct (Index (TrimSpace body) sepEq =? -1); [discriminate|].
    destruct (isEmpty (TrimSpace (take _ _))); [discriminate|].
    now inversion Ha.
Qed.

(** An entry the loop stores has a non-empty, trimmed key and a trimmed
    value. *)
Lemma lineEntry_inv n line key value :
  lineEntry n line = Some (key, value) ->
  key <> [] /\ TrimSpace key = key /\ TrimSpace value = value.
Proof.
  unfold lineEntry. destruct (_ || _); [discriminate|].
  destruct (_ =? -1); [discriminate|].
  destruct (isEmpty _) eqn:E; [discriminate|].
  intros H. inversion H; subst. split; [|split].
  - intros Hk. rewrite Hk in E. discriminate.
  - apply TrimSpace_idem.
  - apply TrimSpace_idem.
Qed.

Lemma parse_fold_keys lines st :
  (forall k v, entries st !! k = Some v -> k <> [] /\ TrimSpace k = k) ->
  forall k v, entries (fold_left parseStep lines st) !! k = Some v ->
    k <> [] /\ TrimSpace k = k.
Proof.
  revert st. induction lines as [|l ls IH]; intros st Hst; [exact Hst|].
  simpl fold_left. apply IH. intros k v. rewrite parseStep_entries.
  destruct (lineEntry (lineNumber st + 1) l) as [[k' v']|] eqn:E;
    [|apply Hst].
  destruct (decide (k' = k)) as [->|Hne].
  - intros _. destruct (lineEntry_inv _ _ _ _ E) as (H1 & H2 & _). auto.
  - rewrite lookup_insert_ne by exact Hne. apply Hst.
Qed.

End Extractor_facts.

(* ===================================================================== *)
(** * The encoding detector *)
(* ===================================================================== *)

Module FindSC_facts.
Import xtext FindSC.

Lemma RuneLen_le r : utf8.RuneLen r <= 4.
Proof.
  unfold utf8.RuneLen.
  repeat match goal with |- context [if ?c then _ else _] => destruct c end; lia.
Qed.

Lemma EncodeRuneLen_range r : 1 <= utf8.EncodeRuneLen r <= 4.
Proof.
  unfold utf8.EncodeRuneLen.
  repeat match goal with |- context [if ?c then _ else _] => destruct c end; lia.
Qed.

Lemma RuneLen_ascii r : r < 0x80 -> utf8.RuneLen r <= 1.
Proof.
  intros H. unfold utf8.RuneLen.
  destruct (r <? 0); [lia|]. destruct (r <=? 127) eqn:E; [lia|].
  apply Z.leb_gt in E. lia.
Qed.

Lemma EncodeRuneLen_ascii r : r < 0x80 -> 1 <= utf8.EncodeRuneLen r <= 3.
Proof.
  intros H. unfold utf8.EncodeRuneLen.
  destruct (0 <=? r) eqn:A; cbn [andb].
  - destruct (r <=? 127) eqn:B; [lia|apply Z.leb_gt in B; lia].
  - apply Z.leb_gt in A. destruct (r <? 0) eqn:C;
      [cbn [orb]; lia|apply Z.ltb_ge in C; lia].
Qed.

Ltac rune_bounds :=
  repeat split;
  first [ lia
        | match goal with
          | |- utf8.RuneLen (tableRune ?d ?i) <= _ =>
            pose proof (RuneLen_le (tableRune d i)); lia
          | |- 1 <= utf8.EncodeRuneLen (tableRune ?d ?i) =>
            pose proof (EncodeRuneLen_range (tableRune d i)); lia
          | |- utf8.EncodeRuneLen (tableRune ?d ?i) <= _ =>
            pose proof (EncodeRuneLen_range (tableRune d i)); lia
          end
        | vm_compute; congruence ].

Lemma big5Pair_bounded decode c0 c1 (n : nat) :
  (2 <= n)%nat ->
  match big5Pair decode c0 c1 with
  | ShortSrc => False
  | WriteRune r size =>
    (1 <= size <= n)%nat /\ utf8.RuneLen r <= 3 * Z.of_nat size
    /\ 1 <= utf8.EncodeRuneLen r <= 3 * Z.of_nat size
  | WriteStr len size => (1 <= size <= n)%nat /\ 1 <= len <= 3 * Z.of_nat size
  end.
Proof.
  intros Hn. unfold big5Pair. cbv zeta.
  destruct (_ <? _); [destruct (_ || _)|]; rune_bounds.
Qed.

Lemma gbkPair_bounded decode c0 c1 (n : nat) :
  (2 <= n)%nat ->
  match gbkPair decode c0 c1 with
  | ShortSrc => False
  | WriteRune r size =>
    (1 <= size <= n)%nat /\ utf8.RuneLen r <= 3 * Z.of_nat size
    /\ 1 <= utf8.EncodeRuneLen r <= 3 * Z.of_nat size
  | WriteStr len size => (1 <= size <= n)%nat /\ 1 <= len <= 3 * Z.of_nat size
  end.
Proof.
  intros Hn. unfold gbkPair. cbv zeta.
  destruct (_ <? _); rune_bounds.
Qed.

Lemma big5Step_bounded decode : stepBounded (big5Step decode true).
Proof.
  intros src Hne. destruct src as [|c0 rest]; [congruence|].
  unfold big5Step. destruct (c0 <? utf8.RuneSelf) eqn:E0.
  - apply Z.ltb_lt in E0. unfold utf8.RuneSelf in E0.
    pose proof (RuneLen_ascii c0 E0). pose proof (EncodeRuneLen_ascii c0 E0).
    simpl length. repeat split; lia.
  - destruct (_ && _).
    + destruct rest as [|c1 rest']; [simpl length; rune_bounds|].
      repeat match goal with |- context [if ?c then _ else _] => destruct c end;
        try (apply big5Pair_bounded; simpl length; lia);
        simpl length; rune_bounds.
    + simpl length; rune_bounds.
Qed.

Lemma gbkStep_bounded decode : stepBounded (gbkStep decode true).
Proof.
  intros src Hne. destruct src as [|c0 rest]; [congruence|].
  unfold gbkStep. destruct (c0 <? utf8.RuneSelf) eqn:E0.
  - apply Z.ltb_lt in E0. unfold utf8.RuneSelf in E0.
    pose proof (RuneLen_ascii c0 E0). pose proof (EncodeRuneLen_ascii c0 E0).
    simpl length. repeat split; lia.
  - destruct (c0 =? 128); [simpl length; rune_bounds|].
    destruct (c0 <? 255).
    + destruct rest as [|c1 rest']; [simpl length; rune_bounds|].
      repeat match goal with |- context [if ?c then _ else _] => destruct c end;
        try (apply gbkPair_bounded; simpl length; lia);
        simpl length; rune_bounds.
    + simpl length; rune_bounds.
Qed.

(** A bounded loop in a destination of three bytes for each source byte
    never stops early: it consumes the whole source, reports no error,
    and has written something unless the source was empty. *)
Lemma transformLoop_total step fuel dstLen nDst nSrc src :
  stepBounded step -> (length src <= fuel)%nat ->
  nDst + 3 * Z.of_nat (length src) <= dstLen ->
  exists n,
    transformLoop step fuel dstLen nDst nSrc src
    = (n, nSrc + Z.of_nat (length src), None)
    /\ nDst + (if isEmpty src then 0 else 1) <= n
    /\ n <= nDst + 3 * Z.of_nat (length src).
Proof.
  intros Hstep. revert nDst nSrc src.
  induction fuel as [|f IH]; intros nDst nSrc src Hf Hd.
  - destruct src; [|simpl in Hf; lia]. exists nDst. simpl.
    rewrite Z.add_0_r. repeat split; lia.
  - destruct src as [|c0 rest] eqn:Esrc.
    { exists nDst. simpl. rewrite Z.add_0_r. repeat split; lia. }
    rewrite <- Esrc in *. assert (Hne : src <> []) by (subst; discriminate).
    specialize (Hstep src Hne) as Hs.
    assert (Hunf : transformLoop step (S f) dstLen nDst nSrc src =
      match step src with
      | ShortSrc => (nDst, nSrc, Some ErrShortSrc)
      | WriteRune r size =>
        if dstLen <? nDst + utf8.RuneLen r then (nDst, nSrc, Some ErrShortDst)
        else transformLoop step f dstLen (nDst + utf8.EncodeRuneLen r)
               (nSrc + Z.of_nat size) (drop size src)
      | WriteStr len size =>
        if dstLen <? nDst + len then (nDst, nSrc, Some ErrShortDst)
        else transformLoop step f dstLen (nDst + len)
               (nSrc + Z.of_nat size) (drop size src)
      end) by (subst src; reflexivity).
    rewrite Hunf. assert (He : isEmpty src = false) by (subst; reflexivity).
    rewrite He. clear Hunf.
    destruct (step src) as [|r size|len size]; [contradiction| |].
    + destruct Hs as (Hsz & Hr & He1 & He2).
      destruct (dstLen <? nDst + utf8.RuneLen r) eqn:E;
        [apply Z.ltb_lt in E; lia|].
      destruct (IH (nDst + utf8.EncodeRuneLen r) (nSrc + Z.of_nat size)
                  (drop size src)) as (n & Hn & Hlo & Hhi).
      { rewrite length_drop. lia. }
      { rewrite length_drop. lia. }
      exists n. rewrite Hn, length_drop. split; [f_equal; f_equal; lia|].
      rewrite length_drop in Hhi.
      destruct (isEmpty (drop size src)); lia.
    + destruct Hs as (Hsz & Hl1 & Hl2).
      destruct (dstLen <? nDst + len) eqn:E; [apply Z.ltb_lt in E; lia|].
      destruct (IH (nDst + len) (nSrc + Z.of_nat size)
                  (drop size src)) as (n & Hn & Hlo & Hhi).
      { rewrite length_drop. lia. }
      { rewrite length_drop. lia. }
      exists n. rewrite Hn, length_drop. split; [f_equal; f_equal; lia|].
      rewrite length_drop in Hhi.
      destruct (isEmpty (drop size src)); lia.
Qed.

(** The library decoders, called as the detector calls them, never
    report an error. *)
Lemma Big5Transform_total decode content :
  exists n,
    Big5Transform decode (Z.of_nat (length content) * 3) content true
    = (n, Z.of_nat (length content), None)
    /\ (if isEmpty content then 0 else 1) <= n.
Proof.
  unfold Big5Transform.
  destruct (transformLoop_total (big5Step decode true) (length content)
              (Z.of_nat (length content) * 3) 0 0 content)
    as (n & H1 & H2 & _); [apply big5Step_bounded|lia|lia|].
  exists n. split; [exact H1|lia].
Qed.

Lemma GBKTransform_total decode content :
  exists n,
    GBKTransform decode (Z.of_nat (length content) * 3) content true
    = (n, Z.of_nat (length content), None)
    /\ (if isEmpty content then 0 else 1) <= n.
Proof.
  unfold GBKTransform.
  destruct (transformLoop_total (gbkStep decode true) (length content)
              (Z.of_nat (length content) * 3) 0 0 content)
    as (n & H1 & H2 & _); [apply gbkStep_bounded|lia|lia|].
  exists n. split; [exact H1|lia].
Qed.

Lemma big5Scan_pos n content : 0 < n -> big5Scan n content = big5Scan 1 content.
Proof.
  intros Hn. induction content as [|c rest IH]; [reflexivity|].
  simpl. destruct rest as [|c' rest']; [reflexivity|].
  rewrite IH. destruct (_ && _); [|reflexivity].
  destruct (_ || _); [|reflexivity].
  destruct (0 <? n) eqn:E; [reflexivity|apply Z.ltb_ge in E; lia].
Qed.

Lemma gbkScan_pos n content : 0 < n -> gbkScan n content = gbkScan 1 content.
Proof.
  intros Hn. induction content as [|c rest IH]; [reflexivity|].
  simpl. destruct rest as [|c' rest']; [reflexivity|].
  rewrite IH. destruct (_ && _); [|reflexivity].
  destruct (_ && _); [|reflexivity].
  destruct (0 <? n) eqn:E; [reflexivity|apply Z.ltb_ge in E; lia].
Qed.

(** What [isBIG5Encoded] decides: whether a lead byte is followed by a
    trail byte somewhere in the buffer, whatever the decoding table. *)
Lemma isBIG5Encoded_scan decode content :
  isBIG5Encoded decode content = big5Scan 1 content.
Proof.
  unfold isBIG5Encoded. cbv zeta.
  destruct (Big5Transform_total decode content) as (n & -> & Hn).
  destruct content as [|c rest]; [reflexivity|].
  apply big5Scan_pos. simpl in Hn. lia.
Qed.

Lemma isGBKEncoded_scan decode content :
  isGBKEncoded decode content = gbkScan 1 content.
Proof.
  unfold isGBKEncoded. cbv zeta.
  destruct (GBKTransform_total decode content) as (n & -> & Hn).
  destruct content as [|c rest]; [reflexivity|].
  apply gbkScan_pos. simpl in Hn. lia.
Qed.


(** [detectFileEncoding] returns one of its three strings, so [main]
    never takes the branch for an unknown encoding. *)
Lemma never_unknown big5Table gbkTable content :
  verdict (detectFileEncoding big5Table gbkTable content) <> Unknown.
Proof.
  unfold detectFileEncoding.
  repeat match goal with |- context [if ?c then _ else _] => destruct c end;
    vm_compute; discriminate.
Qed.

(** C2 (as amended): a buffer without byte-order-mark that the
    valid-UTF-8 rule does not classify and that neither double-byte
    check accepts gets the default answer ["UTF-8"], verdict [UTF8]. *)
Theorem fallback_utf8 (big5Table gbkTable content : list Z) :
  hasBOM content = false -> utf8Rule content = false ->
  isBIG5Encoded big5Table content = false ->
  isGBKEncoded gbkTable content = false ->
  detectFileEncoding big5Table gbkTable content = encUTF8
  /\ verdict (detectFileEncoding big5Table gbkTable content) = UTF8.
Proof.
  intros H1 H2 H3 H4. unfold detectFileEncoding.
  rewrite H1, H2, H3, H4. split; reflexivity.
Qed.

(** An instance: the Latin-1 text ["caf\xE9"]. *)
Lemma fallback_utf8_witness :
  detectFileEncoding [] [] latin1Buffer = encUTF8
  /\ verdict (detectFileEncoding [] [] latin1Buffer) = UTF8.
Proof. apply fallback_utf8; vm_compute; reflexivity. Defined.

(** C2 fails as stated: the Latin-1 text ["caf\xE9"] has no
    byte-order-mark, is not valid UTF-8, and holds no lead byte followed
    by a trail byte of either double-byte encoding; the verdict is
    [UTF8], not [Unknown], whatever the decoding tables. *)
Lemma fallback_not_unknown :
  hasBOM latin1Buffer = false /\ utf8Rule latin1Buffer = false
  /\ (forall big5Table, isBIG5Encoded big5Table latin1Buffer = false)
  /\ (forall gbkTable, isGBKEncoded gbkTable latin1Buffer = false)
  /\ (forall big5Table gbkTable,
        verdict (detectFileEncoding big5Table gbkTable latin1Buffer) = UTF8)
  /\ UTF8 <> Unknown.
Proof.
  assert (H3 : forall t, isBIG5Encoded t latin1Buffer = false)
    by (intros t; rewrite isBIG5Encoded_scan; reflexivity).
  assert (H4 : forall t, isGBKEncoded t latin1Buffer = false)
    by (intros t; rewrite isGBKEncoded_scan; reflexivity).
  split; [reflexivity|]. split; [reflexivity|].
  split; [exact H3|]. split; [exact H4|]. split; [|discriminate].
  intros t1 t2. unfold detectFileEncoding. rewrite H3, H4. reflexivity.
Qed.

(** The strings [detectFileEncoding] returns, on the buffer of C1. *)
Lemma countryBuffer_encoding big5Table gbkTable :
  detectFileEncoding big5Table gbkTable countryBuffer = encBIG5.
Proof.
  unfold detectFileEncoding. rewrite isBIG5Encoded_scan. reflexivity.
Qed.

(** C1 (as amended): the buffer ["ASD_Country=" U+56FD U+5BB6 "\n"] in
    UTF-8 gets the verdict [UTF8] when it starts with the
    byte-order-mark; without the mark it has high bytes, the
    valid-UTF-8 rule does not classify it, and the verdict is not
    [UTF8].  On either buffer the UTF-8 scan reports exactly one
    character, U+56FD, at line 1. *)
Theorem country_buffer (big5Table gbkTable : list Z) :
  verdict (detectFileEncoding big5Table gbkTable (BOM ++ countryBuffer)) = UTF8
  /\ scanUTF8ForSimplified (BOM ++ countryBuffer)
     = [mkFinding 1 0x56FD
          ([0xFEFF] ++ bytes "ASD_Country=" ++ [0x56FD; 0x5BB6])]
  /\ hasBOM countryBuffer = false
  /\ utf8.Valid countryBuffer = true
  /\ utf8Rule countryBuffer = false
  /\ verdict (detectFileEncoding big5Table gbkTable countryBuffer) <> UTF8
  /\ scanUTF8ForSimplified countryBuffer
     = [mkFinding 1 0x56FD (bytes "ASD_Country=" ++ [0x56FD; 0x5BB6])].
Proof.
  rewrite countryBuffer_encoding.
  repeat split; try (vm_compute; reflexivity). vm_compute. discriminate.
Qed.

(** C1 fails as stated: without byte-order-mark the buffer is answered
    ["BIG5"], verdict [TraditionalByteEncoding], whatever the decoding
    tables; [main] then does not run the UTF-8 scan. *)
Lemma country_buffer_not_utf8 :
  hasBOM countryBuffer = false
  /\ (forall big5Table gbkTable,
        detectFileEncoding big5Table gbkTable countryBuffer = encBIG5)
  /\ verdict encBIG5 = TraditionalByteEncoding
  /\ TraditionalByteEncoding <> UTF8.
Proof.
  repeat split; try reflexivity; try discriminate.
  intros t1 t2. apply countryBuffer_encoding.
Qed.

(** C3: the buffer of C1 reaches the Traditional-Chinese check and is
    answered ["BIG5"], although it does not decode under the BIG5 rule
    set: its lead byte 0xE5 is followed by 0x9B, which is no trail
    byte. *)
Theorem big5_accepts_undecodable (big5Table gbkTable : list Z) :
  hasBOM countryBuffer = false /\ utf8Rule countryBuffer = false
  /\ isBIG5Encoded big5Table countryBuffer = true
  /\ verdict (detectFileEncoding big5Table gbkTable countryBuffer)
     = TraditionalByteEncoding
  /\ specBig5Decode countryBuffer = None
  /\ specIsTraditional countryBuffer = false.
Proof.
  rewrite countryBuffer_encoding, isBIG5Encoded_scan.
  repeat split; vm_compute; reflexivity.
Qed.

(** The other direction holds: a buffer that decodes under the rule set
    with at least one two-byte sequence is accepted. *)
Lemma spec_traditional_accepted_aux (n : nat) :
  forall content k, (length content <= n)%nat ->
    specBig5Decode content = Some k -> (0 < k)%nat ->
    big5Scan 1 content = true.
Proof.
  induction n as [|n IH]; intros content k Hlen Hd Hk.
  - destruct content; [|simpl in Hlen; lia]. simpl in Hd. inversion Hd. lia.
  - destruct content as [|c rest]; [simpl in Hd; inversion Hd; lia|].
    simpl in Hd, Hlen. destruct (c <? 128) eqn:Ec.
    + apply Z.ltb_lt in Ec.
      assert (Hr := IH rest k ltac:(lia) Hd Hk).
      simpl. destruct rest as [|c' rest']; [discriminate Hr|].
      destruct ((161 <=? c) && (c <=? 249)) eqn:El; [|exact Hr].
      apply andb_true_iff in El as [El _]. apply Z.leb_le in El. lia.
    + destruct ((161 <=? c) && (c <=? 249)) eqn:El; [|discriminate].
      destruct rest as [|c' rest']; [discriminate|].
      destruct (_ || _) eqn:Et; [|discriminate].
      simpl. rewrite El, Et. reflexivity.
Qed.

Lemma spec_traditional_accepted big5Table content :
  specIsTraditional content = true -> isBIG5Encoded big5Table content = true.
Proof.
  unfold specIsTraditional. rewrite isBIG5Encoded_scan.
  destruct (specBig5Decode content) as [k|] eqn:E; [|discriminate].
  intros Hk. apply Nat.ltb_lt in Hk.
  now apply (spec_traditional_accepted_aux (length content) content k).
Qed.

(** Buffers of ASCII bytes. *)

Lemma validLoop_ascii fuel p :
  AllAscii p -> (length p <= fuel)%nat -> utf8.validLoop fuel p = true.
Proof.
  revert p. induction fuel as [|f IH]; intros p Hp Hf.
  - destruct p; [reflexivity|simpl in Hf; lia].
  - destruct p as [|b rest]; [reflexivity|]. inversion Hp; subst.
    simpl. unfold utf8.RuneSelf.
    destruct (b <? 128) eqn:E; [|apply Z.ltb_ge in E; lia].
    apply IH; [assumption|simpl in Hf; lia].
Qed.

Lemma highRanges_ascii_aux p acc :
  AllAscii p ->
  fold_left
    (fun (acc : bool * bool) (b : Z) =>
       let hasGBKRange :=
         if (0x81 <=? b) && (b <=? 0xFE) then true else fst acc in
       let hasBIG5Range :=
         if (0xA1 <=? b) && (b <=? 0xF9) then true else snd acc in
       (hasGBKRange, hasBIG5Range)) p acc = acc.
Proof.
  intros Hp. revert acc. induction Hp as [|b rest Hb Hrest IH]; intros acc;
    [reflexivity|].
  simpl fold_left. rewrite IH.
  destruct (129 <=? b) eqn:E1; [apply Z.leb_le in E1; lia|].
  destruct (161 <=? b) eqn:E2; [apply Z.leb_le in E2; lia|].
  destruct acc; reflexivity.
Qed.

Lemma utf8Rule_ascii p : AllAscii p -> utf8Rule p = true.
Proof.
  intros Hp. unfold utf8Rule, utf8.Valid, highRanges.
  rewrite validLoop_ascii by (auto; lia).
  rewrite highRanges_ascii_aux by assumption. reflexivity.
Qed.

Lemma runesLoop_ascii fuel l :
  AllAscii l -> (length l <= fuel)%nat -> utf8.runesLoop fuel l = l.
Proof.
  revert l. induction fuel as [|f IH]; intros l Hl Hf.
  - destruct l; [reflexivity|simpl in Hf; lia].
  - destruct l as [|b rest]; [reflexivity|]. inversion Hl; subst.
    cbn [utf8.runesLoop]. unfold utf8.DecodeRune, utf8.first.
    destruct (b <? 128) eqn:E; [|apply Z.ltb_ge in E; lia].
    simpl drop. f_equal. apply IH; [assumption|simpl in Hf; lia].
Qed.

Lemma simplifiedOnly_ascii r : r < 0x80 -> simplifiedOnly !! r = None.
Proof.
  intros Hr. unfold simplifiedOnly. apply not_elem_of_list_to_map.
  simpl. rewrite !elem_of_cons, elem_of_nil. lia.
Qed.

Lemma scanRunes_ascii lineNum all i rest :
  AllAscii rest -> scanRunes lineNum all i rest = [].
Proof.
  intros Hr. revert i. induction Hr as [|r rest Hb Hrest IH]; intros i;
    [reflexivity|].
  cbn [scanRunes]. rewrite simplifiedOnly_ascii by lia. simpl. apply IH.
Qed.

Lemma scanLinesFrom_ascii lineNum lines :
  Forall AllAscii lines -> scanLinesFrom lineNum lines = [].
Proof.
  intros Hl. revert lineNum. induction Hl as [|l ls Hl Hls IH]; intros n;
    [reflexivity|].
  cbn [scanLinesFrom]. unfold utf8.runes.
  rewrite runesLoop_ascii by (auto; lia).
  rewrite scanRunes_ascii by assumption. apply IH.
Qed.

Lemma dropCR_ascii l : AllAscii l -> AllAscii (bufio.dropCR l).
Proof.
  intros H. unfold bufio.dropCR. destruct (_ && _); [|exact H].
  now apply Forall_take.
Qed.

Lemma scanLoop_ascii fuel data :
  AllAscii data -> Forall AllAscii (fst (bufio.scanLoop fuel data)).
Proof.
  apply (bufio_facts.scanLoop_tokens AllAscii).
  - intros l n H. now apply Forall_take.
  - intros l n H. now apply Forall_drop.
  - apply dropCR_ascii.
Qed.

End FindSC_facts.

(* ===================================================================== *)
(** * Further properties of the three programs *)
(* ===================================================================== *)
Module Further.
Import strings strings_facts Processor Processor_facts FindSC FindSC_facts.

(** A line whose content is blank, a comment, without separator, with
    an empty key, or with a key the map does not hold is written back
    as it was read, at its own position. *)
Theorem unmatched_line_unchanged (lines : list (list Z))
    (m : gmap (list Z) (list Z)) (i : nat) (line : list Z) :
  lines !! i = Some line ->
  (forall key,
     Processor.classify (lineBody (Z.of_nat i + 1) line) = ClassValid key ->
     m !! key = None) ->
  translateFile lines m !! i = Some line.
Proof. apply translateFile_unchanged. Qed.

Lemma unmatched_line_unchanged_witness :
  translateFile [bytes "K1=V1"; bytes " K2 = V2 "] mapK1 !! 1%nat
  = Some (bytes " K2 = V2 ").
Proof.
  apply unmatched_line_unchanged; [reflexivity|].
  intros key H. vm_compute in H. inversion H; subst. vm_compute. reflexivity.
Defined.

(** A line whose key the map holds is written as the trimmed key, one
    ["="] and the mapped value, after the byte-order-mark if line 1
    began with one. *)
Theorem matched_line_rewritten (lines : list (list Z))
    (m : gmap (list Z) (list Z)) (i : nat) (line key value : list Z) :
  lines !! i = Some line ->
  Processor.classify (lineBody (Z.of_nat i + 1) line) = ClassValid key ->
  m !! key = Some value ->
  translateFile lines m !! i
  = Some ((if (i =? 0)%nat && HasPrefix line BOM then BOM else [])
          ++ key ++ sepEq ++ value).
Proof.
  intros Hl Hc Hm. rewrite (translateFile_lookup _ _ _ _ Hl). f_equal.
  destruct i as [|j]; cbn [Nat.eqb andb].
  - rewrite firstRecord_body. change (Z.of_nat 0 + 1) with 1 in Hc.
    rewrite processed_classify, Hc, Hm. reflexivity.
  - assert (Hb : lineBody (Z.of_nat (S j) + 1) line = line).
    { unfold lineBody. destruct (Z.of_nat (S j) + 1 =? 1) eqn:E;
        [apply Z.eqb_eq in E; lia|reflexivity]. }
    rewrite Hb in Hc. rewrite processed_classify, Hc, Hm. reflexivity.
Qed.

Lemma matched_line_rewritten_witness :
  translateFile [BOM ++ paddedLine] mapK1 !! 0%nat
  = Some ((if (0 =? 0)%nat && HasPrefix (BOM ++ paddedLine) BOM
           then BOM else [])
          ++ bytes "K1" ++ sepEq ++ bytes "X1").
Proof.
  apply matched_line_rewritten; vm_compute; reflexivity.
Defined.

(** [processLine] returns its own result unchanged when given it again
    with the same map. *)
Theorem processLine_idempotent (m : gmap (list Z) (list Z)) (line : list Z)
    (s s' : TranslationStats) :
  fst (processLine (fst (processLine line m s)) m s')
  = fst (processLine line m s).
Proof. rewrite !processLine_fst. apply processed_idem. Qed.

(** All five counters stay between 0 and the number of lines read. *)
Theorem counters_bounded (lines : list (list Z)) (m : gmap (list Z) (list Z)) :
  statsWithin (Z.of_nat (length lines)) (translateStats lines m).
Proof. apply stats_bounded. Qed.

(** One record of a written file under the scanner: it is delivered as
    it was written when it is shorter than the buffer, and stops the
    scanner otherwise. *)
Lemma scanLoop_record r rest f :
  scannerLine r ->
  bufio.scanLoop (S f) (r ++ 0x0A :: rest)
  = if bufio.MaxScanTokenSize <=? Z.of_nat (length r)
    then ([], Some bufio.ErrTooLong)
    else (r :: fst (bufio.scanLoop f rest), snd (bufio.scanLoop f rest)).
Proof.
  intros [Hr1 Hr2].
  rewrite bufio_facts.scanLoop_step by (destruct r; discriminate). cbv zeta.
  rewrite Index_one_app by exact Hr1.
  destruct (0 <=? Z.of_nat (length r)) eqn:E0; [|apply Z.leb_gt in E0; lia].
  destruct (bufio.MaxScanTokenSize <=? Z.of_nat (length r)); [reflexivity|].
  rewrite Nat2Z.id, take_app_length, Hr2.
  replace (Z.to_nat (Z.of_nat (length r) + 1)) with (length r + 1)%nat by lia.
  replace (r ++ 10 :: rest) with ((r ++ [10]) ++ rest)
    by (now rewrite <- app_assoc).
  replace (length r + 1)%nat with (length (r ++ [10]))
    by (rewrite length_app; reflexivity).
  now rewrite drop_app_length.
Qed.

Lemma fileContent_cons r rs : fileContent (r :: rs) = r ++ 0x0A :: fileContent rs.
Proof. unfold fileContent. simpl. now rewrite <- app_assoc. Qed.

(** The scanner reads back the records of a written file, when none
    holds a newline or ends with a carriage return and each is shorter
    than the scanner's buffer. *)
Lemma scanLoop_fileContent records :
  Forall scannerLine records ->
  Forall (fun r => Z.of_nat (length r) < bufio.MaxScanTokenSize) records ->
  forall fuel, (length (fileContent records) <= fuel)%nat ->
    bufio.scanLoop fuel (fileContent records) = (records, None).
Proof.
  induction 1 as [|r rs Hr Hrs IH]; intros Hs fuel Hf.
  - apply bufio_facts.scanLoop_nil.
  - inversion Hs; subst. rewrite fileContent_cons in *.
    destruct fuel as [|f]; [rewrite length_app in Hf; simpl in Hf; lia|].
    rewrite scanLoop_record by exact Hr.
    destruct (Z.leb_spec bufio.MaxScanTokenSize (Z.of_nat (length r))); [lia|].
    rewrite IH; [reflexivity|assumption|].
    rewrite length_app in Hf. simpl in Hf. lia.
Qed.

(** When the scanner reads a written file to its end, it has read the
    records back. *)
Lemma scanLoop_fileContent_read records :
  Forall scannerLine records ->
  forall fuel, (length (fileContent records) <= fuel)%nat ->
    snd (bufio.scanLoop fuel (fileContent records)) = None ->
    fst (bufio.scanLoop fuel (fileContent records)) = records.
Proof.
  induction 1 as [|r rs Hr Hrs IH]; intros fuel Hf He.
  - now rewrite bufio_facts.scanLoop_nil.
  - rewrite fileContent_cons in *.
    destruct fuel as [|f]; [rewrite length_app in Hf; simpl in Hf; lia|].
    rewrite scanLoop_record in * by exact Hr.
    destruct (bufio.MaxScanTokenSize <=? Z.of_nat (length r)); [discriminate|].
    cbn [fst snd] in *. f_equal. apply IH; [|exact He].
    rewrite length_app in Hf. simpl in Hf. lia.
Qed.

(** The scanner stops at the first line that fills its buffer, having
    delivered the lines before it. *)
Lemma scanLoop_fileContent_stop records long rest :
  Forall scannerLine records ->
  Forall (fun r => Z.of_nat (length r) < bufio.MaxScanTokenSize) records ->
  Forall (fun b => b <> 0x0A) long ->
  bufio.MaxScanTokenSize <= Z.of_nat (length long) ->
  forall fuel, (length (fileContent records ++ long ++ rest) <= fuel)%nat ->
    bufio.scanLoop fuel (fileContent records ++ long ++ rest)
    = (records, Some bufio.ErrTooLong).
Proof.
  intros Hr Hs Hn Hl. induction Hr as [|r rs Hr Hrs IH]; intros fuel Hf.
  - simpl app in *. destruct fuel as [|f].
    + rewrite length_app in Hf. unfold bufio.MaxScanTokenSize in Hl. lia.
    + now apply bufio_facts.scanLoop_overlong.
  - inversion Hs; subst. rewrite fileContent_cons in *.
    rewrite <- app_assoc in *. simpl app in *.
    destruct fuel as [|f]; [rewrite length_app in Hf; simpl in Hf; lia|].
    rewrite scanLoop_record by exact Hr.
    destruct (Z.leb_spec bufio.MaxScanTokenSize (Z.of_nat (length r))); [lia|].
    rewrite IH; [reflexivity|assumption|].
    rewrite length_app in Hf. simpl in Hf. lia.
Qed.

Lemma ScanLines_fileContent records :
  Forall scannerLine records -> bufio.ScanErr (fileContent records) = None ->
  bufio.ScanLines (fileContent records) = records.
Proof.
  intros H He. unfold bufio.ScanLines. now apply scanLoop_fileContent_read.
Qed.

Theorem written_file_reread (records : list (list Z)) :
  Forall scannerLine records ->
  Forall (fun r => Z.of_nat (length r) < bufio.MaxScanTokenSize) records ->
  bufio.ScanLines (fileContent records) = records
  /\ bufio.ScanErr (fileContent records) = None.
Proof.
  intros H Hs. unfold bufio.ScanLines, bufio.ScanErr.
  now rewrite scanLoop_fileContent.
Qed.

Lemma written_file_reread_witness :
  bufio.ScanLines (fileContent [bytes "K1=X1"; []; bytes "# c"])
  = [bytes "K1=X1"; []; bytes "# c"]
  /\ bufio.ScanErr (fileContent [bytes "K1=X1"; []; bytes "# c"]) = None.
Proof.
  apply written_file_reread.
  - repeat constructor; try discriminate.
  - repeat constructor.
Defined.

(** The Traditional-Chinese check accepts a buffer exactly when a byte
    in 0xA1-0xF9 is followed by a byte in 0x40-0x7E or 0xA1-0xFE at some
    offset: the decoding step never rejects anything. *)
Theorem big5_check_is_pair_scan (big5Table content : list Z) :
  isBIG5Encoded big5Table content = big5Scan 1 content.
Proof. apply isBIG5Encoded_scan. Qed.

(** The Simplified-Chinese check likewise. *)
Theorem gbk_check_is_pair_scan (gbkTable content : list Z) :
  isGBKEncoded gbkTable content = gbkScan 1 content.
Proof. apply isGBKEncoded_scan. Qed.

(** Called with a destination of three bytes for each source byte and
    [atEOF] set, the Big5 decoder consumes the whole buffer and reports
    no error, whatever the bytes. *)
Theorem big5_decoder_never_fails (big5Table content : list Z) :
  exists n,
    xtext.Big5Transform big5Table (Z.of_nat (length content) * 3) content true
    = (n, Z.of_nat (length content), None).
Proof.
  destruct (Big5Transform_total big5Table content) as (n & H & _). now exists n.
Qed.

(** [detectFileEncoding] never makes [main] announce an unknown
    encoding. *)
Theorem detector_never_unknown (big5Table gbkTable content : list Z) :
  verdict (detectFileEncoding big5Table gbkTable content) <> Unknown.
Proof. apply never_unknown. Qed.

(** A buffer that decodes under the BIG5 rule set with at least one
    two-byte sequence is accepted by the Traditional-Chinese check. *)
Theorem decodable_big5_accepted (big5Table content : list Z) :
  specIsTraditional content = true -> isBIG5Encoded big5Table content = true.
Proof. apply spec_traditional_accepted. Qed.

Lemma decodable_big5_accepted_witness :
  isBIG5Encoded [] (bytes "K=" ++ [0xA4; 0xA4]) = true.
Proof. apply decodable_big5_accepted. vm_compute. reflexivity. Defined.

(** The example of the spec: input ["K1=V1\nK2=V2\n"] and map
    [{K1: X1}] give ["K1=X1\nK2=V2\n"] and the statistics
    total 2, translated 1, unchanged 1, skipped 0, not found 1. *)
Theorem substitution_example :
  let lines := bufio.ScanLines (bytes "K1=V1" ++ [0x0A] ++ bytes "K2=V2" ++ [0x0A]) in
  fileContent (translateFile lines mapK1)
  = bytes "K1=X1" ++ [0x0A] ++ bytes "K2=V2" ++ [0x0A]
  /\ translateStats lines mapK1 = mkStats 2 1 1 0 1.
Proof. split; vm_compute; reflexivity. Qed.

(** Every buffer of ASCII bytes gets the verdict [UTF8], and the UTF-8
    scan reports nothing on it. *)
Theorem ascii_buffer (big5Table gbkTable content : list Z) :
  AllAscii content ->
  verdict (detectFileEncoding big5Table gbkTable content) = UTF8
  /\ scanUTF8ForSimplified content = [].
Proof.
  intros H. split.
  - unfold detectFileEncoding. destruct (hasBOM content); [reflexivity|].
    rewrite utf8Rule_ascii by assumption. reflexivity.
  - unfold scanUTF8ForSimplified, bufio.ScanLines.
    apply scanLinesFrom_ascii. now apply scanLoop_ascii.
Qed.

Lemma ascii_buffer_witness :
  verdict (detectFileEncoding [] [] (bytes "K1=V1" ++ [0x0A])) = UTF8
  /\ scanUTF8ForSimplified (bytes "K1=V1" ++ [0x0A]) = [].
Proof.
  apply ascii_buffer. repeat constructor; vm_compute; congruence.
Defined.

(** Every key of the map the extractor returns is non-empty and
    trimmed. *)
Theorem extracted_keys_nonempty (lines : list (list Z)) (key value : list Z) :
  Extractor.parseINIFile lines !! key = Some value ->
  key <> [] /\ TrimSpace key = key.
Proof.
  unfold Extractor.parseINIFile, Extractor.parseLoop.
  apply Extractor_facts.parse_fold_keys. intros k v H.
  unfold Extractor.parseInit in H. simpl in H.
  rewrite lookup_empty in H. discriminate.
Qed.

Lemma extracted_keys_nonempty_witness :
  bytes "a" <> [] /\ TrimSpace (bytes "a") = bytes "a".
Proof.
  apply (extracted_keys_nonempty [bytes " a = 1 "] (bytes "a") (bytes "1")).
  vm_compute. reflexivity.
Defined.

(** ** The output file read again *)

Lemma dropCR_nil : bufio.dropCR [] = [].
Proof. reflexivity. Qed.

Lemma dropCR_snoc l b : bufio.dropCR (l ++ [b]) = if b =? 0x0D then l else l ++ [b].
Proof.
  unfold bufio.dropCR. rewrite length_app. simpl length.
  replace (length l + 1 - 1)%nat with (length l) by lia.
  rewrite nth_middle, take_app_length.
  destruct (0 <? Z.of_nat (length l + 1)) eqn:E; [|apply Z.ltb_ge in E; lia].
  reflexivity.
Qed.

(** A string that does not end with a carriage return keeps that
    property under any prefix put before it. *)
Lemma dropCR_app a v : v <> [] -> bufio.dropCR v = v -> bufio.dropCR (a ++ v) = a ++ v.
Proof.
  destruct v as [|x v' _] using rev_ind; [congruence|]. intros _ H.
  rewrite dropCR_snoc in H. rewrite app_assoc, dropCR_snoc.
  destruct (x =? 13); [|reflexivity].
  apply (f_equal (@length Z)) in H. rewrite length_app in H. simpl in H. lia.
Qed.

Lemma scannerLine_app_sep key v :
  Forall (fun b => b <> 0x0A) key -> scannerLine v ->
  scannerLine (key ++ sepEq ++ v).
Proof.
  intros Hk [Hv1 Hv2]. split.
  - apply Forall_app. split; [exact Hk|].
    apply Forall_app. split; [repeat constructor; discriminate|exact Hv1].
  - destruct v as [|b v'].
    + rewrite app_nil_r. unfold sepEq. rewrite dropCR_snoc. reflexivity.
    + rewrite app_assoc. apply dropCR_app; [discriminate|exact Hv2].
Qed.

Lemma scannerLine_processed m line :
  (forall k v, m !! k = Some v -> scannerLine v) ->
  scannerLine line -> scannerLine (processed m line).
Proof.
  intros Hm Hl. rewrite processed_classify.
  destruct (classify line) eqn:C; try exact Hl.
  destruct (m !! l) eqn:L; [|exact Hl].
  destruct (classify_valid_inv _ _ C) as (x & y & Hline & _ & Hk & _).
  apply scannerLine_app_sep; [|now apply (Hm _ _ L)].
  subst l. apply TrimSpace_Forall. destruct Hl as [Hl _].
  rewrite Hline in Hl. now apply Forall_app in Hl as [Hl _].
Qed.

Lemma scannerLine_TrimPrefix line :
  scannerLine line -> scannerLine (TrimPrefix line BOM).
Proof.
  intros [H1 H2]. unfold TrimPrefix.
  destruct (HasPrefix line BOM) eqn:E; [|now split].
  apply HasPrefix_spec in E as [t ->]. rewrite drop_app_length.
  split; [now apply Forall_app in H1 as [_ H1]|].
  destruct t as [|x t' _] using rev_ind; [reflexivity|].
  rewrite app_assoc, dropCR_snoc in H2. rewrite dropCR_snoc.
  destruct (x =? 13); [|reflexivity].
  apply (f_equal (@length Z)) in H2. rewrite !length_app in H2. simpl in H2. lia.
Qed.

Lemma scannerLine_BOM p : scannerLine p -> scannerLine (BOM ++ p).
Proof.
  intros [H1 H2]. split.
  - apply Forall_app. split; [repeat constructor; discriminate|exact H1].
  - destruct p as [|b p']; [reflexivity|].
    apply dropCR_app; [discriminate|exact H2].
Qed.

Lemma scannerLine_firstRecord m line :
  (forall k v, m !! k = Some v -> scannerLine v) ->
  scannerLine line -> scannerLine (firstRecord m line).
Proof.
  intros Hm Hl. unfold firstRecord. destruct (HasPrefix line BOM).
  - apply scannerLine_BOM, scannerLine_processed; [exact Hm|].
    now apply scannerLine_TrimPrefix.
  - now apply scannerLine_processed.
Qed.

(** The records of a pass over scanner lines with a map of such values
    are scanner lines again. *)
Lemma translateFile_scannerLines lines m :
  (forall k v, m !! k = Some v -> scannerLine v) ->
  Forall scannerLine lines -> Forall scannerLine (translateFile lines m).
Proof.
  intros Hm Hl. destruct Hl as [|l ls Hl Hls]; [constructor|].
  rewrite translateFile_cons. constructor.
  - now apply scannerLine_firstRecord.
  - apply Forall_fmap. eapply Forall_impl; [exact Hls|].
    intros x Hx. now apply scannerLine_processed.
Qed.

(** The second run of [translateFile] over the file written from the
    records of a first pass: when the scanner stops at a record that
    fills its buffer the file stays as it is, otherwise the records are
    read back and written again. *)
Lemma second_run_file lines m :
  Forall scannerLine lines ->
  (forall k v, m !! k = Some v -> scannerLine v) ->
  firstLineStable lines m = true ->
  fst (translateFileOn (fileContent (translateFile lines m)) m)
  = fileContent (translateFile lines m).
Proof.
  intros Hl Hm Hs. unfold translateFileOn.
  destruct (bufio.ScanErr (fileContent (translateFile lines m))) eqn:E;
    [reflexivity|].
  cbn [fst]. rewrite ScanLines_fileContent;
    [|now apply translateFile_scannerLines|exact E].
  now rewrite translate_twice.
Qed.

(** A second run over the file a first run wrote leaves the file as it
    is, byte for byte, when the lines and the values of the map hold no
    newline and end with no carriage return, and the first run brought
    no byte-order-mark to the start of line 1. *)
Theorem second_run_same_file (lines : list (list Z))
    (m : gmap (list Z) (list Z)) :
  Forall scannerLine lines ->
  (forall k v, m !! k = Some v -> scannerLine v) ->
  firstLineStable lines m = true ->
  fst (translateFileOn (fileContent (translateFile lines m)) m)
  = fileContent (translateFile lines m).
Proof. apply second_run_file. Qed.

Lemma second_run_same_file_witness :
  fst (translateFileOn
         (fileContent (translateFile [bytes "K1=V1"; bytes "K2=V2"] mapK1))
         mapK1)
  = fileContent (translateFile [bytes "K1=V1"; bytes "K2=V2"] mapK1).
Proof.
  apply second_run_same_file.
  - repeat constructor; try discriminate.
  - intros k v H. unfold mapK1 in H. apply lookup_singleton_Some in H as [_ <-].
    repeat constructor; try discriminate.
  - vm_compute. reflexivity.
Defined.

(** The same with a map none of whose keys begins with the
    byte-order-mark: the first run cannot bring a mark to the start of
    line 1 then. *)
Theorem idempotent_without_marked_keys (lines : list (list Z))
    (m : gmap (list Z) (list Z)) :
  Forall scannerLine lines ->
  (forall k v, m !! k = Some v -> scannerLine v) ->
  (forall key v, m !! key = Some v -> HasPrefix key BOM = false) ->
  fst (translateFileOn (fileContent (translateFile lines m)) m)
  = fileContent (translateFile lines m).
Proof.
  intros Hl Hm Hk. apply second_run_file; try assumption.
  now apply firstLineStable_keys.
Qed.

Lemma idempotent_without_marked_keys_witness :
  fst (translateFileOn
         (fileContent (translateFile [paddedLine; bytes "# note"] mapK1)) mapK1)
  = fileContent (translateFile [paddedLine; bytes "# note"] mapK1).
Proof.
  apply idempotent_without_marked_keys.
  - repeat constructor; try discriminate.
  - intros k v H. unfold mapK1 in H. apply lookup_singleton_Some in H as [_ <-].
    repeat constructor; try discriminate.
  - intros key v H. unfold mapK1 in H. apply lookup_singleton_Some in H as [<- _].
    vm_compute. reflexivity.
Defined.

(** C6 (as amended): running [translateFile] a second time on the file
    a first run left, with the same map, leaves that file as it is,
    byte for byte, provided no line of the input ends with a carriage
    return once its line ending is taken off, no value of the map holds
    a newline or ends with a carriage return, and the first run did not
    bring a byte-order-mark to the start of a line 1 that had none.
    Both runs read the bytes of the file through the scanner; a run the
    scanner stops with an error leaves the file untouched. *)
Theorem translate_idempotent (content : list Z) (m : gmap (list Z) (list Z)) :
  Forall (fun l => bufio.dropCR l = l) (bufio.ScanLines content) ->
  (forall k v, m !! k = Some v -> scannerLine v) ->
  firstLineStable (bufio.ScanLines content) m = true ->
  fst (translateFileOn (fst (translateFileOn content m)) m)
  = fst (translateFileOn content m).
Proof.
  intros Hcr Hm Hs. unfold translateFileOn at 2 3.
  destruct (bufio.ScanErr content) eqn:E; cbn [fst].
  - unfold translateFileOn. now rewrite E.
  - apply second_run_file; try assumption.
    pose proof (bufio_facts.scanLoop_no_newline (length content) content) as Hn.
    fold (bufio.ScanLines content) in Hn.
    rewrite Forall_forall in *. intros l Hl. split; auto.
Qed.

(** An instance: the example of the spec, run twice. *)
Lemma translate_idempotent_witness :
  fst (translateFileOn
         (fst (translateFileOn
                 (bytes "K1=V1" ++ [0x0A] ++ bytes "K2=V2" ++ [0x0A]) mapK1))
         mapK1)
  = fst (translateFileOn
           (bytes "K1=V1" ++ [0x0A] ++ bytes "K2=V2" ++ [0x0A]) mapK1).
Proof.
  apply translate_idempotent.
  - vm_compute. repeat constructor.
  - intros k v H. unfold mapK1 in H. apply lookup_singleton_Some in H as [_ <-].
    repeat constructor; try discriminate.
  - vm_compute. reflexivity.
Defined.

(** C6 fails as stated, in two ways.  First file: line 1 is
    [" " + U+FEFF + "K=V"], line 2 is ["K=W"], and the map is the one
    the extractor builds from these lines; the first run trims the key
    of line 1 to [U+FEFF + "K"] and writes [U+FEFF + "K=V"], the second
    run takes the mark off line 1, finds the key ["K"] and writes
    [U+FEFF + "K=W"].  Second file: the line ["K=V"] with a map whose
    value for ["K"] holds a newline; the first run writes two lines,
    the second run reads them as two lines with the key ["K"] and
    writes four. *)
Lemma translate_not_idempotent :
  (fst (translateFileOn
          ([0x20] ++ BOM ++ bytes "K=V" ++ [0x0A] ++ bytes "K=W" ++ [0x0A])
          markedMap)
   = BOM ++ bytes "K=V" ++ [0x0A] ++ bytes "K=W" ++ [0x0A]
   /\ fst (translateFileOn
             (BOM ++ bytes "K=V" ++ [0x0A] ++ bytes "K=W" ++ [0x0A]) markedMap)
      = BOM ++ bytes "K=W" ++ [0x0A] ++ bytes "K=W" ++ [0x0A]
   /\ fst (translateFileOn
             (fst (translateFileOn
                     ([0x20] ++ BOM ++ bytes "K=V" ++ [0x0A] ++ bytes "K=W"
                      ++ [0x0A]) markedMap)) markedMap)
      <> fst (translateFileOn
                ([0x20] ++ BOM ++ bytes "K=V" ++ [0x0A] ++ bytes "K=W" ++ [0x0A])
                markedMap))
  /\ (fst (translateFileOn (bytes "K=V" ++ [0x0A])
             {[ bytes "K" := bytes "a" ++ [0x0A] ++ bytes "K=b" ]})
      = bytes "K=a" ++ [0x0A] ++ bytes "K=b" ++ [0x0A]
      /\ fst (translateFileOn (bytes "K=a" ++ [0x0A] ++ bytes "K=b" ++ [0x0A])
                {[ bytes "K" := bytes "a" ++ [0x0A] ++ bytes "K=b" ]})
         = bytes "K=a" ++ [0x0A] ++ bytes "K=b" ++ [0x0A]
           ++ bytes "K=a" ++ [0x0A] ++ bytes "K=b" ++ [0x0A]
      /\ fst (translateFileOn
                (fst (translateFileOn (bytes "K=V" ++ [0x0A])
                        {[ bytes "K" := bytes "a" ++ [0x0A] ++ bytes "K=b" ]}))
                {[ bytes "K" := bytes "a" ++ [0x0A] ++ bytes "K=b" ]})
         <> fst (translateFileOn (bytes "K=V" ++ [0x0A])
                   {[ bytes "K" := bytes "a" ++ [0x0A] ++ bytes "K=b" ]})).
Proof. vm_compute. repeat split; discriminate. Qed.

(** ** The lines of the output file *)

Lemma processed_no_newline m line :
  (forall k v, m !! k = Some v -> Forall (fun b => b <> 0x0A) v) ->
  Forall (fun b => b <> 0x0A) line ->
  Forall (fun b => b <> 0x0A) (processed m line).
Proof.
  intros Hm Hl. rewrite processed_classify.
  destruct (classify line) eqn:C; try exact Hl.
  destruct (m !! l) eqn:L; [|exact Hl].
  destruct (classify_valid_inv _ _ C) as (x & y & Hline & _ & Hk & _).
  apply Forall_app. split.
  - subst l. apply TrimSpace_Forall. rewrite Hline in Hl.
    now apply Forall_app in Hl as [Hl _].
  - apply Forall_app. split; [repeat constructor; discriminate|].
    now apply (Hm _ _ L).
Qed.

Lemma translateFile_no_newline lines m :
  (forall k v, m !! k = Some v -> Forall (fun b => b <> 0x0A) v) ->
  Forall (Forall (fun b => b <> 0x0A)) lines ->
  Forall (Forall (fun b => b <> 0x0A)) (translateFile lines m).
Proof.
  intros Hm Hl. destruct Hl as [|l ls Hl Hls]; [constructor|].
  rewrite translateFile_cons. constructor.
  - unfold firstRecord. destruct (HasPrefix l BOM) eqn:E.
    + apply Forall_app. split; [repeat constructor; discriminate|].
      apply processed_no_newline; [exact Hm|].
      unfold TrimPrefix. rewrite E. now apply Forall_drop.
    + now apply processed_no_newline.
  - apply Forall_fmap. eapply Forall_impl; [exact Hls|].
    intros x Hx. now apply processed_no_newline.
Qed.

(** When the scanner reads the input to its end and no value of the
    map holds a newline, the file [translateFile] leaves has as many
    lines as it read: it is made of one record for each line read,
    each without a newline inside and with one newline after it. *)
Theorem output_length (content : list Z) (m : gmap (list Z) (list Z)) :
  bufio.ScanErr content = None ->
  (forall k v, m !! k = Some v -> Forall (fun b => b <> 0x0A) v) ->
  exists records,
    fst (translateFileOn content m) = fileContent records
    /\ length records = length (bufio.ScanLines content)
    /\ Forall (Forall (fun b => b <> 0x0A)) records.
Proof.
  intros He Hm. exists (translateFile (bufio.ScanLines content) m).
  unfold translateFileOn. rewrite He. cbn [fst].
  split; [reflexivity|]. split; [apply translateFile_length|].
  apply translateFile_no_newline; [exact Hm|].
  apply bufio_facts.scanLoop_no_newline.
Qed.

Lemma output_length_witness :
  exists records,
    fst (translateFileOn
           (bytes " K1 = V1" ++ [0x0D; 0x0A] ++ bytes "# c" ++ [0x0A]
            ++ bytes "K2=V2") mapK1)
    = fileContent records
    /\ length records
       = length (bufio.ScanLines
                   (bytes " K1 = V1" ++ [0x0D; 0x0A] ++ bytes "# c" ++ [0x0A]
                    ++ bytes "K2=V2"))
    /\ Forall (Forall (fun b => b <> 0x0A)) records.
Proof.
  apply output_length.
  - vm_compute. reflexivity.
  - intros k v H. unfold mapK1 in H. apply lookup_singleton_Some in H as [_ <-].
    repeat constructor; discriminate.
Defined.

End Further.

(* ===================================================================== *)
(** * The detector and the scans of findSC *)
(* ===================================================================== *)
Module FindSC_scans.
Import xtext FindSC FindSC_facts.

Lemma first_Seq_range b sz lo hi :
  utf8.first b = utf8.Seq sz lo hi ->
  (2 <= sz)%nat /\ 0xC2 <= b <= 0xF4 /\ 0x80 <= lo /\ hi <= 0xBF.
Proof.
  unfold utf8.first, utf8.locb, utf8.hicb.
  repeat match goal with
         | |- context [if ?c then _ else _] => destruct c eqn:?
         end; intros H; inversion H; subst;
  repeat match goal with
         | H : (_ <? _) = true |- _ => apply Z.ltb_lt in H
         | H : (_ <? _) = false |- _ => apply Z.ltb_ge in H
         | H : (_ =? _) = true |- _ => apply Z.eqb_eq in H
         | H : (_ =? _) = false |- _ => apply Z.eqb_neq in H
         end; repeat split; lia.
Qed.

(** In valid UTF-8 the first byte from 0x80 up is a lead byte followed
    by a continuation byte. *)
Lemma valid_first_high fuel p :
  utf8.validLoop fuel p = true -> Exists (fun b => 0x80 <= b) p ->
  exists a c c' rest,
    p = a ++ c :: c' :: rest /\ 0xC2 <= c <= 0xF4 /\ 0x80 <= c' <= 0xBF.
Proof.
  revert p. induction fuel as [|f IH]; intros p Hv Hex.
  - destruct p; [inversion Hex|discriminate].
  - destruct p as [|pi rest]; [inversion Hex|].
    cbn [utf8.validLoop] in Hv. unfold utf8.RuneSelf in Hv.
    destruct (pi <? 128) eqn:E.
    + apply Z.ltb_lt in E. apply Exists_cons in Hex as [Hex|Hex]; [lia|].
      destruct (IH rest Hv Hex) as (a & c & c' & r & -> & Hc & Hc').
      exists (pi :: a), c, c', r. auto.
    + destruct (utf8.first pi) as [| |size lo hi] eqn:F.
      * apply utf8_facts.first_AS_inv in F. apply Z.ltb_ge in E. lia.
      * discriminate.
      * destruct (first_Seq_range _ _ _ _ F) as (Hs & Hpi & Hlo & Hhi).
        destruct ((length (pi :: rest) <? size)%nat) eqn:EL; [discriminate|].
        apply Nat.ltb_ge in EL. simpl in EL.
        destruct rest as [|c1 rest']; [simpl in EL; lia|].
        cbn [nth] in Hv.
        destruct ((c1 <? lo) || (hi <? c1)) eqn:E1; [discriminate|].
        apply orb_false_iff in E1 as [E1a E1b].
        apply Z.ltb_ge in E1a, E1b.
        exists [], pi, c1, rest'. repeat split; simpl; lia.
Qed.

Lemma gbkScan_pair a c c' rest :
  0x81 <= c <= 0xFE -> 0x40 <= c' <= 0xFE ->
  gbkScan 1 (a ++ c :: c' :: rest) = true.
Proof.
  intros Hc Hc'. induction a as [|x a IH].
  - simpl.
    destruct (129 <=? c) eqn:E1; [|apply Z.leb_gt in E1; lia].
    destruct (c <=? 254) eqn:E2; [|apply Z.leb_gt in E2; lia].
    destruct (64 <=? c') eqn:E3; [|apply Z.leb_gt in E3; lia].
    destruct (c' <=? 254) eqn:E4; [|apply Z.leb_gt in E4; lia].
    reflexivity.
  - simpl app. cbn [gbkScan]. destruct (a ++ c :: c' :: rest) eqn:E;
      [destruct a; discriminate|].
    destruct (_ && _); [|exact IH]. destruct (_ && _); [reflexivity|exact IH].
Qed.

Lemma highRanges_step content acc :
  fst (fold_left
    (fun (acc : bool * bool) (b : Z) =>
       let hasGBKRange :=
         if (0x81 <=? b) && (b <=? 0xFE) then true else fst acc in
       let hasBIG5Range :=
         if (0xA1 <=? b) && (b <=? 0xF9) then true else snd acc in
       (hasGBKRange, hasBIG5Range)) content acc) = true <->
  fst acc = true \/ Exists (fun b => 0x81 <= b <= 0xFE) content.
Proof.
  revert acc. induction content as [|b rest IH]; intros acc; simpl fold_left.
  - split; [auto|]. intros [H|H]; [exact H|inversion H].
  - rewrite IH. cbn [fst]. rewrite Exists_cons.
    destruct ((129 <=? b) && (b <=? 254)) eqn:E.
    + apply andb_true_iff in E as [E1 E2]. apply Z.leb_le in E1, E2. tauto.
    + apply andb_false_iff in E. split.
      * tauto.
      * intros [H|[H|H]]; auto. exfalso.
        destruct E as [E|E]; apply Z.leb_gt in E; lia.
Qed.

(** A buffer of valid UTF-8 without byte-order-mark that holds any byte
    from 0x80 up, that is any character outside ASCII, is never
    answered ["UTF-8"]: it is answered ["BIG5"] or ["GB2312/GBK"]. *)
Theorem utf8_text_not_recognised (big5Table gbkTable content : list Z) :
  hasBOM content = false -> utf8.Valid content = true ->
  Exists (fun b => 0x80 <= b) content ->
  (detectFileEncoding big5Table gbkTable content = encBIG5
   \/ detectFileEncoding big5Table gbkTable content = encGBK)
  /\ verdict (detectFileEncoding big5Table gbkTable content) <> UTF8.
Proof.
  intros Hb Hv Hex.
  destruct (valid_first_high _ _ Hv Hex) as (a & c & c' & rest & Hp & Hc & Hc').
  assert (Hg : isGBKEncoded gbkTable content = true).
  { rewrite isGBKEncoded_scan, Hp. apply gbkScan_pair; lia. }
  assert (Hr : utf8Rule content = false).
  { unfold utf8Rule. rewrite Hv. cbn [andb]. unfold highRanges.
    destruct (fold_left _ content (false, false)) as [g b] eqn:E.
    assert (Hfst : g = true).
    { change g with (fst (g, b)). rewrite <- E. apply highRanges_step. right.
      rewrite Hp. apply Exists_app. right. constructor. lia. }
    subst g. reflexivity. }
  unfold detectFileEncoding. rewrite Hb, Hr, Hg.
  destruct (isBIG5Encoded big5Table content);
    (split; [auto|vm_compute; discriminate]).
Qed.

Lemma utf8_text_not_recognised_witness :
  (detectFileEncoding [] [] (bytes "caf" ++ [0xC3; 0xA9]) = encBIG5
   \/ detectFileEncoding [] [] (bytes "caf" ++ [0xC3; 0xA9]) = encGBK)
  /\ verdict (detectFileEncoding [] [] (bytes "caf" ++ [0xC3; 0xA9])) <> UTF8.
Proof.
  apply utf8_text_not_recognised; [reflexivity|reflexivity|].
  repeat first [apply Exists_cons_hd; lia | apply Exists_cons_tl].
Defined.




(** ** [scanMixedEncodingFile] *)

Lemma mixedScan_nil_iff lineNum pos content :
  mixedScan lineNum pos content = [] <-> gbkScan 1 content = false.
Proof.
  revert lineNum pos.
  induction content as [|c rest IH]; intros lineNum pos; [split; reflexivity|].
  cbn [mixedScan gbkScan]. destruct (Z.eqb_spec c 10) as [->|Hc].
  - rewrite IH. destruct rest as [|c' rest']; [split; reflexivity|].
    change ((129 <=? 10) && (10 <=? 254)) with false. cbv iota. reflexivity.
  - destruct rest as [|c' rest']; [split; reflexivity|].
    specialize (IH lineNum (pos + 1)). revert IH.
    generalize (mixedScan lineNum (pos + 1) (c' :: rest')) (gbkScan 1 (c' :: rest')).
    intros m g IH.
    destruct ((129 <=? c) && (c <=? 254)); cbn [andb]; [|exact IH].
    destruct ((64 <=? c') && (c' <=? 254)); [split; discriminate|exact IH].
Qed.

Lemma mixedScan_sound lineNum pos content i :
  i ∈ mixedScan lineNum pos content ->
  exists k : nat,
    issuePos i = pos + Z.of_nat k /\ gbkPairAt content k i
    /\ issueLine i = lineNum + newlines (take k content).
Proof.
  remember (length content) as n eqn:Hn. revert lineNum pos content Hn.
  induction n as [n IH] using lt_wf_ind. intros lineNum pos content Hn Hi.
  destruct content as [|c rest]; [inversion Hi|].
  cbn [mixedScan] in Hi. destruct (Z.eqb_spec c 10) as [->|Hc].
  - apply (IH (length rest)) in Hi; [|subst n; simpl; lia|reflexivity].
    destruct Hi as (k & Hp & Hpair & Hl). exists (S k). split; [lia|]. split.
    + exact Hpair.
    + rewrite Hl. unfold newlines. cbn [take]. rewrite filter_cons_True by reflexivity.
      simpl length. lia.
  - destruct rest as [|c' rest']; [inversion Hi|].
    assert (Hskip : i ∈ mixedScan lineNum (pos + 1) (c' :: rest') ->
      exists k : nat, issuePos i = pos + Z.of_nat k /\ gbkPairAt (c :: c' :: rest') k i
        /\ issueLine i = lineNum + newlines (take k (c :: c' :: rest'))).
    { intros Hi'. apply (IH (length (c' :: rest'))) in Hi'; [|subst n; simpl; lia|reflexivity].
      destruct Hi' as (k & Hp & Hpair & Hl). exists (S k). split; [lia|]. split.
      - exact Hpair.
      - rewrite Hl. unfold newlines. cbn [take]. rewrite filter_cons_False by exact Hc.
        reflexivity. }
    destruct ((129 <=? c) && (c <=? 254)) eqn:E1; cbn [andb] in Hi; [|auto].
    destruct ((64 <=? c') && (c' <=? 254)) eqn:E2; [|auto].
    apply elem_of_cons in Hi as [->|Hi].
    + exists 0%nat. cbn. unfold gbkPairAt. cbn.
      apply andb_true_iff in E1 as [A B]. apply andb_true_iff in E2 as [C D].
      apply Z.leb_le in A, B, C, D. unfold newlines. cbn. repeat split; try lia.
    + apply (IH (length rest')) in Hi; [|subst n; simpl; lia|reflexivity].
      destruct Hi as (k & Hp & Hpair & Hl). exists (S (S k)). split; [lia|]. split.
      * exact Hpair.
      * rewrite Hl. unfold newlines. cbn [take].
        apply andb_true_iff in E2 as [C D]. apply Z.leb_le in C, D.
        rewrite filter_cons_False by exact Hc.
        rewrite filter_cons_False by lia. reflexivity.
Qed.



(** [scanMixedEncodingFile] reports no byte sequence exactly on the
    buffers [isGBKEncoded] rejects. *)
Theorem mixed_scan_silent_iff (gbkTable content : list Z) :
  scanMixedEncodingFile content = [] <-> isGBKEncoded gbkTable content = false.
Proof.
  rewrite isGBKEncoded_scan. apply mixedScan_nil_iff.
Qed.

(** Every row [scanMixedEncodingFile] prints names a position of the
    buffer where a byte of the range 0x81-0xFE is followed by a byte of
    the range 0x40-0xFE, shows these two bytes, and gives as line
    number one more than the number of newlines before the position. *)
Theorem mixed_scan_reports_pairs (content : list Z) (i : Issue) :
  i ∈ scanMixedEncodingFile content ->
  exists k : nat,
    issuePos i = Z.of_nat k
    /\ content !! k = Some (issueLead i)
    /\ content !! S k = Some (issueTrail i)
    /\ 0x81 <= issueLead i <= 0xFE /\ 0x40 <= issueTrail i <= 0xFE
    /\ issueLine i = 1 + newlines (take k content).
Proof.
  intros H. apply mixedScan_sound in H.
  destruct H as (k & Hp & (H1 & H2 & H3 & H4) & Hl).
  exists k. repeat split; auto; lia.
Qed.

Lemma mixed_scan_reports_pairs_witness :
  exists k : nat,
    issuePos (mkIssue 2 3 0xB9 0xFA) = Z.of_nat k
    /\ (bytes "a=" ++ [0x0A; 0xB9; 0xFA; 0x0A]) !! k
       = Some (issueLead (mkIssue 2 3 0xB9 0xFA))
    /\ (bytes "a=" ++ [0x0A; 0xB9; 0xFA; 0x0A]) !! S k
       = Some (issueTrail (mkIssue 2 3 0xB9 0xFA))
    /\ 0x81 <= issueLead (mkIssue 2 3 0xB9 0xFA) <= 0xFE
    /\ 0x40 <= issueTrail (mkIssue 2 3 0xB9 0xFA) <= 0xFE
    /\ issueLine (mkIssue 2 3 0xB9 0xFA)
       = 1 + newlines (take k (bytes "a=" ++ [0x0A; 0xB9; 0xFA; 0x0A])).
Proof.
  apply mixed_scan_reports_pairs.
  apply (list_elem_of_lookup_2 _ 0%nat). reflexivity.
Defined.

(** ** The UTF-8 scan after the detector *)

Lemma gbkScan_NoPair l : gbkScan 1 l = false -> NoPair l.
Proof.
  intros H a c c' rest -> [Hc Hc'].
  rewrite gbkScan_pair in H by assumption. discriminate.
Qed.

Lemma NoPair_app_l a b : NoPair (a ++ b) -> NoPair a.
Proof.
  intros H x c c' rest ->. apply (H x c c' (rest ++ b)).
  rewrite <- app_assoc. reflexivity.
Qed.

Lemma NoPair_app_r a b : NoPair (a ++ b) -> NoPair b.
Proof.
  intros H x c c' rest ->. apply (H (a ++ x) c c' rest).
  rewrite <- app_assoc. reflexivity.
Qed.

Lemma NoPair_take n l : NoPair l -> NoPair (take n l).
Proof. rewrite <- (take_drop n l) at 1. apply NoPair_app_l. Qed.

Lemma NoPair_drop n l : NoPair l -> NoPair (drop n l).
Proof. rewrite <- (take_drop n l) at 1. apply NoPair_app_r. Qed.

Lemma NoPair_dropCR l : NoPair l -> NoPair (bufio.dropCR l).
Proof.
  intros H. unfold bufio.dropCR. destruct (_ && _); [|exact H].
  now apply NoPair_take.
Qed.

Lemma NoPair_scanLoop fuel data :
  NoPair data -> Forall NoPair (fst (bufio.scanLoop fuel data)).
Proof.
  apply (bufio_facts.scanLoop_tokens NoPair).
  - intros l n H. now apply NoPair_take.
  - intros l n H. now apply NoPair_drop.
  - apply NoPair_dropCR.
Qed.

(** Without such a pair no multi-byte sequence decodes. *)
Lemma DecodeRune_NoPair s r size :
  NoPair s -> utf8.DecodeRune s = (r, size) -> r < 0x80 \/ r = utf8.RuneError.
Proof.
  intros Hs. unfold utf8.DecodeRune.
  destruct s as [|s0 t0]; [intros H; inversion H; auto|].
  destruct (utf8.first s0) as [| |sz lo hi] eqn:F.
  - apply utf8_facts.first_AS_inv in F. intros H; inversion H; subst. auto.
  - intros H; inversion H; auto.
  - destruct (first_Seq_range _ _ _ _ F) as (Hsz & Hs0 & Hlo & Hhi).
    destruct (_ <? _)%nat; [intros H; inversion H; auto|].
    destruct t0 as [|s1 t1]; [intros H; inversion H; auto|].
    destruct ((s1 <? lo) || (hi <? s1)) eqn:E; [intros H; inversion H; auto|].
    apply orb_false_iff in E as [E1 E2]. apply Z.ltb_ge in E1, E2.
    exfalso. apply (Hs [] s0 s1 t1 eq_refl). lia.
Qed.

Lemma runesLoop_NoPair fuel s :
  NoPair s ->
  Forall (fun r => r < 0x80 \/ r = utf8.RuneError) (utf8.runesLoop fuel s).
Proof.
  revert s. induction fuel as [|f IH]; intros s Hs; [constructor|].
  destruct s as [|b rest] eqn:E; [constructor|]. rewrite <- E in *.
  assert (Hun : utf8.runesLoop (S f) s =
    let '(r, size) := utf8.DecodeRune s in r :: utf8.runesLoop f (drop size s))
    by (rewrite E; reflexivity).
  rewrite Hun. destruct (utf8.DecodeRune s) as [r size] eqn:D.
  constructor; [now apply (DecodeRune_NoPair s r size)|].
  now apply IH, NoPair_drop.
Qed.

Lemma flagged_plain r : r < 0x80 \/ r = utf8.RuneError -> flagged r = false.
Proof.
  intros [H| ->]; unfold flagged.
  - now rewrite simplifiedOnly_ascii.
  - reflexivity.
Qed.

Lemma scanRunes_plain lineNum all i rest :
  Forall (fun r => r < 0x80 \/ r = utf8.RuneError) rest ->
  scanRunes lineNum all i rest = [].
Proof.
  intros Hr. revert i. induction Hr as [|r rest Hb Hrest IH]; intros i;
    [reflexivity|].
  cbn [scanRunes]. fold (flagged r). rewrite flagged_plain by assumption. apply IH.
Qed.

Lemma scanLinesFrom_NoPair lineNum lines :
  Forall NoPair lines -> scanLinesFrom lineNum lines = [].
Proof.
  intros Hl. revert lineNum. induction Hl as [|l ls Hl Hls IH]; intros n;
    [reflexivity|].
  cbn [scanLinesFrom]. rewrite scanRunes_plain; [apply IH|].
  now apply runesLoop_NoPair.
Qed.

Lemma highRanges_none content :
  fst (highRanges content) = false -> NoPair content.
Proof.
  intros H a c c' rest -> [Hc _].
  assert (Ht : fst (highRanges (a ++ c :: c' :: rest)) = true).
  { apply highRanges_step. right. apply Exists_app. right. now constructor. }
  congruence.
Qed.

(** [main] scans for Simplified-only characters when the detector
    answers ["UTF-8"].  On a buffer without byte-order-mark that answer
    leaves the scan nothing to find: every encoding of a character
    outside ASCII is a pair of bytes the GBK test accepts, so a buffer
    that gets the answer holds none, and no row is printed. *)
Theorem bomless_scan_finds_nothing (big5Table gbkTable content : list Z) :
  hasBOM content = false ->
  detectFileEncoding big5Table gbkTable content = encUTF8 ->
  scanUTF8ForSimplified content = [].
Proof.
  intros Hb Hd.
  assert (Hn : NoPair content).
  { unfold detectFileEncoding in Hd. rewrite Hb in Hd.
    destruct (utf8Rule content) eqn:Hr.
    - unfold utf8Rule in Hr. apply andb_true_iff in Hr as [_ Hr].
      apply highRanges_none. destruct (highRanges content) as [g b].
      destruct g; [discriminate Hr|reflexivity].
    - destruct (isBIG5Encoded big5Table content); [discriminate Hd|].
      destruct (isGBKEncoded gbkTable content) eqn:Hg; [discriminate Hd|].
      rewrite isGBKEncoded_scan in Hg. now apply gbkScan_NoPair. }
  unfold scanUTF8ForSimplified. apply scanLinesFrom_NoPair.
  now apply NoPair_scanLoop.
Qed.

Lemma bomless_scan_finds_nothing_witness :
  scanUTF8ForSimplified (bytes "name=" ++ [0xE5; 0x20; 0x9B; 0x20; 0xBD]) = [].
Proof.
  apply (bomless_scan_finds_nothing [] []); reflexivity.
Defined.

(** *** The rows of [scanUTF8ForSimplified] *)

Lemma scanRunes_chars lineNum runes i rest :
  map char (scanRunes lineNum runes i rest) = List.filter flagged rest.
Proof.
  revert i. induction rest as [|r rest IH]; intros i; [reflexivity|].
  cbn [scanRunes List.filter]. unfold flagged at 1.
  destruct (default false (simplifiedOnly !! r)); cbn [map char]; now rewrite IH.
Qed.

Lemma scanLinesFrom_chars lineNum lines :
  map char (scanLinesFrom lineNum lines)
  = List.filter flagged (concat (map utf8.runes lines)).
Proof.
  revert lineNum. induction lines as [|l ls IH]; intros n; [reflexivity|].
  cbn [scanLinesFrom map concat]. rewrite map_app, List.filter_app.
  now rewrite scanRunes_chars, IH.
Qed.

Lemma scanRunes_row lineNum runes pre rest f :
  runes = pre ++ rest ->
  f ∈ scanRunes lineNum runes (Z.of_nat (length pre)) rest ->
  exists i : nat,
    lineNum = FindSC.lineNum f /\ runes !! i = Some (char f)
    /\ flagged (char f) = true
    /\ context f
       = take (Nat.min (i + 15) (length runes) - (i - 15)) (drop (i - 15) runes).
Proof.
  revert pre. induction rest as [|r rest IH]; intros pre Hr Hf; [inversion Hf|].
  cbn [scanRunes] in Hf.
  assert (Hmore : f ∈ scanRunes lineNum runes (Z.of_nat (length pre) + 1) rest ->
    exists i : nat,
      lineNum = FindSC.lineNum f /\ runes !! i = Some (char f)
      /\ flagged (char f) = true
      /\ context f
         = take (Nat.min (i + 15) (length runes) - (i - 15)) (drop (i - 15) runes)).
  { intros H. apply (IH (pre ++ [r])).
    - rewrite <- app_assoc. exact Hr.
    - rewrite length_app. simpl length.
      replace (Z.of_nat (length pre + 1)) with (Z.of_nat (length pre) + 1) by lia.
      exact H. }
  destruct (default false (simplifiedOnly !! r)) eqn:E; [|auto].
  apply elem_of_cons in Hf as [->|Hf]; [|auto].
  exists (length pre). cbn [FindSC.lineNum char context].
  split; [reflexivity|]. split.
  { rewrite Hr. rewrite lookup_app_r by lia. now rewrite Nat.sub_diag. }
  split; [exact E|].
  assert (Hlen : (length pre < length runes)%nat).
  { rewrite Hr, length_app. simpl. lia. }
  f_equal.
  - destruct (Z.ltb_spec (Z.of_nat (length pre) - 15) 0);
      destruct (Z.ltb_spec (Z.of_nat (length runes)) (Z.of_nat (length pre) + 15));
      lia.
  - f_equal. destruct (Z.ltb_spec (Z.of_nat (length pre) - 15) 0); lia.
Qed.

Lemma scanLinesFrom_row (n : nat) lines f :
  f ∈ scanLinesFrom (Z.of_nat n) lines ->
  exists (j i : nat) line,
    lines !! j = Some line /\ lineNum f = Z.of_nat (n + j) + 1
    /\ utf8.runes line !! i = Some (char f) /\ flagged (char f) = true
    /\ context f
       = take (Nat.min (i + 15) (length (utf8.runes line)) - (i - 15))
           (drop (i - 15) (utf8.runes line)).
Proof.
  revert n. induction lines as [|l ls IH]; intros n Hf; [inversion Hf|].
  cbn [scanLinesFrom] in Hf. apply elem_of_app in Hf as [Hf|Hf].
  - apply (scanRunes_row _ _ []) in Hf; [|reflexivity].
    destruct Hf as (i & Hn & Hi & Hfl & Hc).
    exists 0%nat, i, l. repeat split; auto. rewrite <- Hn. lia.
  - replace (Z.of_nat n + 1) with (Z.of_nat (S n)) in Hf by lia.
    apply IH in Hf. destruct Hf as (j & i & line & Hj & Hn & Hrest).
    exists (S j), i, line. split; [exact Hj|]. split; [lia|exact Hrest].
Qed.

(** Every row [scanUTF8ForSimplified] prints stands for one rune of one
    line of the text: the line number is the line's, counted from 1;
    the character is the rune, and it is a key of [simplifiedOnly]; the
    context is cut from the runes of the line, from 15 runes before the
    character to 14 runes after it, so it holds at most 30 runes and
    the character itself. *)
Theorem finding_in_context (content : list Z) (f : Finding) :
  f ∈ scanUTF8ForSimplified content ->
  exists (j i : nat) line,
    bufio.ScanLines content !! j = Some line
    /\ lineNum f = Z.of_nat j + 1
    /\ utf8.runes line !! i = Some (char f)
    /\ flagged (char f) = true
    /\ context f
       = take (Nat.min (i + 15) (length (utf8.runes line)) - (i - 15))
           (drop (i - 15) (utf8.runes line))
    /\ (length (context f) <= 30)%nat
    /\ context f !! Nat.min i 15 = Some (char f).
Proof.
  intros Hf. apply (scanLinesFrom_row 0) in Hf.
  destruct Hf as (j & i & line & Hj & Hn & Hi & Hfl & Hc).
  exists j, i, line. repeat split; auto.
  - rewrite Hc, length_take. lia.
  - assert (Hlt : (i < length (utf8.runes line))%nat)
      by (apply lookup_lt_is_Some; eauto).
    rewrite Hc, lookup_take_lt by lia. rewrite lookup_drop.
    replace (i - 15 + Nat.min i 15)%nat with i by lia. exact Hi.
Qed.

Lemma finding_in_context_witness :
  exists (j i : nat) line,
    bufio.ScanLines (BOM ++ bytes "a=" ++ [0xE5; 0x9B; 0xBD]) !! j = Some line
    /\ lineNum (mkFinding 1 0x56FD [0xFEFF; 0x61; 0x3D; 0x56FD]) = Z.of_nat j + 1
    /\ utf8.runes line !! i
       = Some (char (mkFinding 1 0x56FD [0xFEFF; 0x61; 0x3D; 0x56FD]))
    /\ flagged (char (mkFinding 1 0x56FD [0xFEFF; 0x61; 0x3D; 0x56FD])) = true
    /\ context (mkFinding 1 0x56FD [0xFEFF; 0x61; 0x3D; 0x56FD])
       = take (Nat.min (i + 15) (length (utf8.runes line)) - (i - 15))
           (drop (i - 15) (utf8.runes line))
    /\ (length (context (mkFinding 1%Z 0x56FD%Z
                            [0xFEFF%Z; 0x61%Z; 0x3D%Z; 0x56FD%Z])) <= 30)%nat
    /\ context (mkFinding 1 0x56FD [0xFEFF; 0x61; 0x3D; 0x56FD]) !! Nat.min i 15
       = Some (char (mkFinding 1 0x56FD [0xFEFF; 0x61; 0x3D; 0x56FD])).
Proof.
  apply finding_in_context.
  apply (list_elem_of_lookup_2 _ 0%nat). vm_compute. reflexivity.
Defined.

(** The characters reported are the keys of [simplifiedOnly] among the
    runes of the lines the scanner delivers, each occurrence once and
    in the order of the text; the count printed at the end is their
    number.  The scanner stops at the first line that fills its buffer
    (65536 bytes or more before the newline), and the function never
    reads the scanner's error: what follows such a line in the text is
    not scanned, and the report is the report of the lines before
    it. *)
Theorem scan_reports_flagged_runes (content : list Z) :
  map char (scanUTF8ForSimplified content)
  = List.filter flagged (concat (map utf8.runes (bufio.ScanLines content)))
  /\ forall records long rest,
       content = Processor.fileContent records ++ long ++ rest ->
       Forall Processor.scannerLine records ->
       Forall (fun r => Z.of_nat (length r) < bufio.MaxScanTokenSize) records ->
       Forall (fun b => b <> 0x0A) long ->
       bufio.MaxScanTokenSize <= Z.of_nat (length long) ->
       scanUTF8ForSimplified content
       = scanUTF8ForSimplified (Processor.fileContent records).
Proof.
  split; [apply scanLinesFrom_chars|].
  intros records long rest -> Hr Hs Hn Hl.
  unfold scanUTF8ForSimplified, bufio.ScanLines.
  rewrite Further.scanLoop_fileContent_stop by (auto; lia).
  rewrite Further.scanLoop_fileContent by (auto; lia). reflexivity.
Qed.

End FindSC_scans.

(* ===================================================================== *)
(** * Trimming a line written as key, ["="], value *)
(* ===================================================================== *)
Module strings_sep.
Import utf8 utf8_facts strings strings_facts.

Lemma lastRuneStart_le fuel s start lim : lastRuneStart fuel s start lim <= start.
Proof.
  revert start. induction fuel as [|f IH]; intros start; simpl; [lia|].
  destruct (start <? lim); [lia|]. destruct (RuneStart _); [lia|].
  specialize (IH (start - 1)). lia.
Qed.

(** The backwards search in a string is the search in its suffix, as
    long as it stops inside the suffix. *)
Lemma lastRuneStart_shift fuel pfx v start limS limV :
  let off := Z.of_nat (length pfx) in
  (limS = limV + off /\ 0 <= limV) \/ (limV = 0 /\ limS <= off) ->
  -1 <= start ->
  off <= lastRuneStart fuel (pfx ++ v) (start + off) limS ->
  lastRuneStart fuel v start limV
  = lastRuneStart fuel (pfx ++ v) (start + off) limS - off.
Proof.
  intros off Hlim. revert start.
  induction fuel as [|f IH]; intros start Hs Hres; simpl in *; [lia|].
  destruct (Z.ltb_spec (start + off) limS) as [Hl|Hl].
  - destruct (Z.ltb_spec start limV); lia.
  - destruct (Z.ltb_spec start limV) as [Hv|Hv].
    + exfalso. destruct Hlim as [[-> _]|[-> Hle]]; [lia|].
      destruct (RuneStart _); [lia|].
      pose proof (lastRuneStart_le f (pfx ++ v) (start + off - 1) limS). lia.
    + assert (H0 : 0 <= start) by (destruct Hlim as [[_ ?]|[-> _]]; lia).
      assert (Hn : nth (Z.to_nat (start + off)) (pfx ++ v) 0
                   = nth (Z.to_nat start) v 0).
      { replace (Z.to_nat (start + off))
          with (length pfx + Z.to_nat start)%nat by (subst off; lia).
        apply app_nth2_plus. }
      rewrite Hn in *. destruct (RuneStart _); [lia|].
      replace (start + off - 1) with (start - 1 + off) in * by lia.
      apply IH; [lia|exact Hres].
Qed.

(** A white space rune at the end of a string with a ["="] is decoded
    alike at the end of what follows the ["="]. *)
Lemma DecodeLastRune_after_sep a v r size :
  DecodeLastRune (a ++ 0x3D :: v) = (r, size) -> unicode.IsSpace r = true ->
  DecodeLastRune v = (r, size).
Proof.
  intros HD HS.
  assert (HE : r <> RuneError) by (intros ->; discriminate HS).
  pose proof (DecodeLastRune_space _ _ _ HD HS) as [Hsize Hnosep].
  set (pfx := a ++ [0x3D]).
  assert (Hs : a ++ 0x3D :: v = pfx ++ v)
    by (subst pfx; now rewrite <- app_assoc).
  assert (Hoff : length pfx = S (length a))
    by (subst pfx; rewrite length_app; simpl; lia).
  rewrite Hs in *. clearbody pfx.
  assert (Hlen : length (pfx ++ v) = (length pfx + length v)%nat)
    by apply length_app.
  (* the rune found lies after the separator *)
  assert (Hin : (size <= length v)%nat).
  { destruct (le_lt_dec size (length v)) as [|Hgt]; [assumption|exfalso].
    rewrite Forall_lookup in Hnosep.
    apply (Hnosep (length a - (length (pfx ++ v) - size))%nat 0x3D);
      [|reflexivity].
    rewrite lookup_drop.
    replace (length (pfx ++ v) - size + (length a - (length (pfx ++ v) - size)))%nat
      with (length a) by lia.
    rewrite <- Hs. rewrite lookup_app_r by lia.
    now rewrite Nat.sub_diag. }
  assert (Hv : v <> []) by (intros ->; simpl in Hin; lia).
  assert (Hvl : (0 < length v)%nat) by (destruct v; [congruence|simpl; lia]).
  unfold DecodeLastRune in *. rewrite Hlen in HD.
  destruct (Z.of_nat (length pfx + length v) =? 0) eqn:H0;
    [apply Z.eqb_eq in H0; lia|].
  destruct (Z.of_nat (length v) =? 0) eqn:H0'; [apply Z.eqb_eq in H0'; lia|].
  assert (Hlast : nth (Z.to_nat (Z.of_nat (length pfx + length v) - 1)) (pfx ++ v) 0
                  = nth (Z.to_nat (Z.of_nat (length v) - 1)) v 0).
  { replace (Z.to_nat (Z.of_nat (length pfx + length v) - 1))
      with (length pfx + Z.to_nat (Z.of_nat (length v) - 1))%nat by lia.
    apply app_nth2_plus. }
  rewrite Hlast in HD.
  destruct (nth (Z.to_nat (Z.of_nat (length v) - 1)) v 0 <? RuneSelf);
    [exact HD|].
  set (stS := lastRuneStart _ (pfx ++ v) _ _) in HD.
  set (st := if stS <? 0 then 0 else stS) in HD.
  destruct (DecodeRune (drop (Z.to_nat st) (pfx ++ v))) as [r' size'] eqn:HR.
  destruct (negb (st + Z.of_nat size' =? Z.of_nat (length pfx + length v))) eqn:HN;
    [inversion HD; congruence|].
  apply negb_false_iff, Z.eqb_eq in HN. inversion HD; subst r' size'.
  assert (Hst : Z.of_nat (length pfx) <= stS).
  { subst st. destruct (stS <? 0) eqn:E; [lia|]. lia. }
  assert (Hclamp : st = stS)
    by (subst st; destruct (Z.ltb_spec stS 0); [lia|reflexivity]).
  unfold UTFMax in *.
  assert (Hshift :
    lastRuneStart (Z.to_nat 4) v (Z.of_nat (length v) - 1 - 1)
      (Z.max 0 (Z.of_nat (length v) - 4))
    = stS - Z.of_nat (length pfx)).
  { subst stS.
    replace (Z.of_nat (length pfx + length v) - 1 - 1)
      with (Z.of_nat (length v) - 1 - 1 + Z.of_nat (length pfx)) in * by lia.
    apply lastRuneStart_shift; [lia|lia|exact Hst]. }
  rewrite Hshift.
  destruct (Z.ltb_spec (stS - Z.of_nat (length pfx)) 0) as [|_]; [lia|].
  assert (Hdrop : drop (Z.to_nat (stS - Z.of_nat (length pfx))) v
                  = drop (Z.to_nat st) (pfx ++ v)).
  { rewrite Hclamp.
    replace (Z.to_nat stS)
      with (length pfx + Z.to_nat (stS - Z.of_nat (length pfx)))%nat by lia.
    now rewrite drop_app_add'. }
  rewrite Hdrop, HR.
  destruct (negb (stS - Z.of_nat (length pfx) + Z.of_nat size =? Z.of_nat (length v)))
    eqn:HN'; [|reflexivity].
  apply negb_true_iff, Z.eqb_neq in HN'. lia.
Qed.

Lemma lastSpaceLen_after_sep a v :
  lastSpaceLen v = 0%nat -> lastSpaceLen (a ++ 0x3D :: v) = 0%nat.
Proof.
  intros Hv. unfold lastSpaceLen in *.
  destruct (DecodeLastRune (a ++ 0x3D :: v)) as [r size] eqn:D.
  destruct (unicode.IsSpace r) eqn:S; [|reflexivity].
  pose proof (DecodeLastRune_space _ _ _ D S) as [Hsize _].
  rewrite (DecodeLastRune_after_sep _ _ _ _ D S), S in Hv. lia.
Qed.

Lemma TrimSpace_trimmed s :
  TrimSpace s = s -> spaceLen s = 0%nat /\ lastSpaceLen s = 0%nat.
Proof.
  intros H. destruct (TrimSpace_spec s) as (_ & _ & _ & _ & _ & H1 & H2).
  rewrite H in *. auto.
Qed.

(** A trimmed key, ["="] and a trimmed value make a trimmed line. *)
Lemma TrimSpace_entry key v :
  TrimSpace key = key -> TrimSpace v = v ->
  TrimSpace (key ++ 0x3D :: v) = key ++ 0x3D :: v.
Proof.
  intros Hk Hv. apply TrimSpace_trimmed in Hk as [Hk _].
  apply TrimSpace_trimmed in Hv as [_ Hv]. unfold TrimSpace.
  rewrite TrimLeftSpace_fix by now apply spaceLen_app_sep.
  apply TrimRightSpace_fix. now apply lastSpaceLen_after_sep.
Qed.

End strings_sep.

(* ===================================================================== *)
(** * The extractor and the processor together *)
(* ===================================================================== *)
Module Pipeline.
Import strings strings_facts bufio_facts Processor Processor_facts.
Import Extractor_facts strings_sep Further.

(** *** The statistics by outcome *)

Lemma countOf_cons f o os :
  countOf f (o :: os) = (if f o then 1 else 0) + countOf f os.
Proof.
  unfold countOf. destruct (f o) eqn:E.
  - rewrite filter_cons_True by exact E. simpl length. lia.
  - rewrite filter_cons_False by congruence. lia.
Qed.

Lemma countOf_nil f : countOf f [] = 0.
Proof. reflexivity. Qed.

Lemma countOf_zero f os :
  countOf f os = 0 -> Forall (fun o => f o = false) os.
Proof.
  induction os as [|o os IH]; [constructor|]. rewrite countOf_cons.
  assert (0 <= countOf f os) by (unfold countOf; lia).
  destruct (f o) eqn:E; [lia|]. intros H0. constructor; [exact E|]. apply IH. lia.
Qed.

Lemma mkStats_eq t tr u sk nf t' tr' u' sk' nf' :
  t = t' -> tr = tr' -> u = u' -> sk = sk' -> nf = nf' ->
  mkStats t tr u sk nf = mkStats t' tr' u' sk' nf'.
Proof. congruence. Qed.

Lemma processLine_count line m s :
  snd (processLine line m (incTotalLines s)) = count (outcome m line) s.
Proof.
  rewrite processLine_classify. unfold outcome, count.
  destruct s as [t tr u sk nf].
  destruct (classify line); try destruct (m !! l);
    unfold incTotalLines, incTranslated, incUnchanged, incSkipped, incNotFound;
    simpl; apply mkStats_eq; lia.
Qed.

Lemma tally_cons s o os : tally (count o s) os = tally s (o :: os).
Proof.
  unfold tally, count. rewrite !countOf_cons. simpl length.
  destruct s as [t tr u sk nf]; simpl. apply mkStats_eq; lia.
Qed.

Lemma lineBody_later n line : n <> 1 -> lineBody n line = line.
Proof.
  intros H. unfold lineBody. destruct (n =? 1) eqn:E; [|reflexivity].
  apply Z.eqb_eq in E. contradiction.
Qed.

Lemma translate_fold_tally m lines st :
  1 <= lineNumber st ->
  stats (fold_left (translateStep m) lines st)
  = tally (stats st) (map (outcome m) lines).
Proof.
  revert st. induction lines as [|l ls IH]; intros st Hn.
  - simpl. unfold tally, countOf. destruct (stats st); simpl.
    apply mkStats_eq; lia.
  - simpl fold_left. rewrite IH.
    + rewrite translateStep_stats, processLine_count.
      rewrite lineBody_later by lia. apply tally_cons.
    + unfold translateStep. destruct (_ && _); destruct (processLine _ _ _);
        simpl; lia.
Qed.

Lemma translateStats_tally lines m :
  translateStats lines m = tally (mkStats 0 0 0 0 0) (outcomes m lines).
Proof.
  unfold translateStats, translateLoop. destruct lines as [|l ls].
  - reflexivity.
  - simpl fold_left. rewrite translate_fold_tally.
    + rewrite translateStep_stats, processLine_count.
      change (lineNumber translateInit + 1) with 1. apply tally_cons.
    + unfold translateStep. destruct (_ && _); destruct (processLine _ _ _);
        simpl; lia.
Qed.

(** The statistics [translateFile] returns count the lines by what
    [processLine] did with them: [Translated] the lines whose key the
    map holds, [Skipped] the blank lines and comments, [NotFound] the
    lines with a key the map does not hold, [Unchanged] those and the
    lines without separator or with an empty key. *)
Theorem stats_by_outcome (lines : list (list Z)) (m : gmap (list Z) (list Z)) :
  let os := outcomes m lines in
  translateStats lines m
  = mkStats (Z.of_nat (length lines)) (countOf isTranslated os)
      (countOf isMalformed os + countOf isNotFound os)
      (countOf isSkipped os) (countOf isNotFound os).
Proof.
  cbv zeta. rewrite translateStats_tally. unfold tally. simpl.
  f_equal. destruct lines; simpl; [reflexivity|]. now rewrite length_map.
Qed.

Lemma processed_untranslated m line :
  isTranslated (outcome m line) = false -> processed m line = line.
Proof.
  rewrite processed_classify. unfold outcome.
  destruct (classify line); try reflexivity.
  destruct (m !! l); [discriminate|reflexivity].
Qed.

(** When the pass reports that it translated no line, the file it wrote
    is the file it read. *)
Theorem nothing_translated_file_unchanged (lines : list (list Z))
    (m : gmap (list Z) (list Z)) :
  Translated (translateStats lines m) = 0 -> translateFile lines m = lines.
Proof.
  rewrite translateStats_tally. unfold tally. cbn [Translated]. intros H.
  apply countOf_zero in H. destruct lines as [|l ls]; [reflexivity|].
  rewrite translateFile_cons. cbn [outcomes] in H. inversion H; subst. f_equal.
  - rewrite firstRecord_body, processed_untranslated by assumption.
    unfold lineBody. change (1 =? 1) with true. cbn [andb].
    destruct (HasPrefix l BOM) eqn:E; [|reflexivity].
    symmetry. now apply TrimPrefix_spec.
  - rewrite <- (map_id ls) at 2. apply map_ext_Forall.
    rewrite Forall_map in H3. eapply Forall_impl; [exact H3|].
    intros a Ha. now apply processed_untranslated.
Qed.

Lemma nothing_translated_file_unchanged_witness :
  translateFile [BOM ++ bytes "K2 = V2"; bytes "# K1=V1"; bytes "K1"] mapK1
  = [BOM ++ bytes "K2 = V2"; bytes "# K1=V1"; bytes "K1"].
Proof. apply nothing_translated_file_unchanged. vm_compute. reflexivity. Defined.

(** The key of the entry a line stores is the key [processLine] looks
    up. *)
Lemma lineEntry_key n line :
  fst <$> Extractor.lineEntry n line
  = match classify (lineBody n line) with
    | ClassValid key => Some key
    | _ => None
    end.
Proof.
  rewrite <- classify_agree. unfold Extractor.lineEntry, Extractor.classify.
  destruct (isEmpty (TrimSpace (lineBody n line))); cbn [orb]; [reflexivity|].
  destruct (HasPrefix _ hash || HasPrefix _ semicolon); [reflexivity|].
  destruct (Index _ sepEq =? -1); [reflexivity|].
  destruct (isEmpty (TrimSpace (take _ _))); reflexivity.
Qed.

(** A key once stored stays bound. *)
Lemma parseStep_bound st line key :
  is_Some (Extractor.entries st !! key) ->
  is_Some (Extractor.entries (Extractor.parseStep st line) !! key).
Proof.
  intros H. rewrite parseStep_entries.
  destruct (Extractor.lineEntry _ line) as [[k v]|]; [|exact H].
  destruct (decide (k = key)) as [->|Hne].
  - rewrite lookup_insert_eq. eauto.
  - now rewrite lookup_insert_ne.
Qed.

Lemma parse_fold_bound lines st key :
  is_Some (Extractor.entries st !! key) ->
  is_Some (Extractor.entries (fold_left Extractor.parseStep lines st) !! key).
Proof.
  revert st. induction lines as [|l ls IH]; intros st H; [exact H|].
  simpl. now apply IH, parseStep_bound.
Qed.

(** The key of every line that has one is bound in the map. *)
Lemma parse_fold_stores lines st (j : nat) line key :
  lines !! j = Some line ->
  fst <$> Extractor.lineEntry (Extractor.lineNumber st + 1 + Z.of_nat j) line
    = Some key ->
  is_Some (Extractor.entries (fold_left Extractor.parseStep lines st) !! key).
Proof.
  revert st j. induction lines as [|l ls IH]; intros st j Hj Hk; [discriminate|].
  simpl fold_left. destruct j as [|j].
  - inversion Hj; subst l. apply parse_fold_bound.
    rewrite parseStep_entries. rewrite Z.add_0_r in Hk.
    destruct (Extractor.lineEntry _ line) as [[k v]|]; [|discriminate].
    simpl in Hk. inversion Hk; subst. rewrite lookup_insert_eq. eauto.
  - apply (IH _ j); [exact Hj|]. rewrite parseStep_lineNumber.
    replace (Extractor.lineNumber st + 1 + 1 + Z.of_nat j)
      with (Extractor.lineNumber st + 1 + Z.of_nat (S j)) by lia.
    exact Hk.
Qed.

Lemma parseINIFile_stores lines (j : nat) line key :
  lines !! j = Some line ->
  classify (lineBody (Z.of_nat j + 1) line) = ClassValid key ->
  is_Some (Extractor.parseINIFile lines !! key).
Proof.
  intros Hj Hc. apply (parse_fold_stores lines Extractor.parseInit j line);
    [exact Hj|].
  rewrite lineEntry_key. change (Extractor.lineNumber Extractor.parseInit) with 0.
  replace (0 + 1 + Z.of_nat j) with (Z.of_nat j + 1) by lia. now rewrite Hc.
Qed.

Lemma countOf_none f os :
  Forall (fun o => f o = false) os -> countOf f os = 0.
Proof.
  induction 1 as [|o os Ho _ IH]; [reflexivity|].
  now rewrite countOf_cons, Ho, IH.
Qed.

(** Run with the map the extractor builds from the same file, the pass
    finds every key: [NotFound] is 0. *)
Theorem own_map_finds_every_key (lines : list (list Z)) :
  NotFound (translateStats lines (Extractor.parseINIFile lines)) = 0.
Proof.
  rewrite translateStats_tally. unfold tally. cbn [NotFound].
  rewrite countOf_none; [reflexivity|].
  assert (Hout : forall (j : nat) line, lines !! j = Some line ->
    isNotFound (outcome (Extractor.parseINIFile lines)
                  (lineBody (Z.of_nat j + 1) line)) = false).
  { intros j line Hj. unfold outcome.
    destruct (classify _) eqn:C; try reflexivity.
    destruct (parseINIFile_stores _ _ _ _ Hj C) as [v ->]. reflexivity. }
  destruct lines as [|l ls]; [constructor|]. cbn [outcomes]. constructor.
  - apply (Hout 0%nat l eq_refl).
  - apply Forall_map, Forall_lookup_2. intros i x Hi.
    specialize (Hout (S i) x Hi). rewrite lineBody_later in Hout by lia.
    exact Hout.
Qed.

(** *** Warnings and the [Unchanged] counter *)

Lemma parseStep_warnings st line :
  Z.of_nat (length (Extractor.warnings (Extractor.parseStep st line)))
  = Z.of_nat (length (Extractor.warnings st))
    + match classify (lineBody (Extractor.lineNumber st + 1) line) with
      | ClassNoSeparator | ClassEmptyKey => 1
      | _ => 0
      end.
Proof.
  rewrite parseStep_classify. cbv zeta. rewrite classify_agree.
  destruct (classify _); cbn [Extractor.warnings]; rewrite ?length_app;
    simpl length; lia.
Qed.

Lemma malformed_count m line :
  (if isMalformed (outcome m line) then 1 else 0)
  = match classify line with
    | ClassNoSeparator | ClassEmptyKey => 1
    | _ => 0
    end.
Proof.
  unfold outcome. destruct (classify line); try reflexivity.
  destruct (m !! l); reflexivity.
Qed.

Lemma parse_fold_warnings m lines st :
  1 <= Extractor.lineNumber st ->
  Z.of_nat (length (Extractor.warnings (fold_left Extractor.parseStep lines st)))
  = Z.of_nat (length (Extractor.warnings st))
    + countOf isMalformed (map (outcome m) lines).
Proof.
  revert st. induction lines as [|l ls IH]; intros st Hn.
  - simpl. rewrite countOf_nil. lia.
  - simpl fold_left. rewrite IH by (rewrite parseStep_lineNumber; lia).
    rewrite parseStep_warnings, lineBody_later by lia.
    cbn [map]. rewrite countOf_cons, (malformed_count m). lia.
Qed.

(** The extractor prints one warning for each line the processor counts
    as unchanged without counting it as not found, whatever the map:
    both programs take the same lines for malformed. *)
Theorem warnings_match_unchanged (lines : list (list Z))
    (m : gmap (list Z) (list Z)) :
  Z.of_nat (length (Extractor.warnings (Extractor.parseLoop lines)))
  = Unchanged (translateStats lines m) - NotFound (translateStats lines m).
Proof.
  rewrite translateStats_tally. unfold tally. cbn [Unchanged NotFound].
  unfold Extractor.parseLoop. destruct lines as [|l ls].
  - simpl. rewrite !countOf_nil. lia.
  - simpl fold_left. rewrite (parse_fold_warnings m)
      by (rewrite parseStep_lineNumber; simpl; lia).
    rewrite parseStep_warnings. cbn [outcomes].
    rewrite !countOf_cons, (malformed_count m).
    change (Extractor.lineNumber Extractor.parseInit + 1) with 1.
    change (length (Extractor.warnings Extractor.parseInit)) with 0%nat. lia.
Qed.

(** *** Where a binding comes from *)

Lemma parse_fold_source lines st key value :
  Extractor.entries (fold_left Extractor.parseStep lines st) !! key = Some value ->
  (Extractor.entries st !! key = Some value
   /\ forall (j : nat) l, lines !! j = Some l ->
        fst <$> Extractor.lineEntry (Extractor.lineNumber st + 1 + Z.of_nat j) l
        <> Some key)
  \/ exists before line after,
       lines = before ++ line :: after
       /\ Extractor.lineEntry
            (Extractor.lineNumber st + 1 + Z.of_nat (length before)) line
          = Some (key, value)
       /\ forall (j : nat) l, after !! j = Some l ->
            fst <$> Extractor.lineEntry
                      (Extractor.lineNumber st + 2
                       + Z.of_nat (length before) + Z.of_nat j) l
            <> Some key.
Proof.
  induction lines as [|l ls IH] using rev_ind.
  - intros H. left. split; [exact H|]. intros j l Hj. discriminate.
  - rewrite fold_left_app. simpl fold_left. rewrite parseStep_entries.
    rewrite parse_fold_lineNumber.
    replace (Extractor.lineNumber st + Z.of_nat (length ls) + 1)
      with (Extractor.lineNumber st + 1 + Z.of_nat (length ls)) by lia.
    destruct (Extractor.lineEntry _ l) as [[k v]|] eqn:E.
    + destruct (decide (k = key)) as [->|Hne].
      * rewrite lookup_insert_eq. intros H. inversion H; subst v.
        right. exists ls, l, []. split; [reflexivity|]. split; [exact E|].
        intros j x Hj. discriminate.
      * rewrite lookup_insert_ne by exact Hne. intros H.
        destruct (IH H) as [[H1 H2]|(b & x & a & Hl & Hx & Ha)].
        -- left. split; [exact H1|]. intros j x Hj.
           apply lookup_app_Some in Hj as [Hj|[Hlen Hj]]; [now apply H2|].
           destruct (j - length ls)%nat as [|?] eqn:Ej; [|discriminate].
           inversion Hj; subst x.
           replace (Z.of_nat j) with (Z.of_nat (length ls)) by lia.
           rewrite E. simpl. congruence.
        -- right. exists b, x, (a ++ [l]). split; [|split; [exact Hx|]].
           { rewrite Hl, <- app_assoc. reflexivity. }
           intros j y Hj.
           apply lookup_app_Some in Hj as [Hj|[Hlen Hj]]; [now apply Ha|].
           destruct (j - length a)%nat as [|?] eqn:Ej; [|discriminate].
           inversion Hj; subst y.
           assert (Hls : length ls = (length b + S (length a))%nat)
             by (rewrite Hl, length_app; reflexivity).
           replace (Extractor.lineNumber st + 2 + Z.of_nat (length b) + Z.of_nat j)
             with (Extractor.lineNumber st + 1 + Z.of_nat (length ls)) by lia.
           rewrite E. simpl. congruence.
    + intros H.
      destruct (IH H) as [[H1 H2]|(b & x & a & Hl & Hx & Ha)].
      * left. split; [exact H1|]. intros j x Hj.
        apply lookup_app_Some in Hj as [Hj|[Hlen Hj]]; [now apply H2|].
        destruct (j - length ls)%nat as [|?] eqn:Ej; [|discriminate].
        inversion Hj; subst x.
        replace (Z.of_nat j) with (Z.of_nat (length ls)) by lia.
        rewrite E. discriminate.
      * right. exists b, x, (a ++ [l]). split; [|split; [exact Hx|]].
        { rewrite Hl, <- app_assoc. reflexivity. }
        intros j y Hj.
        apply lookup_app_Some in Hj as [Hj|[Hlen Hj]]; [now apply Ha|].
        destruct (j - length a)%nat as [|?] eqn:Ej; [|discriminate].
        inversion Hj; subst y.
        assert (Hls : length ls = (length b + S (length a))%nat)
          by (rewrite Hl, length_app; reflexivity).
        replace (Extractor.lineNumber st + 2 + Z.of_nat (length b) + Z.of_nat j)
          with (Extractor.lineNumber st + 1 + Z.of_nat (length ls)) by lia.
        rewrite E. discriminate.
Qed.

(** Every binding of the map the extractor returns is the entry of a
    line of the file, and of the last line that has an entry for the
    key: the map holds nothing the lines do not store. *)
Theorem binding_has_source_line (lines : list (list Z)) (key value : list Z) :
  Extractor.parseINIFile lines !! key = Some value ->
  exists before line after,
    lines = before ++ line :: after
    /\ Extractor.lineEntry (Z.of_nat (length before) + 1) line = Some (key, value)
    /\ forall (j : nat) l, after !! j = Some l ->
         fst <$> Extractor.lineEntry
                   (Z.of_nat (length before) + 2 + Z.of_nat j) l
         <> Some key.
Proof.
  intros H. apply parse_fold_source in H.
  destruct H as [[H _]|(b & x & a & Hl & Hx & Ha)]; [discriminate|].
  exists b, x, a. split; [exact Hl|].
  change (Extractor.lineNumber Extractor.parseInit) with 0 in *.
  split.
  - now replace (Z.of_nat (length b) + 1) with (0 + 1 + Z.of_nat (length b)) by lia.
  - intros j l Hj.
    replace (Z.of_nat (length b) + 2 + Z.of_nat j)
      with (0 + 2 + Z.of_nat (length b) + Z.of_nat j) by lia.
    now apply Ha.
Qed.

Lemma binding_has_source_line_witness :
  exists before line after,
    [bytes "a=1"; bytes " a = 3 "; bytes "# a=5"] = before ++ line :: after
    /\ Extractor.lineEntry (Z.of_nat (length before) + 1) line
       = Some (bytes "a", bytes "3")
    /\ forall (j : nat) l, after !! j = Some l ->
         fst <$> Extractor.lineEntry
                   (Z.of_nat (length before) + 2 + Z.of_nat j) l
         <> Some (bytes "a").
Proof. apply binding_has_source_line. vm_compute. reflexivity. Defined.

(** The entry of a line depends on its content only. *)
Lemma lineEntry_body n line :
  Extractor.lineEntry n line = Extractor.lineEntry 0 (lineBody n line).
Proof. reflexivity. Qed.

(** What the key of a line is like. *)
Lemma valid_key_facts line key :
  classify line = ClassValid key ->
  key <> [] /\ TrimSpace key = key /\ NoSep key
  /\ HasPrefix key hash = false /\ HasPrefix key semicolon = false.
Proof.
  intros H.
  destruct (classify_valid_inv _ _ H) as (x & y & Hl & Hx & Hk & Hne & Hh & Hs).
  destruct (TrimSpace_key_prefix x y) as (rest & Ht & Hrest); [congruence|].
  rewrite <- Hl, <- Hk in Ht. unfold hash, semicolon in *.
  rewrite Ht in Hh, Hs. rewrite HasPrefix_one_app in Hh, Hs by assumption.
  split; [exact Hne|]. split; [subst key; apply TrimSpace_idem|].
  split; [subst key; now apply TrimSpace_Forall|]. auto.
Qed.

(** What the extractor reads in a line made of such a key, ["="] and a
    trimmed value. *)
Lemma lineEntry_canonical key v :
  key <> [] -> TrimSpace key = key -> NoSep key ->
  HasPrefix key hash = false -> HasPrefix key semicolon = false ->
  TrimSpace v = v ->
  Extractor.lineEntry 0 (key ++ sepEq ++ v) = Some (key, v).
Proof.
  intros Hne Hkk Hsep Hh Hs Hv.
  unfold Extractor.lineEntry, lineBody. change (0 =? 1) with false. cbn [andb].
  unfold sepEq, hash, semicolon in *. simpl app.
  rewrite TrimSpace_entry by assumption.
  destruct (key ++ 61 :: v) eqn:E; [destruct key; discriminate|]. rewrite <- E.
  simpl isEmpty. rewrite !HasPrefix_one_app by assumption.
  rewrite Hh, Hs. cbn [orb].
  rewrite Index_one_app by assumption.
  destruct (Z.of_nat (length key) =? -1) eqn:E2; [apply Z.eqb_eq in E2; lia|].
  rewrite Nat2Z.id, take_app_length, Hkk.
  replace (Z.to_nat (Z.of_nat (length key) + 1)) with (length key + 1)%nat by lia.
  rewrite drop_app_add' by reflexivity. simpl drop. rewrite drop_0, Hv.
  destruct key; [congruence|reflexivity].
Qed.

Lemma lineEntry_written line key v :
  classify line = ClassValid key -> TrimSpace v = v ->
  Extractor.lineEntry 0 (key ++ sepEq ++ v) = Some (key, v).
Proof.
  intros H Hv. destruct (valid_key_facts _ _ H) as (H1 & H2 & H3 & H4 & H5).
  now apply lineEntry_canonical.
Qed.

(** The content of the record written for a line is what [processLine]
    returns for the content of the line. *)
Lemma written_body lines m (j : nat) line :
  firstLineStable lines m = true -> lines !! j = Some line ->
  exists line',
    translateFile lines m !! j = Some line'
    /\ lineBody (Z.of_nat j + 1) line'
       = processed m (lineBody (Z.of_nat j + 1) line).
Proof.
  intros Hst Hj. rewrite (translateFile_lookup _ _ _ _ Hj).
  eexists. split; [reflexivity|]. destruct j as [|j]; cbn [Nat.eqb].
  - destruct lines as [|l ls]; [discriminate|]. inversion Hj; subst l.
    unfold firstLineStable in Hst. change (Z.of_nat 0 + 1) with 1.
    unfold firstRecord, lineBody. change (1 =? 1) with true. cbn [andb].
    destruct (HasPrefix line BOM) eqn:E.
    + now rewrite HasPrefix_app, TrimPrefix_app.
    + cbn [orb] in Hst. apply negb_true_iff in Hst. now rewrite Hst.
  - now rewrite !lineBody_later by lia.
Qed.

Lemma lineEntry_classify n line key value :
  Extractor.lineEntry n line = Some (key, value) ->
  classify (lineBody n line) = ClassValid key.
Proof.
  intros H. pose proof (lineEntry_key n line) as Hk. rewrite H in Hk.
  simpl in Hk. destruct (classify _); congruence.
Qed.

(** What the extractor reads in a record the processor wrote. *)
Lemma written_entry lines m (j : nat) line line' key w :
  firstLineStable lines m = true -> lines !! j = Some line ->
  translateFile lines m !! j = Some line' ->
  Extractor.lineEntry (Z.of_nat j + 1) line' = Some (key, w) ->
  classify (lineBody (Z.of_nat j + 1) line) = ClassValid key
  /\ forall v, m !! key = Some v -> TrimSpace v = v -> w = v.
Proof.
  intros Hst Hj Hj' He.
  destruct (written_body _ _ _ _ Hst Hj) as (l2 & Hl2 & Hb).
  rewrite Hj' in Hl2. inversion Hl2; subst l2.
  rewrite lineEntry_body, Hb in He. rewrite processed_classify in He.
  destruct (classify (lineBody (Z.of_nat j + 1) line)) as [| | | |k] eqn:C;
    try (apply lineEntry_classify in He; change (lineBody 0 ?x) with x in He;
         congruence).
  destruct (m !! k) as [t|] eqn:L.
  - pose proof (lineEntry_classify _ _ _ _ He) as Hc.
    change (lineBody 0 ?x) with x in Hc.
    rewrite (classify_output _ _ _ C) in Hc. inversion Hc; subst k.
    split; [reflexivity|]. intros v Hv Ht. rewrite Hv in L. inversion L; subst t.
    rewrite (lineEntry_written _ _ _ C Ht) in He. congruence.
  - pose proof (lineEntry_classify _ _ _ _ He) as Hc.
    change (lineBody 0 ?x) with x in Hc. rewrite C in Hc. inversion Hc; subst k.
    split; [reflexivity|]. intros v Hv. congruence.
Qed.

(** A binding of the extracted map and the line it comes from. *)
Lemma parseINIFile_source lines key value :
  Extractor.parseINIFile lines !! key = Some value ->
  exists (j : nat) line,
    lines !! j = Some line
    /\ Extractor.lineEntry (Z.of_nat j + 1) line = Some (key, value).
Proof.
  intros Hin. apply parse_fold_source in Hin.
  destruct Hin as [[Hin _]|(b & x & a & Hl & Hx & _)]; [discriminate|].
  change (Extractor.lineNumber Extractor.parseInit) with 0 in Hx.
  replace (0 + 1 + Z.of_nat (length b)) with (Z.of_nat (length b) + 1) in Hx by lia.
  exists (length b), x. split; [|exact Hx].
  rewrite Hl. now apply list_lookup_middle.
Qed.

Lemma read_back lines m key v :
  firstLineStable lines m = true ->
  is_Some (Extractor.parseINIFile lines !! key) ->
  m !! key = Some v -> TrimSpace v = v ->
  Extractor.parseINIFile (translateFile lines m) !! key = Some v.
Proof.
  intros Hst [value Hin] Hm Hv.
  destruct (parseINIFile_source _ _ _ Hin) as (j & x & Hj & Hx).
  apply lineEntry_classify in Hx.
  destruct (written_body _ _ _ _ Hst Hj) as (x' & Hj' & Hb).
  assert (Hbound : is_Some (Extractor.parseINIFile (translateFile lines m) !! key)).
  { apply (parseINIFile_stores _ j x'); [exact Hj'|].
    rewrite Hb, processed_classify, Hx, Hm. now apply (classify_output _ _ _ Hx). }
  destruct Hbound as [w Hw]. rewrite Hw. f_equal.
  destruct (parseINIFile_source _ _ _ Hw) as (i & y' & Hi' & Hy').
  assert (Hlt : (i < length lines)%nat).
  { rewrite <- (translateFile_length lines m). apply lookup_lt_is_Some. eauto. }
  destruct (lookup_lt_is_Some_2 lines i Hlt) as [y Hi].
  destruct (written_entry _ _ _ _ _ _ _ Hst Hi Hi' Hy') as [_ Hval].
  now apply Hval.
Qed.

(** The extractor reads a translation back from the file the processor
    wrote: when [parseINIFile] reads that file without error, the map
    it returns binds every key of the input that the translation map
    binds to a trimmed value to that value.  The lines of the input and
    the values of the map hold no newline and end with no carriage
    return, and the pass did not bring a byte-order-mark to the start
    of a line 1 that had none. *)
Theorem translation_read_back (lines : list (list Z))
    (m entries : gmap (list Z) (list Z)) (key v : list Z) :
  Forall scannerLine lines ->
  (forall k w, m !! k = Some w -> scannerLine w) ->
  firstLineStable lines m = true ->
  is_Some (Extractor.parseINIFile lines !! key) ->
  m !! key = Some v -> TrimSpace v = v ->
  Extractor.parseINIFileOn (fileContent (translateFile lines m)) = Some entries ->
  entries !! key = Some v.
Proof.
  intros Hl Hm Hst Hin Hk Hv. unfold Extractor.parseINIFileOn.
  destruct (bufio.ScanErr (fileContent (translateFile lines m))) eqn:E;
    [discriminate|].
  intros H. inversion H; subst entries.
  rewrite ScanLines_fileContent;
    [|now apply translateFile_scannerLines|exact E].
  now apply read_back.
Qed.

Lemma translation_read_back_witness :
  Extractor.parseINIFile
    (translateFile [BOM ++ bytes " K1 = V1 "; bytes "K2=V2"; bytes "K1=old"] mapK1)
    !! bytes "K1" = Some (bytes "X1").
Proof.
  apply (translation_read_back
           [BOM ++ bytes " K1 = V1 "; bytes "K2=V2"; bytes "K1=old"] mapK1).
  - repeat constructor; try discriminate.
  - intros k w H. unfold mapK1 in H. apply lookup_singleton_Some in H as [_ <-].
    repeat constructor; try discriminate.
  - vm_compute. reflexivity.
  - vm_compute. eauto.
  - vm_compute. reflexivity.
  - vm_compute. reflexivity.
  - vm_compute. reflexivity.
Defined.



(** ** The plain-text export *)

Example formatInt_examples :
  Extractor.formatInt 0 = bytes "0" /\ Extractor.formatInt 7 = bytes "7"
  /\ Extractor.formatInt 1234 = bytes "1234" /\ Extractor.formatInt (-50) = bytes "-50".
Proof. repeat split; reflexivity. Qed.

Lemma digits_digit fuel n acc :
  Forall Extractor.isNumeral acc ->
  Forall Extractor.isNumeral (Extractor.digits fuel n acc).
Proof.
  revert n acc. induction fuel as [|f IH]; intros n acc H; [exact H|].
  cbn [Extractor.digits].
  assert (Forall Extractor.isNumeral ((48 + n mod 10) :: acc)).
  { constructor; [|exact H]. unfold Extractor.isNumeral.
    pose proof (Z.mod_pos_bound n 10). lia. }
  destruct (n / 10 =? 0); [assumption|]. now apply IH.
Qed.

Lemma formatInt_digit n : Forall Extractor.isNumeral (Extractor.formatInt n).
Proof.
  unfold Extractor.formatInt. destruct (n <? 0).
  - constructor; [now right|]. apply digits_digit. constructor.
  - apply digits_digit. constructor.
Qed.

(** A number below [10 ^ k] has at most [k] digits (one for 0). *)
Lemma digits_length (k : nat) fuel n acc :
  0 <= n < 10 ^ Z.of_nat k ->
  (length (Extractor.digits fuel n acc) <= length acc + S k)%nat.
Proof.
  revert fuel n acc. induction k as [|k IH]; intros fuel n acc Hn.
  - destruct fuel as [|f]; cbn [Extractor.digits]; [lia|].
    assert (n = 0) by (simpl in Hn; lia). subst n. simpl. lia.
  - destruct fuel as [|f]; cbn [Extractor.digits]; [lia|].
    destruct (n / 10 =? 0); [simpl; lia|].
    assert (Hq : 0 <= n / 10 < 10 ^ Z.of_nat k).
    { rewrite Nat2Z.inj_succ, Z.pow_succ_r in Hn by lia.
      split; [apply Z.div_pos; lia|]. apply Z.div_lt_upper_bound; lia. }
    specialize (IH f (n / 10) ((48 + n mod 10) :: acc) Hq). simpl in IH. lia.
Qed.

(** [%d] of an [int] writes at most 21 bytes. *)
Lemma formatInt_length n :
  (length (Extractor.formatInt (Extractor.intOf n)) <= 21)%nat.
Proof.
  assert (Hr : - 2 ^ 63 <= Extractor.intOf n < 2 ^ 63).
  { unfold Extractor.intOf. pose proof (Z.mod_pos_bound (n + 2 ^ 63) (2 ^ 64)).
    lia. }
  unfold Extractor.formatInt. destruct (Z.ltb_spec (Extractor.intOf n) 0).
  - pose proof (digits_length 19 (Z.to_nat (- Extractor.intOf n))
                  (- Extractor.intOf n) []) as H1.
    simpl length in *. assert (0 <= - Extractor.intOf n < 10 ^ Z.of_nat 19)
      by (change (10 ^ Z.of_nat 19) with 10000000000000000000; lia).
    specialize (H1 H0). lia.
  - pose proof (digits_length 19 (S (Z.to_nat (Extractor.intOf n)))
                  (Extractor.intOf n) []) as H1.
    simpl length in *. assert (0 <= Extractor.intOf n < 10 ^ Z.of_nat 19)
      by (change (10 ^ Z.of_nat 19) with 10000000000000000000; lia).
    specialize (H1 H0). lia.
Qed.

Lemma writePlainText_records entries order :
  Extractor.writePlainText entries order = fileContent (Extractor.plainTextRecords entries order).
Proof.
  unfold Extractor.writePlainText, fileContent, Extractor.plainTextRecords.
  generalize (bytes "# Translation Map - Plain Text Format")
             (bytes "# Total entries: ") (bytes "# Format: KEY=VALUE")
             (Extractor.formatInt (Extractor.intOf (Z.of_nat (size entries)))).
  intros h1 h2 h3 d. rewrite map_app, concat_app. cbn [map concat].
  rewrite <- !app_assoc. cbn [app]. rewrite map_map. do 9 f_equal.
  apply map_ext. intros [k v].
  now rewrite <- !app_assoc.
Qed.


(** *** What an extracted entry is like *)

Lemma lineBody_Forall (P : Z -> Prop) n line :
  Forall P line -> Forall P (lineBody n line).
Proof.
  intros H. unfold lineBody. destruct (_ && _); [|exact H].
  unfold TrimPrefix. destruct (HasPrefix _ _); [|exact H]. now apply Forall_drop.
Qed.

Lemma lineEntry_Forall (P : Z -> Prop) n line key value :
  Forall P line -> Extractor.lineEntry n line = Some (key, value) ->
  Forall P key /\ Forall P value.
Proof.
  intros H. unfold Extractor.lineEntry.
  destruct (_ || _); [discriminate|]. destruct (_ =? -1); [discriminate|].
  destruct (isEmpty _); [discriminate|]. intros E. inversion E; subst.
  assert (Forall P (TrimSpace (lineBody n line)))
    by now apply TrimSpace_Forall, lineBody_Forall.
  split; apply TrimSpace_Forall; [now apply Forall_take|now apply Forall_drop].
Qed.

Lemma TrimSpace_length s : (length (TrimSpace s) <= length s)%nat.
Proof.
  destruct (TrimSpace_spec s) as (pre & post & Hs & _).
  rewrite Hs at 2. rewrite !length_app. lia.
Qed.

Lemma lineBody_length n line : (length (lineBody n line) <= length line)%nat.
Proof.
  unfold lineBody. destruct (_ && _); [|lia].
  unfold TrimPrefix. destruct (HasPrefix _ _); [|lia]. rewrite length_drop. lia.
Qed.

(** Key, ["="] and value take no more room than the line they were
    read from. *)
Lemma lineEntry_length n line key value :
  Extractor.lineEntry n line = Some (key, value) ->
  (length key + 1 + length value <= length line)%nat.
Proof.
  unfold Extractor.lineEntry.
  set (t := TrimSpace (lineBody n line)).
  destruct (_ || _); [discriminate|].
  destruct (Z.eqb_spec (Index t sepEq) (-1)) as [|Hi]; [discriminate|].
  destruct (isEmpty _); [discriminate|]. intros E. inversion E; subst.
  unfold sepEq in *. destruct (Index_one_range t 61) as [|Hr]; [contradiction|].
  pose proof (TrimSpace_length (take (Z.to_nat (Index t [61])) t)) as H1.
  pose proof (TrimSpace_length (drop (Z.to_nat (Index t [61] + 1)) t)) as H2.
  rewrite length_take in H1. rewrite length_drop in H2.
  pose proof (TrimSpace_length (lineBody n line)) as H3. fold t in H3.
  pose proof (lineBody_length n line). lia.
Qed.

(** A trimmed string does not end with a carriage return. *)
Lemma trimmed_dropCR v : TrimSpace v = v -> bufio.dropCR v = v.
Proof.
  intros H. apply TrimSpace_trimmed in H as [_ H].
  destruct v as [|x v' _] using rev_ind; [reflexivity|].
  rewrite dropCR_snoc. destruct (Z.eqb_spec x 13) as [->|]; [|reflexivity].
  exfalso. unfold lastSpaceLen, utf8.DecodeLastRune in H.
  rewrite length_app in H. simpl length in H.
  destruct (Z.of_nat (length v' + 1) =? 0) eqn:E; [apply Z.eqb_eq in E; lia|].
  replace (Z.to_nat (Z.of_nat (length v' + 1) - 1)) with (length v') in H by lia.
  rewrite nth_middle in H. simpl in H. discriminate.
Qed.

Lemma parseINIFile_entry lines key value :
  Forall (Forall (fun b => b <> 0x0A)) lines ->
  Extractor.parseINIFile lines !! key = Some value -> Extractor.extractedEntry key value.
Proof.
  intros Hl H. destruct (parseINIFile_source _ _ _ H) as (j & line & Hj & He).
  destruct (valid_key_facts _ _ (lineEntry_classify _ _ _ _ He))
    as (H1 & H2 & H3 & H4 & H5).
  destruct (lineEntry_inv _ _ _ _ He) as (_ & _ & H6).
  rewrite Forall_lookup in Hl.
  destruct (lineEntry_Forall _ _ _ _ _ (Hl _ _ Hj) He) as [H7 H8].
  unfold Extractor.extractedEntry. auto 10.
Qed.

Lemma parseINIFile_entry_short lines key value :
  Forall (fun t => Z.of_nat (length t) < bufio.MaxScanTokenSize) lines ->
  Extractor.parseINIFile lines !! key = Some value ->
  Z.of_nat (length (key ++ sepEq ++ value)) < bufio.MaxScanTokenSize.
Proof.
  intros Hl H. destruct (parseINIFile_source _ _ _ H) as (j & line & Hj & He).
  rewrite Forall_lookup in Hl. specialize (Hl _ _ Hj).
  apply lineEntry_length in He. rewrite !length_app. simpl length. lia.
Qed.

(** *** The file read again *)

Lemma hash_no_entry n t : Extractor.lineEntry n (0x23 :: t) = None.
Proof.
  assert (Hb : lineBody n (0x23 :: t) = 0x23 :: t).
  { unfold lineBody. destruct (n =? 1); reflexivity. }
  unfold Extractor.lineEntry. rewrite Hb.
  assert (HL : TrimLeftSpace (0x23 :: t) = 0x23 :: t)
    by (apply TrimLeftSpace_fix; reflexivity).
  destruct (TrimRightSpace_spec (0x23 :: t)) as (post & Hs & _).
  unfold TrimSpace. rewrite HL.
  destruct (TrimRightSpace (0x23 :: t)) as [|c r]; [reflexivity|].
  inversion Hs; subst. reflexivity.
Qed.

Lemma comment_no_entry n line :
  HasPrefix line hash = true -> Extractor.lineEntry n line = None.
Proof.
  intros H. apply HasPrefix_spec in H as [t ->]. apply hash_no_entry.
Qed.

Lemma blank_no_entry n : Extractor.lineEntry n [] = None.
Proof. unfold Extractor.lineEntry, lineBody. destruct (n =? 1); reflexivity. Qed.

Lemma plainTextRecords_lookup entries order (j : nat) line n key value :
  (forall k v, (k, v) ∈ order -> Extractor.extractedEntry k v) ->
  Extractor.plainTextRecords entries order !! j = Some line ->
  n = Z.of_nat j + 1 ->
  Extractor.lineEntry n line = Some (key, value) ->
  (key, value) ∈ order.
Proof.
  intros Hord Hj -> He. unfold Extractor.plainTextRecords in Hj.
  destruct j as [|[|[|[|j]]]]; simpl in Hj.
  - inversion Hj; subst. rewrite comment_no_entry in He; [discriminate|reflexivity].
  - inversion Hj; subst. rewrite comment_no_entry in He; [discriminate|reflexivity].
  - inversion Hj; subst. rewrite comment_no_entry in He; [discriminate|reflexivity].
  - inversion Hj; subst. now rewrite blank_no_entry in He.
  - rewrite list_lookup_fmap in Hj.
    destruct (order !! j) as [[k v]|] eqn:Ho; [|discriminate].
    simpl in Hj. inversion Hj; subst line.
    assert (Hin : (k, v) ∈ order) by (eapply list_elem_of_lookup_2; eauto).
    destruct (Hord _ _ Hin) as (H1 & H2 & H3 & H4 & H5 & H6 & _).
    change (Extractor.lineEntry (Z.of_nat (S (S (S (S j)))) + 1)
              (k ++ sepEq ++ v) = Some (key, value)) in He.
    rewrite lineEntry_body, lineBody_later in He by lia.
    rewrite lineEntry_canonical in He by assumption. now inversion He; subst.
Qed.

Lemma scannerLine_plain l :
  Forall (fun b => b <> 0x0A /\ b <> 0x0D) l -> scannerLine l.
Proof.
  intros H. split; [eapply Forall_impl; [exact H|]; now intros b [? ?]|].
  destruct l as [|x l' _] using rev_ind; [reflexivity|].
  rewrite dropCR_snoc. apply Forall_app in H as [_ H]. inversion H; subst.
  destruct (Z.eqb_spec x 13); [lia|reflexivity].
Qed.

Lemma plainTextRecords_scannerLine entries order :
  (forall k v, (k, v) ∈ order -> Extractor.extractedEntry k v) ->
  Forall scannerLine (Extractor.plainTextRecords entries order).
Proof.
  intros Hord. unfold Extractor.plainTextRecords. apply Forall_app. split.
  - assert (Hd := formatInt_digit (Extractor.intOf (Z.of_nat (size entries)))).
    constructor; [|constructor; [|constructor; [|constructor; [|constructor]]]].
    + apply scannerLine_plain. repeat constructor; discriminate.
    + apply scannerLine_plain, Forall_app. split.
      * repeat constructor; discriminate.
      * eapply Forall_impl; [exact Hd|]. unfold Extractor.isNumeral. intros; lia.
    + apply scannerLine_plain. repeat constructor; discriminate.
    + apply scannerLine_plain. constructor.
  - apply Forall_fmap, Forall_forall. intros [k v] Hin.
    destruct (Hord _ _ Hin) as (H1 & H2 & H3 & H4 & H5 & H6 & H7 & H8).
    apply scannerLine_app_sep; [exact H7|]. split; [exact H8|].
    now apply trimmed_dropCR.
Qed.

Lemma plainText_parse entries order :
  order ≡ₚ map_to_list entries ->
  (forall k v, entries !! k = Some v -> Extractor.extractedEntry k v) ->
  Extractor.parseINIFile (Extractor.plainTextRecords entries order) = entries.
Proof.
  intros Hperm Hent.
  assert (Hord : forall k v, (k, v) ∈ order <-> entries !! k = Some v).
  { intros k v. rewrite Hperm. apply elem_of_map_to_list. }
  assert (Hord' : forall k v, (k, v) ∈ order -> Extractor.extractedEntry k v)
    by (intros k v H; apply Hent; now apply Hord).
  assert (Hsub : forall k v,
    Extractor.parseINIFile (Extractor.plainTextRecords entries order) !! k = Some v ->
    entries !! k = Some v).
  { intros k v H. destruct (parseINIFile_source _ _ _ H) as (j & line & Hj & He).
    apply Hord. eapply plainTextRecords_lookup; eauto. }
  apply map_eq. intros k.
  destruct (entries !! k) as [v|] eqn:L.
  - assert (Hin : (k, v) ∈ order) by now apply Hord.
    apply list_elem_of_lookup in Hin as [i Hi].
    assert (Hb : is_Some
      (Extractor.parseINIFile (Extractor.plainTextRecords entries order) !! k)).
    { apply (parseINIFile_stores _ (4 + i) (k ++ sepEq ++ v)).
      - unfold Extractor.plainTextRecords. rewrite lookup_app_r by (simpl; lia).
        simpl length. replace (4 + i - 4)%nat with i by lia.
        rewrite list_lookup_fmap, Hi. reflexivity.
      - destruct (Hent _ _ L) as (H1 & H2 & H3 & H4 & H5 & H6 & _).
        apply (lineEntry_classify _ _ k v).
        rewrite lineEntry_body, lineBody_later by lia.
        now apply lineEntry_canonical. }
    destruct Hb as [w Hw]. rewrite Hw. apply Hsub in Hw. congruence.
  - destruct (Extractor.parseINIFile _ !! k) as [w|] eqn:L'; [|reflexivity].
    apply Hsub in L'. congruence.
Qed.

Lemma plainTextRecords_short entries order :
  (forall k v, (k, v) ∈ order ->
     Z.of_nat (length (k ++ sepEq ++ v)) < bufio.MaxScanTokenSize) ->
  Forall (fun r => Z.of_nat (length r) < bufio.MaxScanTokenSize)
    (Extractor.plainTextRecords entries order).
Proof.
  intros Hord. unfold Extractor.plainTextRecords. apply Forall_app. split.
  - pose proof (formatInt_length (Z.of_nat (size entries))) as Hd.
    constructor; [|constructor; [|constructor; [|constructor; [|constructor]]]].
    + reflexivity.
    + rewrite length_app. unfold bufio.MaxScanTokenSize.
      change (length (bytes "# Total entries: ")) with 17%nat. lia.
    + reflexivity.
    + reflexivity.
  - apply Forall_fmap, Forall_forall. intros [k v] Hin. now apply Hord.
Qed.

(** The plain-text export of an extracted map, extracted again, gives
    the map back, whatever order the entries were written in: the
    header lines are read as comments, every entry line is read as the
    entry it was written from, and the scanner reads the export to its
    end, no line of it being longer than the line its entry came
    from. *)
Theorem plain_text_read_back (content : list Z)
    (order : list (list Z * list Z)) :
  order ≡ₚ map_to_list (Extractor.parseINIFile (bufio.ScanLines content)) ->
  Extractor.parseINIFile
    (bufio.ScanLines
       (Extractor.writePlainText (Extractor.parseINIFile (bufio.ScanLines content)) order))
  = Extractor.parseINIFile (bufio.ScanLines content)
  /\ bufio.ScanErr
       (Extractor.writePlainText
          (Extractor.parseINIFile (bufio.ScanLines content)) order)
     = None.
Proof.
  intros Hperm.
  assert (Hent : forall k v,
    Extractor.parseINIFile (bufio.ScanLines content) !! k = Some v ->
    Extractor.extractedEntry k v).
  { intros k v. apply parseINIFile_entry, scanLoop_no_newline. }
  assert (Hlen : forall k v,
    Extractor.parseINIFile (bufio.ScanLines content) !! k = Some v ->
    Z.of_nat (length (k ++ sepEq ++ v)) < bufio.MaxScanTokenSize).
  { intros k v. apply parseINIFile_entry_short, scanLoop_short. }
  assert (Hin : forall k v, (k, v) ∈ order ->
    Extractor.parseINIFile (bufio.ScanLines content) !! k = Some v).
  { intros k v H. rewrite Hperm in H. now apply elem_of_map_to_list. }
  rewrite writePlainText_records.
  unfold bufio.ScanLines at 1, bufio.ScanErr.
  rewrite scanLoop_fileContent.
  - cbn [fst snd]. split; [now apply plainText_parse|reflexivity].
  - apply plainTextRecords_scannerLine. intros k v H. now apply Hent, Hin.
  - apply plainTextRecords_short. intros k v H. now apply Hlen, Hin.
  - lia.
Qed.

Lemma plain_text_read_back_witness :
  Extractor.parseINIFile
    (bufio.ScanLines
       (Extractor.writePlainText
          (Extractor.parseINIFile (bufio.ScanLines (bytes " a = 1 " ++ [0x0A] ++ bytes "b=2")))
          [(bytes "b", bytes "2"); (bytes "a", bytes "1")]))
  = Extractor.parseINIFile (bufio.ScanLines (bytes " a = 1 " ++ [0x0A] ++ bytes "b=2"))
  /\ bufio.ScanErr
       (Extractor.writePlainText
          (Extractor.parseINIFile (bufio.ScanLines (bytes " a = 1 " ++ [0x0A] ++ bytes "b=2")))
          [(bytes "b", bytes "2"); (bytes "a", bytes "1")])
     = None.
Proof.
  apply (plain_text_read_back (bytes " a = 1 " ++ [0x0A] ++ bytes "b=2")).
  apply NoDup_Permutation.
  - repeat constructor; rewrite ?elem_of_cons, ?elem_of_nil; intros H;
      repeat destruct H as [H|H]; try discriminate; auto.
  - apply NoDup_map_to_list.
  - intros [k v]. rewrite elem_of_map_to_list.
    rewrite !elem_of_cons, elem_of_nil. split.
    + intros [H|[H|[]]]; inversion H; subst; vm_compute; reflexivity.
    + intros H.
      destruct (decide (k = bytes "a")) as [->|Ha].
      { vm_compute in H. inversion H; subst. auto. }
      destruct (decide (k = bytes "b")) as [->|Hb].
      { vm_compute in H. inversion H; subst. auto. }
      exfalso. revert H.
      change (Extractor.parseINIFile (bufio.ScanLines (bytes " a = 1 " ++ [0x0A] ++ bytes "b=2")))
        with (<[bytes "b" := bytes "2"]> (<[bytes "a" := bytes "1"]> (∅ : gmap (list Z) (list Z)))).
      rewrite lookup_insert_ne by congruence.
      rewrite lookup_insert_ne by congruence.
      rewrite lookup_empty. discriminate.
Defined.

End Pipeline.
